(** * squidasm / qoala: the network stack of a simulated quantum node

    A shallow embedding of [squidasm/qoala/sim/common.py] (channel listener,
    receive-with-block, qubit memory allocator) and of the request handlers
    of [squidasm/qoala/sim/netstack.py].

    Python generators are coroutines: a handler runs until its next
    [yield], and the simulation engine resumes it when the awaited signal
    fires.  Each handler is therefore embedded as an explicit task: a
    control state per suspension point (named after the source line of the
    [yield]) and a [resume] function that runs the code from that [yield]
    to the next one. *)

From Stdlib Require Import ZArith PrimFloat FloatOps SpecFloat.
From stdpp Require Import base numbers list strings gmap sets.

Open Scope string_scope.
Open Scope list_scope.
Open Scope nat_scope.

(** Exceptions of the Python code that the model distinguishes. *)
Inductive Exn : Set :=
  | AllocError
  | KeyError
  | IndexError
  | AssertionError
  | OverflowError
  | ValueError.

(** The result of a call that may raise. *)
Inductive Res (A : Type) : Type :=
  | Ok (a : A)
  | Raise (e : Exn).
Arguments Ok {A} a.
Arguments Raise {A} e.

(** ** common.py : PhysicalQuantumMemory *)

Module Memory.

(** [class PhysicalQuantumMemory]: [_qubit_count], [_allocated_ids] and
    [_comm_qubit_ids]. *)
Record PhysicalQuantumMemory : Type := {
  qubit_count : nat;
  allocated_ids : gset nat;
  comm_qubit_ids : gset nat
}.

(** [{i for i in range(qubit_count)}] *)
Definition range_set (n : nat) : gset nat := list_to_set (seq 0 n).

(** [PhysicalQuantumMemory.__init__] *)
Definition PhysicalQuantumMemory_init (qubit_count : nat) : PhysicalQuantumMemory :=
  {| qubit_count := qubit_count;
     allocated_ids := ∅;
     comm_qubit_ids := range_set qubit_count |}.

(** [NVPhysicalQuantumMemory.__init__]: the base constructor, then
    [_comm_qubit_ids = {0}]. *)
Definition NVPhysicalQuantumMemory_init (qubit_count : nat) : PhysicalQuantumMemory :=
  {| qubit_count := qubit_count;
     allocated_ids := ∅;
     comm_qubit_ids := {[ 0 ]} |}.

(** [self._allocated_ids.add(i)] *)
Definition add_allocated (i : nat) (m : PhysicalQuantumMemory) : PhysicalQuantumMemory :=
  {| qubit_count := qubit_count m;
     allocated_ids := {[ i ]} ∪ allocated_ids m;
     comm_qubit_ids := comm_qubit_ids m |}.

(** The three allocation methods share one shape:
    [for i in range(self._qubit_count): if <cond i>: add i; return i]
    followed by [raise AllocError].  [first_fit] is that loop over the
    remaining ids [i, i+1, ...]. *)
Fixpoint first_fit (cond : nat → bool) (ids : list nat) : option nat :=
  match ids with
  | [] => None
  | i :: rest => if cond i then Some i else first_fit cond rest
  end.

Definition alloc_with (cond : nat → bool) (m : PhysicalQuantumMemory)
  : Res (nat * PhysicalQuantumMemory) :=
  match first_fit cond (seq 0 (qubit_count m)) with
  | Some i => Ok (i, add_allocated i m)
  | None => Raise AllocError
  end.

(** [i not in self._allocated_ids] *)
Definition is_free (m : PhysicalQuantumMemory) (i : nat) : bool :=
  bool_decide (i ∉ allocated_ids m).

(** [i in self._comm_qubit_ids] *)
Definition is_comm (m : PhysicalQuantumMemory) (i : nat) : bool :=
  bool_decide (i ∈ comm_qubit_ids m).

(** [allocate]: [if i not in self._allocated_ids] *)
Definition allocate (m : PhysicalQuantumMemory) : Res (nat * PhysicalQuantumMemory) :=
  alloc_with (λ i, is_free m i) m.

(** [allocate_comm]:
    [if i not in self._allocated_ids and i in self._comm_qubit_ids] *)
Definition allocate_comm (m : PhysicalQuantumMemory) : Res (nat * PhysicalQuantumMemory) :=
  alloc_with (λ i, is_free m i && is_comm m i) m.

(** [allocate_mem]:
    [if i not in self._allocated_ids and i not in self._comm_qubit_ids] *)
Definition allocate_mem (m : PhysicalQuantumMemory) : Res (nat * PhysicalQuantumMemory) :=
  alloc_with (λ i, is_free m i && negb (is_comm m i)) m.

(** [free]: [self._allocated_ids.remove(id)]; [set.remove] raises
    [KeyError] when the element is absent. *)
Definition free (id : nat) (m : PhysicalQuantumMemory) : Res PhysicalQuantumMemory :=
  if bool_decide (id ∈ allocated_ids m)
  then Ok {| qubit_count := qubit_count m;
             allocated_ids := allocated_ids m ∖ {[ id ]};
             comm_qubit_ids := comm_qubit_ids m |}
  else Raise KeyError.

(** [is_allocated] *)
Definition is_allocated (id : nat) (m : PhysicalQuantumMemory) : bool :=
  bool_decide (id ∈ allocated_ids m).

(** A call on the pool, for sequences of calls. *)
Inductive Call : Set :=
  | CallAllocate
  | CallAllocateComm
  | CallAllocateMem
  | CallFree (id : nat).

(** The three allocation methods, by kind. *)
Inductive AllocKind : Set := AnySlot | CommSlot | MemSlot.

Definition alloc (k : AllocKind) : PhysicalQuantumMemory → Res (nat * PhysicalQuantumMemory) :=
  match k with
  | AnySlot => allocate
  | CommSlot => allocate_comm
  | MemSlot => allocate_mem
  end.

(** Which ids an allocation method may hand out: any slot for [allocate],
    a member of the communication subset for [allocate_comm], a non-member
    for [allocate_mem]; always within [range(qubit_count)]. *)
Definition eligible (k : AllocKind) (m : PhysicalQuantumMemory) (i : nat) : Prop :=
  i < qubit_count m ∧
  match k with
  | AnySlot => True
  | CommSlot => i ∈ comm_qubit_ids m
  | MemSlot => i ∉ comm_qubit_ids m
  end.

(** The test of each allocation method says: free and eligible. *)
Definition cond_of (k : AllocKind) (m : PhysicalQuantumMemory) (i : nat) : bool :=
  match k with
  | AnySlot => is_free m i
  | CommSlot => is_free m i && is_comm m i
  | MemSlot => is_free m i && negb (is_comm m i)
  end.

(** The call that stands for an allocation method. *)
Definition call_of (k : AllocKind) : Call :=
  match k with
  | AnySlot => CallAllocate
  | CommSlot => CallAllocateComm
  | MemSlot => CallAllocateMem
  end.

(** One call: the pool after it (unchanged when the call raises, since
    every method raises before it mutates) and what the caller sees. *)
Definition exec_call (m : PhysicalQuantumMemory) (c : Call)
  : PhysicalQuantumMemory * Res (option nat) :=
  match c with
  | CallAllocate =>
      match allocate m with Ok (i, m') => (m', Ok (Some i)) | Raise e => (m, Raise e) end
  | CallAllocateComm =>
      match allocate_comm m with Ok (i, m') => (m', Ok (Some i)) | Raise e => (m, Raise e) end
  | CallAllocateMem =>
      match allocate_mem m with Ok (i, m') => (m', Ok (Some i)) | Raise e => (m, Raise e) end
  | CallFree id =>
      match free id m with Ok m' => (m', Ok None) | Raise e => (m, Raise e) end
  end.

(** The pool after a sequence of calls (a caller that catches what is
    raised and goes on). *)
Definition run_calls (m : PhysicalQuantumMemory) (calls : list Call) : PhysicalQuantumMemory :=
  foldl (λ m c, fst (exec_call m c)) m calls.

End Memory.

(** ** common.py : PortListener and ComponentProtocol._receive_msg *)

Module Listener.

Section Items.

(** What travels on a port: a NetSquid message carries a list [items]. *)
Context {Item : Type}.

(** Where [PortListener.run] is suspended. *)
Inductive ListenerPc : Type :=
  | AtAwaitInput               (* line 27: top of the outer [while True] *)
  | AtFlush (counter : nat).   (* line 40: inside [while counter > 1] *)

(** A listener with the port it reads: [port_inputs] are the inputs that
    [self._port.rx_input()] has still to return, oldest first;
    [signals_sent] counts the calls of [send_signal]. *)
Record PortListener : Type := {
  buffer : list Item;
  port_inputs : list (list Item);
  pc : ListenerPc;
  signals_sent : nat
}.

(** [PortListener.__init__] *)
Definition PortListener_init : PortListener :=
  {| buffer := []; port_inputs := []; pc := AtAwaitInput; signals_sent := 0 |}.

(** Lines 31-36: [rx_input()] until it returns [None], appending
    [input.items] to the buffer and counting the inputs. *)
Fixpoint read_all_inputs (inputs : list (list Item)) (buffer : list Item) (counter : nat)
  : list Item * nat :=
  match inputs with
  | [] => (buffer, counter)
  | items :: rest => read_all_inputs rest (buffer ++ items) (S counter)
  end.

(** Lines 39-45: the test of [while counter > 1]; either suspend on the
    next port event or send the signal and go back to line 27. *)
Definition flush_or_signal (counter : nat) (l : PortListener) : PortListener :=
  if 1 <? counter
  then {| buffer := buffer l; port_inputs := port_inputs l;
          pc := AtFlush counter; signals_sent := signals_sent l |}
  else {| buffer := buffer l; port_inputs := port_inputs l;
          pc := AtAwaitInput; signals_sent := S (signals_sent l) |}.

(** The listener is resumed by one port-input event. *)
Definition listener_resume (l : PortListener) : PortListener :=
  match pc l with
  | AtAwaitInput =>
      let '(buffer', counter) := read_all_inputs (port_inputs l) (buffer l) 0 in
      flush_or_signal counter
        {| buffer := buffer'; port_inputs := [];
           pc := AtAwaitInput; signals_sent := signals_sent l |}
  | AtFlush counter =>
      flush_or_signal (counter - 1) l
  end.

(** [inputs] arrive on the port. *)
Definition port_arrival (inputs : list (list Item)) (l : PortListener) : PortListener :=
  {| buffer := buffer l; port_inputs := port_inputs l ++ inputs;
     pc := pc l; signals_sent := signals_sent l |}.

(** A wake episode: [inputs] arrive at one instant, which schedules one
    port event per input, and the listener is resumed once per event. *)
Definition wake_episode (inputs : list (list Item)) (l : PortListener) : PortListener :=
  Nat.iter (length inputs) listener_resume (port_arrival inputs l).

(** [listener.buffer.pop(0)] *)
Definition pop0 (buffer : list Item) : Res (Item * list Item) :=
  match buffer with
  | [] => Raise IndexError
  | m :: rest => Ok (m, rest)
  end.

(** What a call of [_receive_msg] does before its first suspension. *)
Inductive Receive : Type :=
  | Returns (m : Item) (rest : list Item)
  | Suspends                  (* line 64: awaits [wake_up_signal] *)
  | Raises (e : Exn).

Definition of_pop (r : Res (Item * list Item)) : Receive :=
  match r with
  | Ok (m, rest) => Returns m rest
  | Raise e => Raises e
  end.

(** [_receive_msg], from the call to the [yield] or the [return]. *)
Definition receive_msg (buffer : list Item) : Receive :=
  if length buffer =? 0 then Suspends else of_pop (pop0 buffer).

(** [_receive_msg], resumed at line 64 by the wake-up signal;
    [buffer] is the listener's buffer at that moment. *)
Definition receive_msg_resume (buffer : list Item) : Receive :=
  of_pop (pop0 buffer).

(** One listener and the one task that consumes its buffer.  The buffer
    is the list object they share: the listener extends it in place and
    the consumer pops from it.  Every input that arrives on the port
    schedules one port event; [events] counts those not yet delivered
    to the listener. *)
Record Channel : Type := {
  listener : PortListener;
  events : nat;
  waiting : bool;              (* the consumer is suspended at line 64 *)
  returned : list Item;        (* what its calls have returned so far *)
  raised : option Exn
}.

Definition Channel_init : Channel :=
  {| listener := PortListener_init; events := 0; waiting := false;
     returned := []; raised := None |}.

Inductive ChannelOp : Type :=
  | Arrive (items : list Item)   (* an input reaches the port *)
  | PortEvent                    (* the engine delivers a pending port event *)
  | CallReceive.                 (* the consumer calls [_receive_msg] *)

Definition with_buffer (b : list Item) (l : PortListener) : PortListener :=
  {| buffer := b; port_inputs := port_inputs l; pc := pc l; signals_sent := signals_sent l |}.

(** The consumer gets the outcome of a call or of a resumption. *)
Definition consume (r : Receive) (c : Channel) : Channel :=
  match r with
  | Returns m rest =>
      {| listener := with_buffer rest (listener c); events := events c; waiting := false;
         returned := returned c ++ [m]; raised := raised c |}
  | Suspends =>
      {| listener := listener c; events := events c; waiting := true;
         returned := returned c; raised := raised c |}
  | Raises e =>
      {| listener := listener c; events := events c; waiting := false;
         returned := returned c; raised := Some e |}
  end.

(** One step of the simulation.  A port event resumes the listener;
    if the listener then sends its signal and the consumer awaits it,
    the consumer is resumed at line 65.  A consumer that is suspended,
    or that has raised, makes no call. *)
Definition channel_step (c : Channel) (op : ChannelOp) : Channel :=
  match op with
  | Arrive items =>
      {| listener := port_arrival [items] (listener c); events := S (events c);
         waiting := waiting c; returned := returned c; raised := raised c |}
  | PortEvent =>
      match events c with
      | 0 => c
      | S n =>
          let l' := listener_resume (listener c) in
          let c' := {| listener := l'; events := n; waiting := waiting c;
                       returned := returned c; raised := raised c |} in
          if waiting c && (signals_sent (listener c) <? signals_sent l')
          then consume (receive_msg_resume (buffer l')) c'
          else c'
      end
  | CallReceive =>
      match waiting c, raised c with
      | false, None => consume (receive_msg (buffer (listener c))) c
      | _, _ => c
      end
  end.

Definition run_channel (ops : list ChannelOp) : Channel :=
  foldl channel_step Channel_init ops.

(** Every item that arrived, in arrival order. *)
Definition arrived (ops : list ChannelOp) : list Item :=
  concat (omap (λ op, match op with Arrive items => Some items | _ => None end) ops).

End Items.

Arguments PortListener : clear implicits.
Arguments Channel : clear implicits.
Arguments ChannelOp : clear implicits.
Arguments Receive : clear implicits.

End Listener.

(** ** netstack.py : the request handlers *)

Module Netstack.

Import Memory.

(** [netsquid.qubits.ketstates.BellIndex] *)
Inductive BellIndex : Set := B00 | B01 | B10 | B11.

(** The two NetSquid instructions the handlers use. *)
Inductive Instruction : Set := INSTR_ROT_X | INSTR_ROT_Z.

(** [squidasm.qoala.sim.constants.PI], the only angle that occurs. *)
Inductive Angle : Set := PI.

(** One [prog.apply(instruction, qubit_indices=..., angle=...)]. *)
Record Apply : Set := {
  instruction : Instruction;
  qubit_indices : list nat;
  angle : Angle
}.

(** [QuantumProgram]: the instructions applied, in order. *)
Definition QuantumProgram : Set := list Apply.

(** What the code imports from netqasm ([netqasm.sdk.build_epr]: slice
    lengths and field offsets) and from NetSquid (the [.value] of a
    [BellIndex]); these modules are not part of the repository. *)
Record Imports : Set := {
  SER_RESPONSE_KEEP_LEN : nat;
  SER_RESPONSE_KEEP_IDX_GOODNESS : nat;
  SER_RESPONSE_KEEP_IDX_BELL_STATE : nat;
  SER_RESPONSE_MEASURE_LEN : nat;
  SER_RESPONSE_MEASURE_IDX_MEASUREMENT_OUTCOME : nat;
  SER_RESPONSE_MEASURE_IDX_MEASUREMENT_BASIS : nat;
  BellIndex_value : BellIndex → Z
}.

(** [qlink_interface]: the create requests ([ReqCreateAndKeep],
    [ReqMeasureDirectly], [ReqRemoteStatePrep]) share the fields of
    [ReqCreateBase]. *)
Inductive ReqType : Set := CreateAndKeep | MeasureDirectly | RemoteStatePrep.

Record ReqCreateBase : Set := {
  req_type : ReqType;
  remote_node_id : nat;
  number : nat
}.

(** What is put to the EGP: a create request or [ReqReceive]. *)
Inductive EgpRequest : Set :=
  | ReqCreate (r : ReqCreateBase)
  | ReqReceive (remote_node_id : nat).

(** EGP results: the fields the handlers read.  [measurement_basis] holds
    the [.value] of the basis. *)
Record ResCreateAndKeep : Set := { bell_state : BellIndex }.

Record ResMeasureDirectly : Set := {
  measurement_outcome : Z;
  measurement_basis : Z;
  md_bell_state : BellIndex
}.

(** [NetstackCreateRequest] and [NetstackReceiveRequest] (common.py). *)
Record NetstackCreateRequest : Set := {
  pid : nat;
  create_remote_node_id : nat;
  epr_socket_id : nat;
  qubit_array_addr : nat;
  arg_array_addr : nat;
  result_array_addr : nat
}.

Record NetstackReceiveRequest : Set := {
  recv_pid : nat;
  recv_remote_node_id : nat;
  recv_epr_socket_id : nat;
  recv_qubit_array_addr : nat;
  recv_result_array_addr : nat
}.

(** The [content] of a [Message]: a string, or the link-layer request
    that the creator sends to its peer. *)
Inductive Content : Set :=
  | Text (s : string)
  | LinkRequest (r : ReqCreateBase).

#[global] Instance ReqType_eq_dec : EqDecision ReqType.
Proof. solve_decision. Defined.

#[global] Instance ReqCreateBase_eq_dec : EqDecision ReqCreateBase.
Proof. solve_decision. Defined.

#[global] Instance Content_eq_dec : EqDecision Content.
Proof. solve_decision. Defined.

(** What a handler does to its collaborators, in the order it does it. *)
Inductive Action : Set :=
  | EgpPut (remote : nat) (r : EgpRequest)         (* [self._egps[remote].put(r)] *)
  | ExecuteProgram (prog : QuantumProgram)         (* [self.qdevice.execute_program(prog)] *)
  | MapVirtId (pid : nat) (virt_id : option Z) (phys_id : nat)
  | SetArrayValue (pid addr index : nat) (value : Z)
  | SendProcessorMsg (c : Content)
  | SendPeerMsg (c : Content)
  | GotPeerMsg (c : Content)                       (* [_receive_peer_msg] returned [c] *)
  | GotProcessorMsg (c : Content).                 (* [_receive_processor_msg] returned [c] *)

(** The signals a handler awaits, with the result that
    [get_signal_result] then returns. *)
Inductive Signal : Set :=
  | SIGNAL_MEMORY_FREED
  | SIGNAL_PEER_NSTK_MSG
  | SIGNAL_PROC_NSTK_MSG
  | SigResCreateAndKeep (result : ResCreateAndKeep)
  | SigResMeasureDirectly (result : ResMeasureDirectly)
  | SigProgramDone.

(** Modelled from the spec: the shared-memory array accessor
    ([squidasm.qoala.sim.memory] is not among the sources): an element is
    read and written by process, array address and index; an element
    never written reads as [None]. *)
Abbreviation SharedMemory := (gmap (nat * nat * nat) Z).

(** What the handlers act on: the qubit pool they share with the
    processor ([self.physical_memory], that is [self._qnos.physical_memory]),
    the shared memory of the requesting process, the buffers of the two
    listeners ("peer_..." and "processor"; the code assumes one peer) and
    the actions performed so far (oldest first). *)
Record World : Type := {
  physical_memory : PhysicalQuantumMemory;
  shared_mem : SharedMemory;
  peer_buffer : list Content;
  processor_buffer : list Content;
  log : list Action
}.

Definition set_physical_memory (pm : PhysicalQuantumMemory) (w : World) : World :=
  {| physical_memory := pm; shared_mem := shared_mem w;
     peer_buffer := peer_buffer w; processor_buffer := processor_buffer w;
     log := log w |}.

Definition set_peer_buffer (b : list Content) (w : World) : World :=
  {| physical_memory := physical_memory w; shared_mem := shared_mem w;
     peer_buffer := b; processor_buffer := processor_buffer w;
     log := log w |}.

Definition set_processor_buffer (b : list Content) (w : World) : World :=
  {| physical_memory := physical_memory w; shared_mem := shared_mem w;
     peer_buffer := peer_buffer w; processor_buffer := b;
     log := log w |}.

Definition act (a : Action) (w : World) : World :=
  {| physical_memory := physical_memory w; shared_mem := shared_mem w;
     peer_buffer := peer_buffer w; processor_buffer := processor_buffer w;
     log := log w ++ [a] |}.

(** [shared_mem.get_array_value(addr, index)] *)
Definition get_array_value (pid addr index : nat) (w : World) : option Z :=
  shared_mem w !! (pid, addr, index).

(** [shared_mem.set_array_value(addr, index, value)] *)
Definition set_array_value (pid addr index : nat) (value : Z) (w : World) : World :=
  act (SetArrayValue pid addr index value)
    {| physical_memory := physical_memory w;
       shared_mem := <[ (pid, addr, index) := value ]> (shared_mem w);
       peer_buffer := peer_buffer w; processor_buffer := processor_buffer w;
       log := log w |}.

(** [self._send_processor_msg(Message(content=c))] and
    [self._send_peer_msg(peer, Message(content=c))] *)
Definition send_processor_msg (c : Content) : World → World := act (SendProcessorMsg c).
Definition send_peer_msg (c : Content) : World → World := act (SendPeerMsg c).

(** A Python float is a binary64 number, as [PrimFloat.float] is, and
    [-] and [/] on floats are [PrimFloat.sub] and [PrimFloat.div];
    [Prim2SF] gives the sign, the mantissa and the exponent of a float.
    The simulation clock ([ns.sim_time()]) is a float of nanoseconds. *)

(** [int(x)] of a Python float [x]: the magnitude is cut towards zero
    and the sign put back; [int] raises [OverflowError] on an infinity
    and [ValueError] on a NaN. *)
Definition int_of_float (x : float) : Res Z :=
  match Prim2SF x with
  | S754_zero _ => Ok 0%Z
  | S754_finite s m e =>
      let magnitude :=
        match e with
        | Z.neg p => Z.quot (Z.pos m) (2 ^ Z.pos p)
        | _ => (Z.pos m * 2 ^ e)%Z
        end in
      Ok (if s then Z.opp magnitude else magnitude)
  | S754_infinity _ => Raise OverflowError
  | S754_nan => Raise ValueError
  end.

(** Lines 327-328:
    [int((ns.sim_time() - start_time) / 1000)] *)
Definition gen_duration_us_int (now start_time : float) : Res Z :=
  int_of_float (PrimFloat.div (PrimFloat.sub now start_time) 1000%float).

(** The spec's words, "integer truncation" of a float: of a finite
    float of sign [s], mantissa [m] and exponent [e], that is of
    [± m * 2^e], the integer [g] of that sign (or zero) with
    [|g| <= m * 2^e < |g| + 1]; an infinity and a NaN have none. *)
Definition truncation_of (x : spec_float) (g : Z) : Prop :=
  match x with
  | S754_zero _ => g = 0%Z
  | S754_finite s m e =>
      ((if s then g ≤ 0 else 0 ≤ g) ∧
       Z.abs g * 2 ^ Z.max 0 (- e) ≤ Z.pos m * 2 ^ Z.max 0 e
         < (Z.abs g + 1) * 2 ^ Z.max 0 (- e))%Z
  | _ => False
  end.

Section Handlers.

Variable K : Imports.

(** *** Create and keep *)

(** Lines 335-348 (and 553-566): the value written at position [i] of a
    keep slice.  Two independent [if]s: the second wins when both match. *)
Definition keep_slice_value (gen_duration : Z) (bell : Z) (i : nat) : Z :=
  let value := (-1)%Z in
  let value := if i =? SER_RESPONSE_KEEP_IDX_GOODNESS K then gen_duration else value in
  let value := if i =? SER_RESPONSE_KEEP_IDX_BELL_STATE K then bell else value in
  value.

(** The loop [for i in range(slice_len)] that populates the slice of
    [pair_index]. *)
Definition write_keep_slice (pid addr pair_index : nat) (gen_duration bell : Z)
  (w : World) : World :=
  foldl
    (λ w i, set_array_value pid addr (SER_RESPONSE_KEEP_LEN K * pair_index + i)
              (keep_slice_value gen_duration bell i) w)
    w (seq 0 (SER_RESPONSE_KEEP_LEN K)).

(** Where [handle_create_ck_request] is suspended. *)
Inductive CkPc : Set :=
  | CkAwaitMemoryFreed (pair_index : nat)               (* line 281 *)
  | CkAwaitEgp (pair_index phys_id : nat)               (* line 294 *)
  | CkAwaitProgram (pair_index phys_id : nat) (result : ResCreateAndKeep)
                                                        (* lines 310, 314, 319 *)
  | CkReturned
  | CkRaised (e : Exn).

(** The locals that live across suspensions: [req], [request] (after
    [request.number = 1]), [num_pairs] and [start_time]. *)
Record CkFrame : Set := {
  ck_req : NetstackCreateRequest;
  ck_request : ReqCreateBase;
  ck_num_pairs : nat;
  ck_start_time : float
}.

(** Lines 257-268: the locals of a call at simulation time [now]. *)
Definition ck_frame (now : float) (req : NetstackCreateRequest) (request : ReqCreateBase) : CkFrame :=
  {| ck_req := req;
     ck_request := {| req_type := req_type request;
                      remote_node_id := remote_node_id request;
                      number := 1 |};
     ck_num_pairs := number request;
     ck_start_time := now |}.

(** Lines 272-297: one turn of [while True]: try to allocate; on
    [AllocError] wait for SIGNAL_MEMORY_FREED, otherwise put the request
    to the EGP and wait for its result.  The [AllocError] that the
    handler catches is imported from [squidasm.qoala.sim.qdevice]; it is
    taken to be the exception that [allocate_comm] raises. *)
Definition ck_try_allocate (fr : CkFrame) (pair_index : nat) (w : World) : World * CkPc :=
  match allocate_comm (physical_memory w) with
  | Ok (phys_id, pm) =>
      (act (EgpPut (create_remote_node_id (ck_req fr)) (ReqCreate (ck_request fr)))
         (set_physical_memory pm w),
       CkAwaitEgp pair_index phys_id)
  | Raise AllocError => (w, CkAwaitMemoryFreed pair_index)
  | Raise e => (w, CkRaised e)
  end.

(** Line 270: [for pair_index in range(num_pairs)]. *)
Definition ck_for (fr : CkFrame) (pair_index : nat) (w : World) : World * CkPc :=
  if pair_index <? ck_num_pairs fr
  then ck_try_allocate fr pair_index w
  else (w, CkReturned).

(** Lines 321-353: map the qubit, write the slice, notify the processor;
    then the next turn of the [for]. *)
Definition ck_deliver (fr : CkFrame) (now : float) (pair_index phys_id : nat)
  (result : ResCreateAndKeep) (w : World) : World * CkPc :=
  let req := ck_req fr in
  let virt_id := get_array_value (pid req) (qubit_array_addr req) pair_index w in
  let w := act (MapVirtId (pid req) virt_id phys_id) w in
  match gen_duration_us_int now (ck_start_time fr) with
  | Raise e => (w, CkRaised e)
  | Ok gen_duration =>
      let w := write_keep_slice (pid req) (result_array_addr req) pair_index
                 gen_duration (BellIndex_value K (bell_state result)) w in
      let w := send_processor_msg (Text "wrote to array") w in
      ck_for fr (S pair_index) w
  end.

Definition rot (i : Instruction) : Apply :=
  {| instruction := i; qubit_indices := [0]; angle := PI |}.

(** [handle_create_ck_request], resumed at time [now] by [sig]; a signal
    that the handler does not await leaves it suspended. *)
Definition create_ck_resume (fr : CkFrame) (now : float) (sig : Signal) (pc : CkPc) (w : World)
  : World * CkPc :=
  match pc, sig with
  | CkAwaitMemoryFreed pair_index, SIGNAL_MEMORY_FREED =>
      ck_try_allocate fr pair_index w
  | CkAwaitEgp pair_index phys_id, SigResCreateAndKeep result =>
      (* lines 304-319 *)
      match bell_state result with
      | B00 => ck_deliver fr now pair_index phys_id result w
      | B01 =>
          (act (ExecuteProgram [rot INSTR_ROT_X]) w,
           CkAwaitProgram pair_index phys_id result)
      | B10 =>
          (act (ExecuteProgram [rot INSTR_ROT_Z]) w,
           CkAwaitProgram pair_index phys_id result)
      | B11 =>
          (act (ExecuteProgram [rot INSTR_ROT_X; rot INSTR_ROT_Z]) w,
           CkAwaitProgram pair_index phys_id result)
      end
  | CkAwaitProgram pair_index phys_id result, SigProgramDone =>
      ck_deliver fr now pair_index phys_id result w
  | _, _ => (w, pc)
  end.

(** [handle_create_ck_request], from the call (at time [now]) to its
    first suspension. *)
Definition handle_create_ck_request (now : float) (req : NetstackCreateRequest)
  (request : ReqCreateBase) (w : World) : World * CkPc :=
  ck_for (ck_frame now req request) 0 w.

(** Where [handle_receive_ck_request] is suspended. *)
Inductive RckPc : Set :=
  | RckAwaitMemoryFreed (pair_index : nat)              (* line 513 *)
  | RckAwaitEgp (pair_index phys_id : nat)              (* line 528 *)
  | RckReturned
  | RckRaised (e : Exn).

Record RckFrame : Set := {
  rck_req : NetstackReceiveRequest;
  rck_num_pairs : nat;
  rck_start_time : float
}.

Definition rck_frame (now : float) (req : NetstackReceiveRequest) (request : ReqCreateBase) : RckFrame :=
  {| rck_req := req; rck_num_pairs := number request; rck_start_time := now |}.

(** Lines 504-531. *)
Definition rck_try_allocate (fr : RckFrame) (pair_index : nat) (w : World) : World * RckPc :=
  match allocate_comm (physical_memory w) with
  | Ok (phys_id, pm) =>
      (act (EgpPut (recv_remote_node_id (rck_req fr))
              (ReqReceive (recv_remote_node_id (rck_req fr))))
         (set_physical_memory pm w),
       RckAwaitEgp pair_index phys_id)
  | Raise AllocError => (w, RckAwaitMemoryFreed pair_index)
  | Raise e => (w, RckRaised e)
  end.

(** Line 502. *)
Definition rck_for (fr : RckFrame) (pair_index : nat) (w : World) : World * RckPc :=
  if pair_index <? rck_num_pairs fr
  then rck_try_allocate fr pair_index w
  else (w, RckReturned).

(** Lines 538-571. *)
Definition rck_deliver (fr : RckFrame) (now : float) (pair_index phys_id : nat)
  (result : ResCreateAndKeep) (w : World) : World * RckPc :=
  let req := rck_req fr in
  let virt_id := get_array_value (recv_pid req) (recv_qubit_array_addr req) pair_index w in
  let w := act (MapVirtId (recv_pid req) virt_id phys_id) w in
  match gen_duration_us_int now (rck_start_time fr) with
  | Raise e => (w, RckRaised e)
  | Ok gen_duration =>
      let w := write_keep_slice (recv_pid req) (recv_result_array_addr req) pair_index
                 gen_duration (BellIndex_value K (bell_state result)) w in
      let w := send_processor_msg (Text "wrote to array") w in
      rck_for fr (S pair_index) w
  end.

(** [handle_receive_ck_request], resumed at time [now] by [sig]. *)
Definition receive_ck_resume (fr : RckFrame) (now : float) (sig : Signal) (pc : RckPc) (w : World)
  : World * RckPc :=
  match pc, sig with
  | RckAwaitMemoryFreed pair_index, SIGNAL_MEMORY_FREED =>
      rck_try_allocate fr pair_index w
  | RckAwaitEgp pair_index phys_id, SigResCreateAndKeep result =>
      rck_deliver fr now pair_index phys_id result w
  | _, _ => (w, pc)
  end.

(** [handle_receive_ck_request], from the call to its first suspension;
    line 493: [assert isinstance(request, ReqCreateAndKeep)]. *)
Definition handle_receive_ck_request (now : float) (req : NetstackReceiveRequest)
  (request : ReqCreateBase) (w : World) : World * RckPc :=
  match req_type request with
  | CreateAndKeep => rck_for (rck_frame now req request) 0 w
  | _ => (w, RckRaised AssertionError)
  end.

(** *** Measure directly *)

(** Lines 415-425 (and 631-641): the value written at position [i] of a
    measure slice; an [if]/[elif] chain, whose last test uses the keep
    offset of the Bell state. *)
Definition measure_slice_value (result : ResMeasureDirectly) (i : nat) : Z :=
  if i =? SER_RESPONSE_MEASURE_IDX_MEASUREMENT_OUTCOME K then measurement_outcome result
  else if i =? SER_RESPONSE_MEASURE_IDX_MEASUREMENT_BASIS K then measurement_basis result
  else if i =? SER_RESPONSE_KEEP_IDX_BELL_STATE K then BellIndex_value K (md_bell_state result)
  else (-1)%Z.

Definition write_measure_slice (pid addr pair_index : nat) (result : ResMeasureDirectly)
  (w : World) : World :=
  foldl
    (λ w i, set_array_value pid addr (SER_RESPONSE_MEASURE_LEN K * pair_index + i)
              (measure_slice_value result i) w)
    w (seq 0 (SER_RESPONSE_MEASURE_LEN K)).

(** Where the two measure-directly handlers are suspended: in turn
    [iter] of the first [for], holding [phys_id], with the [results]
    gathered so far (lines 395 and 611). *)
Inductive MdPc : Set :=
  | MdAwaitEgp (iter phys_id : nat) (results : list ResMeasureDirectly)
  | MdReturned
  | MdRaised (e : Exn).

(** Lines 412-430 of [handle_create_md_request]: the loop over
    [pair_index] that populates the array; [results[pair_index]] raises
    [IndexError] out of range. *)
Fixpoint create_md_write (pid addr : nat) (pair_indices : list nat)
  (results : list ResMeasureDirectly) (w : World) : World * option Exn :=
  match pair_indices with
  | [] => (w, None)
  | pair_index :: rest =>
      match results !! pair_index with
      | None => (w, Some IndexError)
      | Some result =>
          create_md_write pid addr rest results
            (write_measure_slice pid addr pair_index result w)
      end
  end.

(** Lines 392-432: turn [iter] of the first [for]; after its last turn,
    the array is populated and the processor is sent one message
    (line 432 is outside both loops). *)
Definition create_md_for (req : NetstackCreateRequest) (request : ReqCreateBase)
  (iter : nat) (results : list ResMeasureDirectly) (w : World) : World * MdPc :=
  if iter <? number request
  then
    match allocate_comm (physical_memory w) with
    | Ok (phys_id, pm) => (set_physical_memory pm w, MdAwaitEgp iter phys_id results)
    | Raise e => (w, MdRaised e)
    end
  else
    match create_md_write (pid req) (result_array_addr req)
            (seq 0 (number request)) results w with
    | (w, None) => (send_processor_msg (Text "wrote to array") w, MdReturned)
    | (w, Some e) => (w, MdRaised e)
    end.

(** Lines 399-404, then the next turn. *)
Definition create_md_resume (req : NetstackCreateRequest) (request : ReqCreateBase)
  (sig : Signal) (pc : MdPc) (w : World) : World * MdPc :=
  match pc, sig with
  | MdAwaitEgp iter phys_id results, SigResMeasureDirectly result =>
      let results := results ++ [result] in
      match free phys_id (physical_memory w) with
      | Ok pm => create_md_for req request (S iter) results (set_physical_memory pm w)
      | Raise e => (w, MdRaised e)
      end
  | _, _ => (w, pc)
  end.

(** [handle_create_md_request], from the call to its first suspension. *)
Definition handle_create_md_request (req : NetstackCreateRequest) (request : ReqCreateBase)
  (w : World) : World * MdPc :=
  create_md_for req request 0 []
    (act (EgpPut (create_remote_node_id req) (ReqCreate request)) w).

(** Modelled from the spec: [QDevice.allocate_comm]
    ([squidasm.qoala.sim.qdevice] is not among the sources), which
    [handle_receive_md_request] calls at line 609: the comm-qubit slot is
    acquired from the allocator. *)
Definition qdevice_allocate_comm (w : World) : Res (nat * PhysicalQuantumMemory) :=
  allocate_comm (physical_memory w).

(** Lines 628-648 of [handle_receive_md_request]: as above, but the
    processor is sent a message in every turn (line 648 is inside the
    loop over [pair_index]). *)
Fixpoint receive_md_write (pid addr : nat) (pair_indices : list nat)
  (results : list ResMeasureDirectly) (w : World) : World * option Exn :=
  match pair_indices with
  | [] => (w, None)
  | pair_index :: rest =>
      match results !! pair_index with
      | None => (w, Some IndexError)
      | Some result =>
          receive_md_write pid addr rest results
            (send_processor_msg (Text "wrote to array")
               (write_measure_slice pid addr pair_index result w))
      end
  end.

(** Lines 608-648. *)
Definition receive_md_for (req : NetstackReceiveRequest) (request : ReqCreateBase)
  (iter : nat) (results : list ResMeasureDirectly) (w : World) : World * MdPc :=
  if iter <? number request
  then
    match qdevice_allocate_comm w with
    | Ok (phys_id, pm) => (set_physical_memory pm w, MdAwaitEgp iter phys_id results)
    | Raise e => (w, MdRaised e)
    end
  else
    match receive_md_write (recv_pid req) (recv_result_array_addr req)
            (seq 0 (number request)) results w with
    | (w, None) => (w, MdReturned)
    | (w, Some e) => (w, MdRaised e)
    end.

(** Lines 615-620, then the next turn. *)
Definition receive_md_resume (req : NetstackReceiveRequest) (request : ReqCreateBase)
  (sig : Signal) (pc : MdPc) (w : World) : World * MdPc :=
  match pc, sig with
  | MdAwaitEgp iter phys_id results, SigResMeasureDirectly result =>
      let results := results ++ [result] in
      match free phys_id (physical_memory w) with
      | Ok pm => receive_md_for req request (S iter) results (set_physical_memory pm w)
      | Raise e => (w, MdRaised e)
      end
  | _, _ => (w, pc)
  end.

(** [handle_receive_md_request], from the call to its first suspension;
    line 600: [assert isinstance(request, ReqMeasureDirectly)]. *)
Definition handle_receive_md_request (req : NetstackReceiveRequest) (request : ReqCreateBase)
  (w : World) : World * MdPc :=
  match req_type request with
  | MeasureDirectly =>
      receive_md_for req request 0 []
        (act (EgpPut (recv_remote_node_id req) (ReqReceive (recv_remote_node_id req))) w)
  | _ => (w, MdRaised AssertionError)
  end.

End Handlers.

(** *** Breakpoints *)

(** Where a breakpoint handler is suspended: inside one of its three
    calls of [_receive_peer_msg] / [_receive_processor_msg]. *)
Inductive BpPc : Set :=
  | BpAwaitPeerStart       (* lines 696 and 724 *)
  | BpAwaitProcessorEnd    (* lines 703 and 732 *)
  | BpAwaitPeerEnd         (* lines 710 and 736 *)
  | BpReturned
  | BpRaised (e : Exn).

(** [x = yield from self._receive_peer_msg(peer)] followed by the code
    [k]: [r] is what the call, or its resumption, does on the buffer. *)
Definition got_peer_msg (r : Listener.Receive Content) (suspended : BpPc)
  (k : Content → World → World * BpPc) (w : World) : World * BpPc :=
  match r with
  | Listener.Returns m rest => k m (act (GotPeerMsg m) (set_peer_buffer rest w))
  | Listener.Suspends => (w, suspended)
  | Listener.Raises e => (w, BpRaised e)
  end.

(** The same for [_receive_processor_msg]. *)
Definition got_processor_msg (r : Listener.Receive Content) (suspended : BpPc)
  (k : Content → World → World * BpPc) (w : World) : World * BpPc :=
  match r with
  | Listener.Returns m rest => k m (act (GotProcessorMsg m) (set_processor_buffer rest w))
  | Listener.Suspends => (w, suspended)
  | Listener.Raises e => (w, BpRaised e)
  end.

(** [assert msg.content == expected], then [k]. *)
Definition assert_content (content : Content) (expected : string)
  (k : World → World * BpPc) (w : World) : World * BpPc :=
  if decide (content = Text expected) then k w else (w, BpRaised AssertionError).

(** [handle_breakpoint_create_request], last lines first. *)

(** Lines 711-714. *)
Definition bpc_after_peer_end (response : Content) : World → World * BpPc :=
  assert_content response "breakpoint end"
    (λ w, (send_processor_msg (Text "breakpoint finished") w, BpReturned)).

(** Lines 704-710. *)
Definition bpc_after_processor_end (processor_msg : Content) : World → World * BpPc :=
  assert_content processor_msg "breakpoint end"
    (λ w, let w := send_peer_msg (Text "breakpoint end") w in
          got_peer_msg (Listener.receive_msg (peer_buffer w)) BpAwaitPeerEnd
            bpc_after_peer_end w).

(** Lines 697-703. *)
Definition bpc_after_peer_start (response : Content) : World → World * BpPc :=
  assert_content response "breakpoint start"
    (λ w, let w := send_processor_msg (Text "breakpoint ready") w in
          got_processor_msg (Listener.receive_msg (processor_buffer w)) BpAwaitProcessorEnd
            bpc_after_processor_end w).

(** Lines 695-696: from the call to the first suspension. *)
Definition handle_breakpoint_create_request (w : World) : World * BpPc :=
  let w := send_peer_msg (Text "breakpoint start") w in
  got_peer_msg (Listener.receive_msg (peer_buffer w)) BpAwaitPeerStart
    bpc_after_peer_start w.

(** The creator side, resumed by [sig]. *)
Definition breakpoint_create_resume (sig : Signal) (pc : BpPc) (w : World) : World * BpPc :=
  match pc, sig with
  | BpAwaitPeerStart, SIGNAL_PEER_NSTK_MSG =>
      got_peer_msg (Listener.receive_msg_resume (peer_buffer w)) pc bpc_after_peer_start w
  | BpAwaitProcessorEnd, SIGNAL_PROC_NSTK_MSG =>
      got_processor_msg (Listener.receive_msg_resume (processor_buffer w)) pc
        bpc_after_processor_end w
  | BpAwaitPeerEnd, SIGNAL_PEER_NSTK_MSG =>
      got_peer_msg (Listener.receive_msg_resume (peer_buffer w)) pc bpc_after_peer_end w
  | _, _ => (w, pc)
  end.

(** [handle_breakpoint_receive_request], last lines first. *)

(** Lines 737-741. *)
Definition bpr_after_peer_end (peer_msg : Content) : World → World * BpPc :=
  assert_content peer_msg "breakpoint end"
    (λ w, let w := send_peer_msg (Text "breakpoint end") w in
          (send_processor_msg (Text "breakpoint finished") w, BpReturned)).

(** Lines 733-736. *)
Definition bpr_after_processor_end (processor_msg : Content) : World → World * BpPc :=
  assert_content processor_msg "breakpoint end"
    (λ w, got_peer_msg (Listener.receive_msg (peer_buffer w)) BpAwaitPeerEnd
            bpr_after_peer_end w).

(** Lines 725-732. *)
Definition bpr_after_peer_start (msg : Content) : World → World * BpPc :=
  assert_content msg "breakpoint start"
    (λ w, let w := send_peer_msg (Text "breakpoint start") w in
          let w := send_processor_msg (Text "breakpoint ready") w in
          got_processor_msg (Listener.receive_msg (processor_buffer w)) BpAwaitProcessorEnd
            bpr_after_processor_end w).

(** Line 724: from the call to the first suspension. *)
Definition handle_breakpoint_receive_request (w : World) : World * BpPc :=
  got_peer_msg (Listener.receive_msg (peer_buffer w)) BpAwaitPeerStart
    bpr_after_peer_start w.

(** The receiver side, resumed by [sig]. *)
Definition breakpoint_receive_resume (sig : Signal) (pc : BpPc) (w : World) : World * BpPc :=
  match pc, sig with
  | BpAwaitPeerStart, SIGNAL_PEER_NSTK_MSG =>
      got_peer_msg (Listener.receive_msg_resume (peer_buffer w)) pc bpr_after_peer_start w
  | BpAwaitProcessorEnd, SIGNAL_PROC_NSTK_MSG =>
      got_processor_msg (Listener.receive_msg_resume (processor_buffer w)) pc
        bpr_after_processor_end w
  | BpAwaitPeerEnd, SIGNAL_PEER_NSTK_MSG =>
      got_peer_msg (Listener.receive_msg_resume (peer_buffer w)) pc bpr_after_peer_end w
  | _, _ => (w, pc)
  end.

(** *** The rest of the simulation *)

(** What happens around a suspended handler: the processor frees a
    qubit, a listener appends messages to its buffer, or a signal fires
    at simulation time [now]. *)
Inductive Stimulus : Set :=
  | ProcessorFrees (id : nat)
  | PeerArrival (msgs : list Content)
  | ProcessorArrival (msgs : list Content)
  | Fire (now : float) (sig : Signal).

Definition env_step (s : Stimulus) (w : World) : World :=
  match s with
  | ProcessorFrees id =>
      match free id (physical_memory w) with
      | Ok pm => set_physical_memory pm w
      | Raise _ => w
      end
  | PeerArrival msgs => set_peer_buffer (peer_buffer w ++ msgs) w
  | ProcessorArrival msgs => set_processor_buffer (processor_buffer w ++ msgs) w
  | Fire _ _ => w
  end.

(** A suspended handler under a sequence of stimuli. *)
Definition step {Pc : Type} (resume : float → Signal → Pc → World → World * Pc)
  (st : World * Pc) (s : Stimulus) : World * Pc :=
  match s with
  | Fire now sig => resume now sig (snd st) (fst st)
  | _ => (env_step s (fst st), snd st)
  end.

Definition run {Pc : Type} (resume : float → Signal → Pc → World → World * Pc)
  (stimuli : list Stimulus) (st : World * Pc) : World * Pc :=
  foldl (step resume) st stimuli.

(** Projections of the log. *)
Definition programs (l : list Action) : list QuantumProgram :=
  omap (λ a, match a with ExecuteProgram p => Some p | _ => None end) l.

Definition array_writes (l : list Action) : list (nat * nat * nat * Z) :=
  omap (λ a, match a with
             | SetArrayValue pid addr index value => Some (pid, addr, index, value)
             | _ => None
             end) l.

Definition processor_msgs (l : list Action) : list Content :=
  omap (λ a, match a with SendProcessorMsg c => Some c | _ => None end) l.

Definition receipts (l : list Action) : list Action :=
  omap (λ a, match a with GotPeerMsg _ | GotProcessorMsg _ => Some a | _ => None end) l.

(** The actions of a complete rendezvous, creator side and receiver
    side, as the two handlers list them. *)
Definition creator_script : list Action :=
  [ SendPeerMsg (Text "breakpoint start"); GotPeerMsg (Text "breakpoint start");
    SendProcessorMsg (Text "breakpoint ready"); GotProcessorMsg (Text "breakpoint end");
    SendPeerMsg (Text "breakpoint end"); GotPeerMsg (Text "breakpoint end");
    SendProcessorMsg (Text "breakpoint finished") ].

Definition receiver_script : list Action :=
  [ GotPeerMsg (Text "breakpoint start"); SendPeerMsg (Text "breakpoint start");
    SendProcessorMsg (Text "breakpoint ready"); GotProcessorMsg (Text "breakpoint end");
    GotPeerMsg (Text "breakpoint end"); SendPeerMsg (Text "breakpoint end");
    SendProcessorMsg (Text "breakpoint finished") ].

(** The messages a rendezvous expects, in the order it waits for them. *)
Definition expected_receipts : list Action :=
  [ GotPeerMsg (Text "breakpoint start"); GotProcessorMsg (Text "breakpoint end");
    GotPeerMsg (Text "breakpoint end") ].

(** What a breakpoint handler has done when it is at [pc]: [n1], [n2]
    and [n3] are the numbers of actions of its [script] done before its
    first, second and third wait.  An [AssertionError] follows the
    receipt of a message that the script does not have at that place; any
    other exception is raised at a wait, before anything is received. *)
Definition bp_progress (script : list Action) (n1 n2 n3 : nat) (pc : BpPc)
  (done : list Action) : Prop :=
  match pc with
  | BpAwaitPeerStart => done = take n1 script
  | BpAwaitProcessorEnd => done = take n2 script
  | BpAwaitPeerEnd => done = take n3 script
  | BpReturned => done = script
  | BpRaised AssertionError =>
      ∃ n a, (n = n1 ∨ n = n2 ∨ n = n3) ∧ done = take n script ++ [a] ∧
             receipts [a] = [a] ∧ script !! n ≠ Some a
  | BpRaised _ => ∃ n, (n = n1 ∨ n = n2 ∨ n = n3) ∧ done = take n script
  end.

(** Values for examples: a layout of ten fields per slice, with the
    goodness at 7 and the Bell state at 9 of a keep slice, the outcome at
    2 and the basis at 3 of a measure slice; Bell indices numbered in the
    order of the enumeration. *)
Definition example_imports : Imports :=
  {| SER_RESPONSE_KEEP_LEN := 10;
     SER_RESPONSE_KEEP_IDX_GOODNESS := 7;
     SER_RESPONSE_KEEP_IDX_BELL_STATE := 9;
     SER_RESPONSE_MEASURE_LEN := 10;
     SER_RESPONSE_MEASURE_IDX_MEASUREMENT_OUTCOME := 2;
     SER_RESPONSE_MEASURE_IDX_MEASUREMENT_BASIS := 3;
     BellIndex_value := λ b, match b with B00 => 0 | B01 => 1 | B10 => 2 | B11 => 3 end%Z |}.

(** A create request of process 0 towards node 1: qubit ids in array 0,
    arguments in array 1, results in array 2; and the matching receive
    request. *)
Definition example_create : NetstackCreateRequest :=
  {| pid := 0; create_remote_node_id := 1; epr_socket_id := 0;
     qubit_array_addr := 0; arg_array_addr := 1; result_array_addr := 2 |}.

Definition example_receive : NetstackReceiveRequest :=
  {| recv_pid := 0; recv_remote_node_id := 1; recv_epr_socket_id := 0;
     recv_qubit_array_addr := 0; recv_result_array_addr := 2 |}.

Definition example_request (typ : ReqType) (n : nat) : ReqCreateBase :=
  {| req_type := typ; remote_node_id := 1; number := n |}.

(** A node whose pool is [pm], with empty memory, buffers and log. *)
Definition example_world (pm : PhysicalQuantumMemory) : World :=
  {| physical_memory := pm; shared_mem := ∅;
     peer_buffer := []; processor_buffer := []; log := [] |}.

(** A pool of one qubit, which is allocated. *)
Definition full_pool : PhysicalQuantumMemory :=
  run_calls (PhysicalQuantumMemory_init 1) [CallAllocateComm].

End Netstack.

(** ** common.py : the rest of PhysicalQuantumMemory *)

Module MemoryMore.

Import Memory.

(** [comm_qubit_count]: [len(self._comm_qubit_ids)] *)
Definition comm_qubit_count (m : PhysicalQuantumMemory) : nat := size (comm_qubit_ids m).

(** What the caller of each call of a sequence sees, in order. *)
Fixpoint run_trace (m : PhysicalQuantumMemory) (calls : list Call) : list (Res (option nat)) :=
  match calls with
  | [] => []
  | c :: calls => snd (exec_call m c) :: run_trace (fst (exec_call m c)) calls
  end.

(** Exceptions beyond those of [Exn]. *)
Inductive PyExn : Set :=
  | Builtin (e : Exn)
  | AttributeError.

Inductive PyRes (A : Type) : Type :=
  | Fine (a : A)
  | Fails (e : PyExn).
Arguments Fine {A} a.
Arguments Fails {A} e.

(** [clear] assigns [{}] to [_allocated_ids]: in Python that is an empty
    dict, not a set.  A dict answers [in], but has no [add] and no
    [remove].  So the attribute holds either a set or that dict. *)
Inductive AllocatedIds : Type :=
  | IdSet (ids : gset nat)
  | EmptyDict.

Record Pool : Type := {
  pool_qubit_count : nat;
  pool_allocated_ids : AllocatedIds;
  pool_comm_qubit_ids : gset nat
}.

(** A pool on which [clear] was never called. *)
Definition of_memory (m : PhysicalQuantumMemory) : Pool :=
  {| pool_qubit_count := qubit_count m;
     pool_allocated_ids := IdSet (allocated_ids m);
     pool_comm_qubit_ids := comm_qubit_ids m |}.

(** [clear]: [self._allocated_ids = {}] *)
Definition clear (p : Pool) : Pool :=
  {| pool_qubit_count := pool_qubit_count p;
     pool_allocated_ids := EmptyDict;
     pool_comm_qubit_ids := pool_comm_qubit_ids p |}.

(** [i in self._allocated_ids] *)
Definition holds (a : AllocatedIds) (i : nat) : bool :=
  match a with
  | IdSet ids => bool_decide (i ∈ ids)
  | EmptyDict => false
  end.

(** [self._allocated_ids.add(i)] *)
Definition ids_add (i : nat) (a : AllocatedIds) : PyRes AllocatedIds :=
  match a with
  | IdSet ids => Fine (IdSet ({[ i ]} ∪ ids))
  | EmptyDict => Fails AttributeError
  end.

(** [self._allocated_ids.remove(id)] *)
Definition ids_remove (id : nat) (a : AllocatedIds) : PyRes AllocatedIds :=
  match a with
  | IdSet ids =>
      if bool_decide (id ∈ ids) then Fine (IdSet (ids ∖ {[ id ]}))
      else Fails (Builtin KeyError)
  | EmptyDict => Fails AttributeError
  end.

Definition with_ids (a : AllocatedIds) (p : Pool) : Pool :=
  {| pool_qubit_count := pool_qubit_count p;
     pool_allocated_ids := a;
     pool_comm_qubit_ids := pool_comm_qubit_ids p |}.

(** The loop of the three allocation methods, on such a pool. *)
Definition pool_alloc_with (cond : nat → bool) (p : Pool) : PyRes (nat * Pool) :=
  match first_fit cond (seq 0 (pool_qubit_count p)) with
  | Some i =>
      match ids_add i (pool_allocated_ids p) with
      | Fine a => Fine (i, with_ids a p)
      | Fails e => Fails e
      end
  | None => Fails (Builtin AllocError)
  end.

Definition pool_allocate (p : Pool) : PyRes (nat * Pool) :=
  pool_alloc_with (λ i, negb (holds (pool_allocated_ids p) i)) p.

Definition pool_allocate_comm (p : Pool) : PyRes (nat * Pool) :=
  pool_alloc_with
    (λ i, negb (holds (pool_allocated_ids p) i) && bool_decide (i ∈ pool_comm_qubit_ids p)) p.

Definition pool_allocate_mem (p : Pool) : PyRes (nat * Pool) :=
  pool_alloc_with
    (λ i, negb (holds (pool_allocated_ids p) i) && negb (bool_decide (i ∈ pool_comm_qubit_ids p))) p.

Definition pool_free (id : nat) (p : Pool) : PyRes Pool :=
  match ids_remove id (pool_allocated_ids p) with
  | Fine a => Fine (with_ids a p)
  | Fails e => Fails e
  end.

Definition pool_is_allocated (id : nat) (p : Pool) : bool :=
  holds (pool_allocated_ids p) id.

(** A result of [Memory] read as a result on pools. *)
Definition lift_alloc (r : Res (nat * PhysicalQuantumMemory)) : PyRes (nat * Pool) :=
  match r with
  | Ok (i, m) => Fine (i, of_memory m)
  | Raise e => Fails (Builtin e)
  end.

Definition lift_free (r : Res PhysicalQuantumMemory) : PyRes Pool :=
  match r with
  | Ok m => Fine (of_memory m)
  | Raise e => Fails (Builtin e)
  end.

End MemoryMore.

(** ** common.py : a listener under arbitrary arrivals *)

Module ListenerMore.

Import Listener.

Section Items.

Context {Item : Type}.

(** A port and its listener in the simulation: every input that arrives
    schedules one port event; [pending_events] counts the events not yet
    delivered to the listener.  [sim_arrived] and [notified] only record
    what happened: the items that arrived so far, and the length of the
    buffer when the listener last sent its signal. *)
Record PortSim : Type := {
  sim_listener : PortListener Item;
  pending_events : nat;
  sim_arrived : list Item;
  notified : nat
}.

Definition PortSim_init : PortSim :=
  {| sim_listener := PortListener_init; pending_events := 0;
     sim_arrived := []; notified := 0 |}.

Inductive PortOp : Type :=
  | InputArrives (items : list Item)   (* an input reaches the port *)
  | EventFires.                        (* the engine delivers the oldest pending event *)

Definition port_step (s : PortSim) (op : PortOp) : PortSim :=
  match op with
  | InputArrives items =>
      {| sim_listener := port_arrival [items] (sim_listener s);
         pending_events := S (pending_events s);
         sim_arrived := sim_arrived s ++ items;
         notified := notified s |}
  | EventFires =>
      match pending_events s with
      | 0 => s
      | S n =>
          let l' := listener_resume (sim_listener s) in
          {| sim_listener := l';
             pending_events := n;
             sim_arrived := sim_arrived s;
             notified := if signals_sent (sim_listener s) <? signals_sent l'
                         then length (buffer l') else notified s |}
      end
  end.

Definition run_port (ops : list PortOp) : PortSim := foldl port_step PortSim_init ops.

(** The inputs among the operations. *)
Definition inputs_of (ops : list PortOp) : list (list Item) :=
  omap (λ op, match op with InputArrives items => Some items | EventFires => None end) ops.

(** The events that the listener still has to flush at [pc]. *)
Definition to_flush (pc : ListenerPc) : nat :=
  match pc with
  | AtAwaitInput => 0
  | AtFlush counter => counter - 1
  end.

End Items.

Arguments PortSim : clear implicits.
Arguments PortOp : clear implicits.

End ListenerMore.

(** ** netstack.py : sockets, the handshake, whole requests *)

Module NetstackMore.

Import Memory MemoryMore Netstack.

(** [EprSocket(socket_id, remote_id)]: the two attributes that
    [find_epr_socket] reads ([squidasm.qoala.sim.eprsocket] is not among
    the sources). *)
Record EprSocket : Set := {
  socket_id : nat;
  remote_id : nat
}.

(** [open_epr_socket]: [self._epr_sockets] maps a pid to the list of its
    sockets, in the order they were opened. *)
Definition open_epr_socket (pid socket_id remote_node_id : nat)
  (sockets : gmap nat (list EprSocket)) : gmap nat (list EprSocket) :=
  let sockets :=
    if bool_decide (pid ∈ dom sockets) then sockets else <[ pid := [] ]> sockets in
  alter (λ l, l ++ [ {| socket_id := socket_id; remote_id := remote_node_id |} ]) pid sockets.

(** Lines 225-228: the first socket of the list with both ids. *)
Fixpoint find_in (sck_id rem_id : nat) (l : list EprSocket) : option EprSocket :=
  match l with
  | [] => None
  | sck :: l =>
      if (socket_id sck =? sck_id) && (remote_id sck =? rem_id)
      then Some sck else find_in sck_id rem_id l
  end.

(** [find_epr_socket] *)
Definition find_epr_socket (pid sck_id rem_id : nat)
  (sockets : gmap nat (list EprSocket)) : option EprSocket :=
  match sockets !! pid with
  | None => None
  | Some l => find_in sck_id rem_id l
  end.

(** The registry after a sequence of [open_epr_socket (pid, socket_id,
    remote_node_id)], starting with no socket: [__init__] does not set
    [_epr_sockets] in this file, and it is taken to be an empty dict
    when the first socket is opened. *)
Definition open_all (opens : list (nat * nat * nat)) : gmap nat (list EprSocket) :=
  foldl (λ sockets '(pid, socket_id, remote_node_id),
           open_epr_socket pid socket_id remote_node_id sockets) ∅ opens.

(** The sockets that process [pid] opened among [opens], in order. *)
Definition opened_by (pid : nat) (opens : list (nat * nat * nat)) : list EprSocket :=
  omap (λ '(p, s, r), if p =? pid then Some {| socket_id := s; remote_id := r |} else None)
       opens.

(** Lines 693 and 722: [self._epr_sockets[0][0].remote_id], the peer of
    a breakpoint. *)
Definition breakpoint_remote_id (sockets : gmap nat (list EprSocket)) : Res nat :=
  match sockets !! 0 with
  | None => Raise KeyError
  | Some [] => Raise IndexError
  | Some (sck :: _) => Ok (remote_id sck)
  end.

(** The two breakpoint handlers from their first line: the peer is
    looked up before anything is sent. *)
Definition breakpoint_create_call (sockets : gmap nat (list EprSocket)) (w : World)
  : World * BpPc :=
  match breakpoint_remote_id sockets with
  | Ok _ => handle_breakpoint_create_request w
  | Raise e => (w, BpRaised e)
  end.

Definition breakpoint_receive_call (sockets : gmap nat (list EprSocket)) (w : World)
  : World * BpPc :=
  match breakpoint_remote_id sockets with
  | Ok _ => handle_breakpoint_receive_request w
  | Raise e => (w, BpRaised e)
  end.

(** The two offsets of the arguments array that [_construct_request]
    reads (from [netqasm.sdk.build_epr]). *)
Record CreateImports : Set := {
  SER_CREATE_IDX_TYPE : nat;
  SER_CREATE_IDX_NUMBER : nat
}.

(** What [_construct_request] builds: the class of the request and the
    two fields it sets from its arguments.  [made_number] is whatever
    integer the array holds. *)
Record MadeRequest : Set := {
  made_type : ReqType;
  made_remote_node_id : nat;
  made_number : Z
}.

(** [_construct_request]: [args] are the elements of the arguments
    array, [None] for an element that was never set. *)
Definition construct_request (CI : CreateImports) (remote_id : nat) (args : list (option Z))
  : PyRes MadeRequest :=
  match args !! SER_CREATE_IDX_TYPE CI with
  | None => Fails (Builtin IndexError)
  | Some None => Fails (Builtin AssertionError)
  | Some (Some typ) =>
      match args !! SER_CREATE_IDX_NUMBER CI with
      | None => Fails (Builtin IndexError)
      | Some None => Fails (Builtin AssertionError)
      | Some (Some num_pairs) =>
          let made t := Fine {| made_type := t; made_remote_node_id := remote_id;
                                made_number := num_pairs |} in
          if (typ =? 0)%Z then made CreateAndKeep
          else if (typ =? 1)%Z then made MeasureDirectly
          else if (typ =? 2)%Z then made RemoteStatePrep
          else Fails (Builtin ValueError)
      end
  end.

(** The request as the handlers use it.  They read [number] as the
    bound of [range], for which a negative number is no turn at all; the
    number itself is kept only when it is not negative, which is what
    the statements about a request built from an arguments array
    require of the array. *)
Definition as_base (r : MadeRequest) : ReqCreateBase :=
  {| req_type := made_type r;
     remote_node_id := made_remote_node_id r;
     number := Z.to_nat (made_number r) |}.

(** Where [handle_create_request] is suspended: in its own
    [_receive_peer_msg] (line 457), or inside the handler it delegates to
    ([yield from], lines 462 and 464). *)
Inductive CreatePc : Set :=
  | HcAwaitPeer (request : MadeRequest)
  | HcCreateCk (fr : CkFrame) (pc : CkPc)
  | HcCreateMd (request : ReqCreateBase) (pc : MdPc)
  | HcReturned
  | HcRaised (e : PyExn).

Definition wrap_create_ck (fr : CkFrame) (st : World * CkPc) : World * CreatePc :=
  match snd st with
  | CkReturned => (fst st, HcReturned)
  | CkRaised e => (fst st, HcRaised (Builtin e))
  | pc => (fst st, HcCreateCk fr pc)
  end.

Definition wrap_create_md (request : ReqCreateBase) (st : World * MdPc) : World * CreatePc :=
  match snd st with
  | MdReturned => (fst st, HcReturned)
  | MdRaised e => (fst st, HcRaised (Builtin e))
  | pc => (fst st, HcCreateMd request pc)
  end.

Section Handshake.

Variable K : Imports.
Variable CI : CreateImports.

(** Lines 461-464: [isinstance] on the class of the request; a
    [ReqRemoteStatePrep] is neither, and the handler returns. *)
Definition create_dispatch (now : float) (req : NetstackCreateRequest) (request : MadeRequest)
  (w : World) : World * CreatePc :=
  match made_type request with
  | CreateAndKeep =>
      wrap_create_ck (ck_frame now req (as_base request))
        (handle_create_ck_request now req (as_base request) w)
  | MeasureDirectly =>
      wrap_create_md (as_base request) (handle_create_md_request K req (as_base request) w)
  | RemoteStatePrep => (w, HcReturned)
  end.

(** Lines 457-464: the peer's message is received and logged, not
    inspected. *)
Definition create_after_peer (now : float) (req : NetstackCreateRequest) (request : MadeRequest)
  (r : Listener.Receive Content) (suspended : CreatePc) (w : World) : World * CreatePc :=
  match r with
  | Listener.Returns peer_msg rest =>
      create_dispatch now req request (act (GotPeerMsg peer_msg) (set_peer_buffer rest w))
  | Listener.Suspends => (w, suspended)
  | Listener.Raises e => (w, HcRaised (Builtin e))
  end.

(** [handle_create_request], from the call (at time [now], with the
    arguments array [args]) to its first suspension. *)
Definition handle_create_request (sockets : gmap nat (list EprSocket)) (now : float)
  (req : NetstackCreateRequest) (args : list (option Z)) (w : World) : World * CreatePc :=
  match find_epr_socket (pid req) (epr_socket_id req) (create_remote_node_id req) sockets with
  | None => (w, HcRaised (Builtin AssertionError))
  | Some epr_socket =>
      match construct_request CI (create_remote_node_id req) args with
      | Fails e => (w, HcRaised e)
      | Fine request =>
          let w := send_peer_msg (LinkRequest (as_base request)) w in
          create_after_peer now req request (Listener.receive_msg (peer_buffer w))
            (HcAwaitPeer request) w
      end
  end.

(** [handle_create_request], resumed at time [now] by [sig]. *)
Definition create_request_resume (req : NetstackCreateRequest) (now : float) (sig : Signal)
  (pc : CreatePc) (w : World) : World * CreatePc :=
  match pc with
  | HcAwaitPeer request =>
      match sig with
      | SIGNAL_PEER_NSTK_MSG =>
          create_after_peer now req request
            (Listener.receive_msg_resume (peer_buffer w)) pc w
      | _ => (w, pc)
      end
  | HcCreateCk fr ckpc => wrap_create_ck fr (create_ck_resume K fr now sig ckpc w)
  | HcCreateMd request mdpc =>
      wrap_create_md request (create_md_resume K req request sig mdpc w)
  | HcReturned | HcRaised _ => (w, pc)
  end.

(** Where [handle_receive_request] is suspended: line 671, or inside the
    handler it delegates to (lines 683 and 685). *)
Inductive ReceivePc : Set :=
  | HrAwaitPeer
  | HrReceiveCk (fr : RckFrame) (pc : RckPc)
  | HrReceiveMd (request : ReqCreateBase) (pc : MdPc)
  | HrReturned
  | HrRaised (e : PyExn).

Definition wrap_receive_ck (fr : RckFrame) (st : World * RckPc) : World * ReceivePc :=
  match snd st with
  | RckReturned => (fst st, HrReturned)
  | RckRaised e => (fst st, HrRaised (Builtin e))
  | pc => (fst st, HrReceiveCk fr pc)
  end.

Definition wrap_receive_md (request : ReqCreateBase) (st : World * MdPc) : World * ReceivePc :=
  match snd st with
  | MdReturned => (fst st, HrReturned)
  | MdRaised e => (fst st, HrRaised (Builtin e))
  | pc => (fst st, HrReceiveMd request pc)
  end.

(** Lines 672-685: "ready" is sent back whatever the message holds;
    then [isinstance] on its content. *)
Definition receive_dispatch (now : float) (req : NetstackReceiveRequest) (create_request : Content)
  (w : World) : World * ReceivePc :=
  let w := send_peer_msg (Text "ready") w in
  match create_request with
  | LinkRequest r =>
      match req_type r with
      | CreateAndKeep =>
          wrap_receive_ck (rck_frame now req r) (handle_receive_ck_request now req r w)
      | MeasureDirectly => wrap_receive_md r (handle_receive_md_request K req r w)
      | RemoteStatePrep => (w, HrReturned)
      end
  | Text _ => (w, HrReturned)
  end.

Definition receive_after_peer (now : float) (req : NetstackReceiveRequest)
  (r : Listener.Receive Content) (w : World) : World * ReceivePc :=
  match r with
  | Listener.Returns msg rest =>
      receive_dispatch now req msg (act (GotPeerMsg msg) (set_peer_buffer rest w))
  | Listener.Suspends => (w, HrAwaitPeer)
  | Listener.Raises e => (w, HrRaised (Builtin e))
  end.

(** [handle_receive_request], from the call to its first suspension. *)
Definition handle_receive_request (sockets : gmap nat (list EprSocket)) (now : float)
  (req : NetstackReceiveRequest) (w : World) : World * ReceivePc :=
  match find_epr_socket (recv_pid req) (recv_epr_socket_id req) (recv_remote_node_id req)
          sockets with
  | None => (w, HrRaised (Builtin AssertionError))
  | Some epr_socket =>
      receive_after_peer now req (Listener.receive_msg (peer_buffer w)) w
  end.

(** [handle_receive_request], resumed at time [now] by [sig]. *)
Definition receive_request_resume (req : NetstackReceiveRequest) (now : float) (sig : Signal)
  (pc : ReceivePc) (w : World) : World * ReceivePc :=
  match pc with
  | HrAwaitPeer =>
      match sig with
      | SIGNAL_PEER_NSTK_MSG =>
          receive_after_peer now req (Listener.receive_msg_resume (peer_buffer w)) w
      | _ => (w, pc)
      end
  | HrReceiveCk fr rckpc => wrap_receive_ck fr (receive_ck_resume K fr now sig rckpc w)
  | HrReceiveMd request mdpc =>
      wrap_receive_md request (receive_md_resume K req request sig mdpc w)
  | HrReturned | HrRaised _ => (w, pc)
  end.

End Handshake.

(** *** Whole requests *)

(** [n] calls of [allocate_comm] in a row, when all succeed: the ids
    and the pool after them. *)
Fixpoint allocate_comm_n (n : nat) (m : PhysicalQuantumMemory)
  : option (list nat * PhysicalQuantumMemory) :=
  match n with
  | 0 => Some ([], m)
  | S n =>
      match allocate_comm m with
      | Ok (i, m') =>
          match allocate_comm_n n m' with
          | Some (ids, m'') => Some (i :: ids, m'')
          | None => None
          end
      | Raise _ => None
      end
  end.

(** What the simulation provides for one pair of a create-and-keep
    request: the result of the EGP with the time of its signal, and the
    time at which a correction program (if one is run) completes. *)
Record Delivery : Set := {
  at_result : float;
  reported : ResCreateAndKeep;
  at_program_done : float
}.

(** The signals of one pair on the creator side and on the receiver
    side. *)
Definition creator_signals (d : Delivery) : list Stimulus :=
  Fire (at_result d) (SigResCreateAndKeep (reported d)) ::
  match bell_state (reported d) with
  | B00 => []
  | _ => [Fire (at_program_done d) SigProgramDone]
  end.

Definition receiver_signals (d : Delivery) : list Stimulus :=
  [Fire (at_result d) (SigResCreateAndKeep (reported d))].

(** The clock when the creator writes the slice of the pair. *)
Definition creator_time (d : Delivery) : float :=
  match bell_state (reported d) with
  | B00 => at_result d
  | _ => at_program_done d
  end.

(** The slices of the pairs [i, i+1, ...], as array writes in order;
    [duration] gives the generation duration written for each. *)
Fixpoint keep_slices (K : Imports) (pid addr : nat) (duration : Delivery → Z)
  (i : nat) (ds : list Delivery) : list (nat * nat * nat * Z) :=
  match ds with
  | [] => []
  | d :: ds =>
      map (λ j, (pid, addr, SER_RESPONSE_KEEP_LEN K * i + j,
                 keep_slice_value K (duration d)
                   (BellIndex_value K (bell_state (reported d))) j))
          (seq 0 (SER_RESPONSE_KEEP_LEN K))
      ++ keep_slices K pid addr duration (S i) ds
  end.

(** [duration] gives, for each delivery of [ds], the truncation of the
    float [(time_of d - start_time) / 1000]: the clock is read at
    [time_of d], the request started at [start_time], and the quotient
    is finite. *)
Definition durations_of (start_time : float) (time_of : Delivery → float)
  (duration : Delivery → Z) (ds : list Delivery) : Prop :=
  ∀ d, d ∈ ds →
       truncation_of
         (Prim2SF (PrimFloat.div (PrimFloat.sub (time_of d) start_time) 1000%float))
         (duration d).

(** The correction programs of the pairs, in order. *)
Definition corrections (ds : list Delivery) : list QuantumProgram :=
  concat (map (λ d, match bell_state (reported d) with
                    | B00 => []
                    | B01 => [[rot INSTR_ROT_X]]
                    | B10 => [[rot INSTR_ROT_Z]]
                    | B11 => [[rot INSTR_ROT_X; rot INSTR_ROT_Z]]
                    end) ds).

(** What the creator does for pair [i], which gets [phys_id], from the
    request to the EGP to the message to the processor. *)
Definition creator_pair_actions (K : Imports) (fr : CkFrame) (i phys_id : nat) (d : Delivery)
  (gen_duration : Z) (virt_id : option Z) : list Action :=
  EgpPut (create_remote_node_id (ck_req fr)) (ReqCreate (ck_request fr)) ::
  map ExecuteProgram (corrections [d]) ++
  MapVirtId (pid (ck_req fr)) virt_id phys_id ::
  map (λ j, SetArrayValue (pid (ck_req fr)) (result_array_addr (ck_req fr))
              (SER_RESPONSE_KEEP_LEN K * i + j)
              (keep_slice_value K gen_duration
                 (BellIndex_value K (bell_state (reported d))) j))
      (seq 0 (SER_RESPONSE_KEEP_LEN K)) ++
  [SendProcessorMsg (Text "wrote to array")].

(** The same for the receiver, which runs no correction. *)
Definition receiver_pair_actions (K : Imports) (fr : RckFrame) (i phys_id : nat) (d : Delivery)
  (gen_duration : Z) (virt_id : option Z) : list Action :=
  EgpPut (recv_remote_node_id (rck_req fr)) (ReqReceive (recv_remote_node_id (rck_req fr))) ::
  MapVirtId (recv_pid (rck_req fr)) virt_id phys_id ::
  map (λ j, SetArrayValue (recv_pid (rck_req fr)) (recv_result_array_addr (rck_req fr))
              (SER_RESPONSE_KEEP_LEN K * i + j)
              (keep_slice_value K gen_duration
                 (BellIndex_value K (bell_state (reported d))) j))
      (seq 0 (SER_RESPONSE_KEEP_LEN K)) ++
  [SendProcessorMsg (Text "wrote to array")].

(** The physical ids mapped, in order. *)
Definition mapped_phys (l : list Action) : list nat :=
  omap (λ a, match a with MapVirtId _ _ phys_id => Some phys_id | _ => None end) l.

(** The measure slices of the results of the pairs [i, i+1, ...]. *)
Fixpoint measure_slices (K : Imports) (pid addr : nat) (i : nat)
  (results : list ResMeasureDirectly) : list (nat * nat * nat * Z) :=
  match results with
  | [] => []
  | result :: results =>
      map (λ j, (pid, addr, SER_RESPONSE_MEASURE_LEN K * i + j, measure_slice_value K result j))
          (seq 0 (SER_RESPONSE_MEASURE_LEN K))
      ++ measure_slices K pid addr (S i) results
  end.

(** The signals of a measure-directly request: one result per pair. *)
Definition measure_signals (rs : list (float * ResMeasureDirectly)) : list Stimulus :=
  map (λ '(t, result), Fire t (SigResMeasureDirectly result)) rs.

(** The ids that the processor frees among the stimuli. *)
Definition freed_ids (stimuli : list Stimulus) : list nat :=
  omap (λ s, match s with ProcessorFrees id => Some id | _ => None end) stimuli.

(** The messages of the log: what was sent to the peer and what was
    taken from either buffer, in order. *)
Definition exchanged (l : list Action) : list Action :=
  omap (λ a, match a with
             | SendPeerMsg _ | GotPeerMsg _ | GotProcessorMsg _ => Some a
             | _ => None
             end) l.

(** The requests put to the EGP, in order. *)
Definition egp_puts (l : list Action) : list (nat * EgpRequest) :=
  omap (λ a, match a with EgpPut remote r => Some (remote, r) | _ => None end) l.

(** What the two listeners buffer among the stimuli. *)
Definition peer_arrivals (stimuli : list Stimulus) : list Content :=
  concat (omap (λ s, match s with PeerArrival msgs => Some msgs | _ => None end) stimuli).

Definition processor_arrivals (stimuli : list Stimulus) : list Content :=
  concat (omap (λ s, match s with ProcessorArrival msgs => Some msgs | _ => None end) stimuli).

(** From [w] to [w'] no message was exchanged and both buffers are as
    they were. *)
Definition silent (w w' : World) : Prop :=
  exchanged (log w') = exchanged (log w) ∧
  peer_buffer w' = peer_buffer w ∧ processor_buffer w' = processor_buffer w.

(** Offsets for examples: the type of a request at 0 and its number of
    pairs at 1 of the arguments array. *)
Definition example_create_imports : CreateImports :=
  {| SER_CREATE_IDX_TYPE := 0; SER_CREATE_IDX_NUMBER := 1 |}.

End NetstackMore.

(** ** run.py : as_completed *)

Module Run.

Section Futures.

Context {Future : Type}.

(** [future.ready()]: whether the thread behind [future] has finished
    when the pool is looked at for the [clock]-th time.  Time passes
    between two looks, so that the answer may change from one to the
    next. *)
Variable ready : nat → Future → bool.

(** The generator's state: its local list [futures], what it has
    yielded so far (oldest first), and the number of looks taken. *)
Record Progress : Type := {
  futures : list Future;
  yielded : list Future;
  clock : nat
}.

(** Lines 14-17: [for i, future in enumerate(futures)], from index [i]
    on.  The iterator reads [futures[i]] afresh in every turn and stops
    when [i] is past the end of the list, so a [pop(i)] moves the next
    element under an index that has already been visited.  [fuel] bounds
    the number of turns; the length of the list is enough. *)
Fixpoint for_enumerate (fuel i : nat) (s : Progress) : Progress :=
  match fuel with
  | 0 => s
  | S fuel =>
      match futures s !! i with
      | None => s
      | Some future =>
          if ready (clock s) future
          then for_enumerate fuel (S i)
                 {| futures := delete i (futures s);
                    yielded := yielded s ++ [future];
                    clock := S (clock s) |}
          else for_enumerate fuel (S i)
                 {| futures := futures s; yielded := yielded s; clock := S (clock s) |}
      end
  end.

(** One turn of [while len(futures) > 0]: the [for], then [sleep(0.1)],
    which changes nothing here. *)
Definition sweep (s : Progress) : Progress :=
  for_enumerate (length (futures s)) 0 s.

(** Line 13: at most [turns] turns of the [while]. *)
Fixpoint while_nonempty (turns : nat) (s : Progress) : Progress :=
  match turns with
  | 0 => s
  | S turns =>
      match futures s with
      | [] => s
      | _ :: _ => while_nonempty turns (sweep s)
      end
  end.

(** [as_completed(futures)], run for at most [turns] turns of its
    [while]; it has returned when [futures] is empty. *)
Definition as_completed (turns : nat) (fs : list Future) : Progress :=
  while_nonempty turns {| futures := fs; yielded := []; clock := 0 |}.

(** The elements at the even and at the odd positions of a list. *)
Fixpoint evens (l : list Future) : list Future :=
  match l with
  | [] => []
  | [a] => [a]
  | a :: _ :: l => a :: evens l
  end.

Fixpoint odds (l : list Future) : list Future :=
  match l with
  | [] => []
  | [_] => []
  | _ :: b :: l => b :: odds l
  end.

End Futures.

End Run.

(** ** simulate.py : simulate_application *)

Module Simulate.

(** The two attributes of [LogConfig] ([netqasm.sdk.config]) that
    [simulate_application] reads. *)
Record LogConfig : Set := {
  split_runs : bool;
  log_dir : option string
}.

(** What [simulate_application] does to the runtime manager, the file
    system and the logs, in the order it does it.  A timed log directory
    is named by the rank of the call of [env.get_timed_log_dir] that
    returned it. *)
Inductive Effect : Set :=
  | SetNetwork (default_cfg : bool)       (* [mgr.set_network], on the default config or not *)
  | MakeDir (dir : string)                (* [os.mkdir(log_dir)] *)
  | StartBackend
  | GetTimedLogDir (dir : string)         (* [env.get_timed_log_dir(log_dir)] *)
  | SetLogDirs (timed : nat)              (* lines 70-72 *)
  | RunApp (round : nat)                  (* [mgr.run_app] *)
  | DumpYaml (round timed : nat)          (* results of [round] to results.yaml in [timed] *)
  | PostFunction
  | StopBackend
  | MakeLastLog (timed : option nat).     (* [process_logs.make_last_log(log_dir=...)] *)

Section Application.

Context {Results : Type}.

(** What [mgr.run_app] returns in each round, [LogConfig()], and
    [os.path.abspath("./log")]. *)
Variable run_app : nat → Results.
Variable default_log_cfg : LogConfig.
Variable abspath_log : string.

(** The locals that the rounds change: [timed_log_dir], [results]
    (unbound before the first round), and what has been done. *)
Record Locals : Type := {
  timed_log_dir : option nat;
  timed_dirs : nat;                       (* calls of [get_timed_log_dir] so far *)
  results : option Results;
  effects : list Effect
}.

Definition effect (e : Effect) (l : Locals) : Locals :=
  {| timed_log_dir := timed_log_dir l; timed_dirs := timed_dirs l;
     results := results l; effects := effects l ++ [e] |}.

(** Lines 66-68: a new timed directory for a split run, or for the
    first run. *)
Definition choose_timed_log_dir (cfg : LogConfig) (dir : string) (l : Locals) : nat * Locals :=
  match split_runs cfg, timed_log_dir l with
  | false, Some timed => (timed, l)
  | _, _ =>
      (timed_dirs l,
       effect (GetTimedLogDir dir)
         {| timed_log_dir := Some (timed_dirs l); timed_dirs := S (timed_dirs l);
            results := results l; effects := effects l |})
  end.

Definition bind_results (r : Results) (l : Locals) : Locals :=
  {| timed_log_dir := timed_log_dir l; timed_dirs := timed_dirs l;
     results := Some r; effects := effects l |}.

(** Lines 64-77: one turn of [for _ in range(num_rounds)]; [logging]
    is [Some (log_cfg, log_dir)] when logging is enabled. *)
Definition one_round (logging : option (LogConfig * string)) (l : Locals) (round : nat)
  : Locals :=
  match logging with
  | Some (cfg, dir) =>
      let '(timed, l) := choose_timed_log_dir cfg dir l in
      let l := effect (SetLogDirs timed) l in
      let l := bind_results (run_app round) (effect (RunApp round) l) in
      effect (DumpYaml round timed) l
  | None => bind_results (run_app round) (effect (RunApp round) l)
  end.

(** The outcome of [simulate_application]: [return results] raises
    [UnboundLocalError] when no round has bound the name, and
    [make_last_log] ([netqasm.runtime.process_logs]) raises [TypeError]
    when it is given [None], which it splits as a path at once. *)
Inductive Returned : Type :=
  | Return (r : Results)
  | UnboundLocalError
  | TypeError.

(** [simulate_application]: what it does, in order, and what it
    returns.  The construction of the manager and the assignments of
    lines 44 and 54 are not among the effects; [path_exists] is
    [os.path.exists]. *)
Definition simulate_application (num_rounds : Z) (network_cfg_given : bool)
  (log_cfg : option LogConfig) (post_function_given : bool) (enable_logging : bool)
  (path_exists : string → bool) : list Effect * Returned :=
  let l := {| timed_log_dir := None; timed_dirs := 0; results := None; effects := [] |} in
  let l := effect (SetNetwork (negb network_cfg_given)) l in
  let logging :=
    if enable_logging then
      let cfg := match log_cfg with None => default_log_cfg | Some cfg => cfg end in
      Some (cfg, match log_dir cfg with None => abspath_log | Some dir => dir end)
    else None in
  let l := match logging with
           | Some (_, dir) => if path_exists dir then l else effect (MakeDir dir) l
           | None => l
           end in
  let l := effect StartBackend l in
  let l := foldl (one_round logging) l (seq 0 (Z.to_nat num_rounds)) in
  let l := if post_function_given then effect PostFunction l else l in
  let l := effect StopBackend l in
  let last := timed_log_dir l in
  let l := if enable_logging then effect (MakeLastLog last) l else l in
  (effects l,
   match enable_logging, last with
   | true, None => TypeError
   | _, _ => match results l with Some r => Return r | None => UnboundLocalError end
   end).

End Application.

(** Projections of what was done: the calls on the backend, the
    directories asked for, the dumps, and everything that concerns
    logging. *)
Definition backend_calls (l : list Effect) : list Effect :=
  omap (λ e, match e with StartBackend | RunApp _ | StopBackend => Some e | _ => None end) l.

Definition dumps (l : list Effect) : list (nat * nat) :=
  omap (λ e, match e with DumpYaml round timed => Some (round, timed) | _ => None end) l.

Definition logging_calls (l : list Effect) : list Effect :=
  omap (λ e, match e with
             | MakeDir _ | GetTimedLogDir _ | SetLogDirs _ | DumpYaml _ _ | MakeLastLog _ =>
                 Some e
             | _ => None
             end) l.

End Simulate.

(** * Properties *)

(** ** The qubit memory allocator *)

Section MemoryFacts.

Import Memory.

(** The [for] loop over [range(a, a + n)] returns the least id that
    passes the test. *)
Lemma first_fit_seq_Some (cond : nat → bool) (n a i : nat) :
  first_fit cond (seq a n) = Some i →
  a ≤ i < a + n ∧ cond i = true ∧ ∀ j, a ≤ j < i → cond j = false.
Proof.
  revert a. induction n as [|n IH]; intros a; simpl; [discriminate|].
  destruct (cond a) eqn:Ha.
  - intros [= <-]. repeat split; [lia|lia|done|]. intros j Hj. lia.
  - intros Hi. destruct (IH _ Hi) as ([Hlo Hhi] & Hc & Hleast).
    repeat split; [lia|lia|done|].
    intros j Hj. destruct (decide (j = a)) as [->|]; [done|]. apply Hleast. lia.
Qed.

Lemma first_fit_seq_None (cond : nat → bool) (n a : nat) :
  (first_fit cond (seq a n) = None) ↔ (∀ j, a ≤ j < a + n → cond j = false).
Proof.
  revert a. induction n as [|n IH]; intros a; simpl.
  - split; [intros _ j Hj; lia|done].
  - destruct (cond a) eqn:Ha.
    + split; [discriminate|]. intros H. rewrite H in Ha; [discriminate|lia].
    + rewrite IH. split; intros H j Hj.
      * destruct (decide (j = a)) as [->|]; [done|]. apply H. lia.
      * apply H. lia.
Qed.

Lemma alloc_unfold (k : AllocKind) (m : PhysicalQuantumMemory) :
  alloc k m = alloc_with (cond_of k m) m.
Proof. by destruct k. Qed.

Lemma cond_of_true (k : AllocKind) (m : PhysicalQuantumMemory) (i : nat) :
  i < qubit_count m →
  (cond_of k m i = true) ↔ ((i ∉ allocated_ids m) ∧ eligible k m i).
Proof.
  intros Hi.
  destruct k; unfold cond_of, eligible, is_free, is_comm;
    rewrite ?andb_true_iff, ?negb_true_iff,
      ?bool_decide_eq_true, ?bool_decide_eq_false; tauto.
Qed.

Lemma cond_of_false (k : AllocKind) (m : PhysicalQuantumMemory) (i : nat) :
  i < qubit_count m →
  (cond_of k m i = false) ↔ (eligible k m i → i ∈ allocated_ids m).
Proof.
  intros Hi. rewrite <- not_true_iff_false, cond_of_true by done.
  split.
  - intros H He. destruct (decide (i ∈ allocated_ids m)); [done|]. naive_solver.
  - intros H [Hn He]. auto.
Qed.

(** A successful allocation. *)
Lemma alloc_Ok (k : AllocKind) (m m' : PhysicalQuantumMemory) (i : nat) :
  alloc k m = Ok (i, m') →
  m' = add_allocated i m ∧ (i ∉ allocated_ids m) ∧ eligible k m i ∧
  ∀ j, eligible k m j → j ∉ allocated_ids m → i ≤ j.
Proof.
  rewrite alloc_unfold. unfold alloc_with.
  destruct (first_fit _ _) as [i'|] eqn:Hff; [|discriminate].
  intros [= -> <-].
  apply first_fit_seq_Some in Hff as ([_ Hhi] & Hc & Hleast). simpl in Hhi.
  apply (proj1 (cond_of_true k m i Hhi)) in Hc as [Hfree Hel].
  repeat split; try done; try apply Hel.
  intros j Hj Hjfree. destruct (decide (i ≤ j)); [done|].
  assert (cond_of k m j = false) as Hcj by (apply Hleast; lia).
  destruct Hjfree. exact (proj1 (cond_of_false k m j (proj1 Hj)) Hcj Hj).
Qed.

(** A failed allocation. *)
Lemma alloc_Raise (k : AllocKind) (m : PhysicalQuantumMemory) :
  (∀ j, eligible k m j → j ∈ allocated_ids m) ↔ (alloc k m = Raise AllocError).
Proof.
  rewrite alloc_unfold. unfold alloc_with. split.
  - intros H. destruct (first_fit _ _) as [i|] eqn:Hff; [|done].
    apply first_fit_seq_Some in Hff as ([_ Hhi] & Hc & _). simpl in Hhi.
    apply (proj1 (cond_of_true k m i Hhi)) in Hc as [Hfree Hel]. naive_solver.
  - destruct (first_fit _ _) as [i|] eqn:Hff; [discriminate|]. intros _ j Hj.
    rewrite first_fit_seq_None in Hff.
    apply (proj1 (cond_of_false k m j (proj1 Hj))); [|done].
    apply Hff. split; [lia|apply Hj].
Qed.

Lemma alloc_only_AllocError (k : AllocKind) (m : PhysicalQuantumMemory) (e : Exn) :
  alloc k m = Raise e → e = AllocError.
Proof.
  rewrite alloc_unfold. unfold alloc_with. destruct (first_fit _ _); [discriminate|].
  by intros [= <-].
Qed.

Lemma exec_call_alloc (k : AllocKind) (m : PhysicalQuantumMemory) :
  exec_call m (call_of k) =
  match alloc k m with
  | Ok (i, m') => (m', Ok (Some i))
  | Raise e => (m, Raise e)
  end.
Proof. by destruct k. Qed.

(** No call changes the capacity or the communication subset. *)
Lemma exec_call_static (m : PhysicalQuantumMemory) (c : Call) :
  qubit_count (fst (exec_call m c)) = qubit_count m ∧
  comm_qubit_ids (fst (exec_call m c)) = comm_qubit_ids m.
Proof.
  assert (∀ k, qubit_count (fst (exec_call m (call_of k))) = qubit_count m ∧
               comm_qubit_ids (fst (exec_call m (call_of k))) = comm_qubit_ids m) as Hk.
  { intros k. rewrite exec_call_alloc.
    destruct (alloc k m) as [[i m']|e] eqn:Ha; [|done].
    apply alloc_Ok in Ha as (-> & _). done. }
  destruct c as [| | |id].
  - apply (Hk AnySlot).
  - apply (Hk CommSlot).
  - apply (Hk MemSlot).
  - simpl. unfold free. case_bool_decide; done.
Qed.

Lemma run_calls_static (calls : list Call) (m : PhysicalQuantumMemory) :
  qubit_count (run_calls m calls) = qubit_count m ∧
  comm_qubit_ids (run_calls m calls) = comm_qubit_ids m.
Proof.
  revert m. induction calls as [|c calls IH]; intros m; [done|].
  unfold run_calls in *. simpl. destruct (IH (fst (exec_call m c))) as [-> ->].
  apply exec_call_static.
Qed.

Lemma elem_of_range_set (n i : nat) : i ∈ range_set n ↔ i < n.
Proof. unfold range_set. rewrite elem_of_list_to_set, elem_of_seq. lia. Qed.

(** C2: after any sequence of calls on any pool, a successful
    [allocate] / [allocate_comm] / [allocate_mem] returns an id that was
    not allocated, that is eligible for the method, and that is the
    lowest such id; the id is then added to the allocated set. *)
Theorem allocate_lowest_free (m0 : PhysicalQuantumMemory) (calls : list Call)
  (k : AllocKind) (i : nat) (m' : PhysicalQuantumMemory) :
  alloc k (run_calls m0 calls) = Ok (i, m') →
  let m := run_calls m0 calls in
  (i ∉ allocated_ids m) ∧
  eligible k m i ∧
  (∀ j, eligible k m j → j ∉ allocated_ids m → i ≤ j) ∧
  allocated_ids m' = {[ i ]} ∪ allocated_ids m.
Proof.
  intros Ha m. apply alloc_Ok in Ha as (-> & Hfree & Hel & Hleast). done.
Qed.

(** An instance: a three-qubit pool with one communication qubit, after
    two allocations, a [free 0] and one more allocation. *)
Lemma allocate_lowest_free_witness :
  let m := run_calls (NVPhysicalQuantumMemory_init 3)
             [CallAllocate; CallAllocateMem; CallFree 0; CallAllocateMem] in
  (0 ∉ allocated_ids m) ∧
  eligible CommSlot m 0 ∧
  (∀ j, eligible CommSlot m j → j ∉ allocated_ids m → 0 ≤ j) ∧
  allocated_ids (add_allocated 0 m) = {[ 0 ]} ∪ allocated_ids m.
Proof.
  apply (allocate_lowest_free (NVPhysicalQuantumMemory_init 3)
           [CallAllocate; CallAllocateMem; CallFree 0; CallAllocateMem]
           CommSlot 0).
  vm_compute. reflexivity.
Defined.

(** C7: when every eligible slot is allocated, the allocation method
    raises [AllocError] and the pool is unchanged; after [free id] of an
    allocated id, the id is free again and [allocate] returns it as soon
    as no lower id is free; [free] of an id that is not allocated raises
    [KeyError]. *)
Theorem exhausted_reuse_and_bad_free (m : PhysicalQuantumMemory) :
  (∀ k, (∀ j, eligible k m j → j ∈ allocated_ids m) →
        alloc k m = Raise AllocError ∧
        exec_call m (call_of k) = (m, Raise AllocError)) ∧
  (∀ id, id ∈ allocated_ids m → id < qubit_count m →
        ∃ m1, free id m = Ok m1 ∧
              (id ∉ allocated_ids m1) ∧
              ((∀ j, j < id → j ∈ allocated_ids m) →
               ∃ m2, allocate m1 = Ok (id, m2))) ∧
  (∀ id, id ∉ allocated_ids m →
        free id m = Raise KeyError ∧
        exec_call m (CallFree id) = (m, Raise KeyError)).
Proof.
  split; [|split].
  - intros k H. apply alloc_Raise in H. by rewrite exec_call_alloc, H.
  - intros id Hin Hlt. unfold free. rewrite bool_decide_eq_true_2 by done.
    eexists. split; [done|]. split; [simpl; set_solver|].
    intros Hlow. change allocate with (alloc AnySlot).
    destruct (alloc AnySlot _) as [[i m2]|e] eqn:Ha.
    + apply alloc_Ok in Ha as (_ & Hfree & [Hi _] & Hleast). simpl in *.
      assert (i ≤ id) as Hle.
      { apply Hleast; [done|set_solver]. }
      destruct (decide (i = id)) as [->|Hne]; [by eexists|].
      exfalso. apply Hfree. apply elem_of_difference. split; [apply Hlow; lia|].
      set_solver.
    + exfalso. pose proof (alloc_only_AllocError _ _ _ Ha) as ->.
      pose proof (proj2 (alloc_Raise _ _) Ha id) as Hid. simpl in Hid.
      assert (id ∈ allocated_ids m ∖ {[id]}) by (apply Hid; done). set_solver.
  - intros id Hnot. unfold exec_call, free. by rewrite bool_decide_eq_false_2.
Qed.

(** An instance: a full two-qubit pool. *)
Lemma exhausted_reuse_and_bad_free_witness :
  let m := run_calls (NVPhysicalQuantumMemory_init 2) [CallAllocate; CallAllocate] in
  alloc CommSlot m = Raise AllocError ∧
  (∃ m1, free 1 m = Ok m1 ∧ ∃ m2, allocate m1 = Ok (1, m2)) ∧
  free 5 m = Raise KeyError.
Proof.
  intros m.
  destruct (exhausted_reuse_and_bad_free m) as (Hfull & Hreuse & Hbad).
  split; [|split].
  - apply (Hfull CommSlot). intros j [Hj _]. vm_compute in Hj.
    assert (j = 0 ∨ j = 1) as [-> | ->] by lia; vm_compute; done.
  - destruct (Hreuse 1) as (m1 & Hf & _ & Hre); [vm_compute; done|vm_compute; lia|].
    exists m1. split; [done|]. apply Hre. intros j Hj.
    assert (j = 0) as -> by lia. vm_compute. done.
  - apply (Hbad 5). vm_compute. intros H. done.
Defined.

(** C10: a pool built by the base constructor keeps its communication
    subset equal to the full slot set [0..C-1] whatever is called on it,
    no id is eligible for [allocate_mem], and [allocate_mem] raises
    [AllocError] whatever the allocated set is. *)
Theorem base_pool_allocate_mem_raises (C : nat) (calls : list Call) (A : gset nat) :
  let m := run_calls (PhysicalQuantumMemory_init C) calls in
  qubit_count m = C ∧
  (∀ i, i ∈ comm_qubit_ids m ↔ i < C) ∧
  (∀ i, ¬ eligible MemSlot m i) ∧
  allocate_mem m = Raise AllocError ∧
  allocate_mem {| qubit_count := C; allocated_ids := A;
                  comm_qubit_ids := comm_qubit_ids (PhysicalQuantumMemory_init C) |}
    = Raise AllocError.
Proof.
  intros m.
  destruct (run_calls_static calls (PhysicalQuantumMemory_init C)) as [Hc Hs].
  fold m in Hc, Hs. simpl in Hc, Hs.
  assert (∀ m1, qubit_count m1 = C → comm_qubit_ids m1 = range_set C →
            (∀ i, ¬ eligible MemSlot m1 i) ∧ allocate_mem m1 = Raise AllocError) as Hgen.
  { intros m1 H1 H2.
    assert (∀ i, ¬ eligible MemSlot m1 i) as Hne.
    { intros i [Hi Hn]. apply Hn. rewrite H2, elem_of_range_set. lia. }
    split; [done|]. apply (alloc_Raise MemSlot). intros j Hj. destruct (Hne j Hj). }
  split; [done|]. split; [intros i; rewrite Hs; apply elem_of_range_set|].
  split; [apply Hgen; done|]. split; [apply Hgen; done|].
  apply Hgen; done.
Qed.

End MemoryFacts.

(** ** The channel listener and receive-with-block *)

Section ListenerFacts.

Import Listener.

Context {Item : Type}.

Implicit Types (l : PortListener Item) (inputs : list (list Item)).

Lemma read_all_inputs_spec inputs (b : list Item) (counter : nat) :
  read_all_inputs inputs b counter = (b ++ concat inputs, counter + length inputs).
Proof.
  revert b counter. induction inputs as [|items inputs IH]; intros b counter; simpl.
  - by rewrite app_nil_r, Nat.add_0_r.
  - rewrite IH, <- app_assoc. f_equal. lia.
Qed.

(** The listener after the first [j] port events of an episode of more
    than [j] inputs: everything is in the buffer, no signal yet. *)
Lemma episode_prefix l inputs (j : nat) :
  pc l = AtAwaitInput → port_inputs l = [] →
  1 ≤ j < length inputs →
  Nat.iter j listener_resume (port_arrival inputs l) =
  {| buffer := buffer l ++ concat inputs; port_inputs := [];
     pc := AtFlush (length inputs - j + 1); signals_sent := signals_sent l |}.
Proof.
  intros Hpc Hport. induction j as [|j IH]; [lia|]. intros Hj.
  destruct (decide (j = 0)) as [->|Hj0].
  - simpl. unfold listener_resume, port_arrival. simpl. rewrite Hpc, Hport. simpl.
    rewrite read_all_inputs_spec. simpl. unfold flush_or_signal. simpl.
    destruct (Nat.ltb_spec 1 (length inputs)); [|lia].
    do 2 f_equal. lia.
  - simpl. rewrite IH by lia. unfold listener_resume. simpl.
    unfold flush_or_signal. simpl.
    destruct (Nat.ltb_spec 1 (length inputs - j + 1 - 1)); [|lia].
    do 2 f_equal. lia.
Qed.

(** The listener after the whole episode. *)
Lemma episode_end l inputs :
  pc l = AtAwaitInput → port_inputs l = [] → inputs ≠ [] →
  wake_episode inputs l =
  {| buffer := buffer l ++ concat inputs; port_inputs := [];
     pc := AtAwaitInput; signals_sent := S (signals_sent l) |}.
Proof.
  intros Hpc Hport Hne. unfold wake_episode.
  destruct (length inputs) as [|n] eqn:Hlen.
  { destruct inputs; [done|discriminate]. }
  destruct (decide (n = 0)) as [->|Hn].
  - simpl. unfold listener_resume, port_arrival. simpl. rewrite Hpc, Hport. simpl.
    rewrite read_all_inputs_spec, Hlen. done.
  - simpl. rewrite episode_prefix by (done || lia). unfold listener_resume. simpl.
    unfold flush_or_signal. simpl.
    destruct (Nat.ltb_spec 1 (length inputs - n + 1 - 1)); [lia|done].
Qed.

(** C5: a wake episode in which K >= 1 inputs have arrived on the port
    of an idle listener: the listener sends exactly one signal, after the
    last of the K port events and not before, and its buffer is then the
    old buffer followed by the items of the K inputs in arrival order. *)
Theorem listener_episode l inputs :
  pc l = AtAwaitInput → port_inputs l = [] → 1 ≤ length inputs →
  let l' := wake_episode inputs l in
  signals_sent l' = signals_sent l + 1 ∧
  buffer l' = buffer l ++ concat inputs ∧
  pc l' = AtAwaitInput ∧
  port_inputs l' = [] ∧
  ∀ j, j < length inputs →
       signals_sent (Nat.iter j listener_resume (port_arrival inputs l)) = signals_sent l.
Proof.
  intros Hpc Hport Hlen l'.
  assert (inputs ≠ []) as Hne by (intros ->; simpl in Hlen; lia).
  subst l'. rewrite episode_end by done. simpl.
  repeat split; [lia|].
  intros j Hj. destruct (decide (j = 0)) as [->|Hj0]; [done|].
  by rewrite episode_prefix by (done || lia).
Qed.


Lemma arrived_snoc (ops : list (ChannelOp Item)) (op : ChannelOp Item) :
  arrived (ops ++ [op]) =
  arrived ops ++ match op with Arrive items => items | _ => [] end.
Proof.
  unfold arrived. rewrite omap_app, concat_app. destruct op; simpl; by rewrite ?app_nil_r.
Qed.

Lemma run_channel_snoc (ops : list (ChannelOp Item)) (op : ChannelOp Item) :
  run_channel (ops ++ [op]) = channel_step (run_channel ops) op.
Proof. unfold run_channel. by rewrite foldl_app. Qed.

(** A port event moves items from the port to the buffer, in order. *)
Lemma listener_resume_keeps l :
  buffer (listener_resume l) ++ concat (port_inputs (listener_resume l)) =
  buffer l ++ concat (port_inputs l).
Proof.
  unfold listener_resume. destruct (pc l) as [|counter].
  - rewrite read_all_inputs_spec. unfold flush_or_signal.
    destruct (1 <? 0 + length (port_inputs l)); simpl; by rewrite app_nil_r.
  - unfold flush_or_signal. by destruct (1 <? counter - 1).
Qed.

(** The consumer takes from the front of the buffer, or takes nothing. *)
Lemma consume_keeps (r : Receive Item) (c : Channel Item) :
  r = receive_msg (buffer (listener c)) ∨ r = receive_msg_resume (buffer (listener c)) →
  let c' := consume r c in
  returned c' ++ buffer (listener c') = returned c ++ buffer (listener c) ∧
  port_inputs (listener c') = port_inputs (listener c) ∧
  (raised c' = raised c ∨ raised c' = Some IndexError ∧ buffer (listener c) = []).
Proof.
  unfold receive_msg, receive_msg_resume.
  destruct (buffer (listener c)) as [|m rest] eqn:Hb; simpl; intros [-> | ->]; simpl;
    rewrite ?Hb, <- ?app_assoc; repeat split; auto.
Qed.

(** What holds of the listener and its consumer whatever happens:
    nothing is lost and nothing overtakes, and the consumer raises
    nothing but the [IndexError] of a [pop] on an empty buffer. *)
Lemma run_channel_invariant (ops : list (ChannelOp Item)) :
  let c := run_channel ops in
  returned c ++ buffer (listener c) ++ concat (port_inputs (listener c)) = arrived ops ∧
  (raised c = None ∨ raised c = Some IndexError).
Proof.
  induction ops as [|op ops IH] using rev_ind; [split; [done|by left]|].
  cbv zeta in IH. destruct IH as [Harr Hr].
  rewrite run_channel_snoc, arrived_snoc. cbv zeta.
  remember (run_channel ops) as c eqn:Hc. clear Hc. rewrite <- Harr.
  destruct op as [items| |]; simpl.
  - split; [|done]. rewrite concat_app. simpl. by rewrite app_nil_r, <- !app_assoc.
  - rewrite app_nil_r. destruct (events c) as [|n]; [done|].
    pose proof (listener_resume_keeps (listener c)) as Hk.
    destruct (waiting c && (signals_sent (listener c) <? signals_sent _)).
    + match goal with |- context [consume ?r ?c0] =>
        destruct (consume_keeps r c0 (or_intror eq_refl)) as (H1 & H2 & H3) end.
      simpl in H1, H2, H3. rewrite app_assoc, H1, H2, <- app_assoc, Hk. split; [done|].
      destruct H3 as [->|[-> _]]; [done|by right].
    + simpl. by rewrite Hk.
  - rewrite app_nil_r. destruct (waiting c), (raised c) eqn:Hraised;
      try (split; [done|by rewrite ?Hraised]).
    match goal with |- context [consume ?r ?c0] =>
      destruct (consume_keeps r c0 (or_introl eq_refl)) as (H1 & H2 & H3) end.
    rewrite app_assoc, H1, H2, <- app_assoc. split; [done|].
    destruct H3 as [->|[-> _]]; [by rewrite Hraised; left|by right].
Qed.

(** The buffer is not tested again after the wake-up: a call resumed
    while the buffer is empty raises [IndexError]. *)
Lemma receive_msg_resume_empty : receive_msg_resume (@nil Item) = Raises IndexError.
Proof. done. Qed.

(** C8: receive-with-block returns the oldest message of a non-empty
    buffer without suspending, suspends on an empty one, and, whatever
    the order of arrivals, port events and calls, loses no message and
    returns none out of order.  But it does not always return a message
    after the wake signal: the listener buffers the inputs at the first
    port event of a burst and signals only after the last one, so the
    consumer can empty the buffer in between, suspend, and be woken by a
    signal that brings nothing; the [pop] of line 65 then raises
    [IndexError].  Here two inputs arrive together. *)
Theorem receive_woken_on_empty_buffer :
  (∀ (m : Item) rest, receive_msg (m :: rest) = Returns m rest) ∧
  (receive_msg (@nil Item) = Suspends) ∧
  (∀ ops : list (ChannelOp Item),
     let c := run_channel ops in
     returned c ++ buffer (listener c) ++ concat (port_inputs (listener c)) = arrived ops ∧
     (raised c = None ∨ raised c = Some IndexError)) ∧
  (∀ a b : Item,
     let ops := [Arrive [a]; Arrive [b]; PortEvent; CallReceive; CallReceive; CallReceive] in
     let suspended := run_channel ops in
     let woken := run_channel (ops ++ [PortEvent]) in
     returned suspended = [a; b] ∧ waiting suspended = true ∧ raised suspended = None ∧
     signals_sent (listener suspended) = 0 ∧
     signals_sent (listener woken) = 1 ∧
     returned woken = [a; b] ∧ raised woken = Some IndexError).
Proof.
  split; [done|]. split; [done|]. split; [apply run_channel_invariant|].
  intros a b. repeat split.
Qed.

End ListenerFacts.

(** An instance: an episode of three inputs after an episode of one. *)
Lemma listener_episode_witness :
  let l := Listener.wake_episode [["a"; "b"]; ["c"]; ["d"]]
             (Listener.wake_episode [["z"]] Listener.PortListener_init) in
  Listener.signals_sent l = 2 ∧ Listener.buffer l = ["z"; "a"; "b"; "c"; "d"].
Proof.
  pose proof (listener_episode (Listener.wake_episode [["z"]] Listener.PortListener_init)
                [["a"; "b"]; ["c"]; ["d"]] eq_refl eq_refl) as H.
  simpl in H. destruct H as (Hs & Hb & _); [lia|]. split; [exact Hs|exact Hb].
Defined.

(** ** The create-and-keep handlers *)

Section KeepFacts.

Import Memory Netstack.

Variable K : Imports.

(** The loop that writes a slice: its trace, its effect on the memory,
    and what it leaves alone. *)
Lemma write_indexed_log (pid addr : nat) (pos : nat → nat) (val : nat → Z)
  (indices : list nat) (w : World) :
  let w' := foldl (λ w i, set_array_value pid addr (pos i) (val i) w) w indices in
  log w' = log w ++ map (λ i, SetArrayValue pid addr (pos i) (val i)) indices ∧
  physical_memory w' = physical_memory w ∧
  peer_buffer w' = peer_buffer w ∧
  processor_buffer w' = processor_buffer w.
Proof.
  revert w. induction indices as [|i indices IH]; intros w; simpl.
  - by rewrite app_nil_r.
  - destruct (IH (set_array_value pid addr (pos i) (val i) w)) as (-> & -> & -> & ->).
    simpl. by rewrite <- app_assoc.
Qed.

Lemma write_indexed_lookup (pid addr base n : nat) (val : nat → Z) (w : World) (j : nat) :
  j < n →
  shared_mem (foldl (λ w i, set_array_value pid addr (base + i) (val i) w) w (seq 0 n))
    !! (pid, addr, base + j) = Some (val j).
Proof.
  induction n as [|n IH]; [lia|]. intros Hj.
  rewrite seq_S, foldl_app. simpl.
  destruct (decide (j = n)) as [->|Hne].
  - apply lookup_insert_eq.
  - rewrite lookup_insert_ne by (intros [= ?]; lia). apply IH. lia.
Qed.

Lemma write_keep_slice_log (pid addr pair_index : nat) (gen_duration bell : Z) (w : World) :
  log (write_keep_slice K pid addr pair_index gen_duration bell w) =
  log w ++ map (λ i, SetArrayValue pid addr (SER_RESPONSE_KEEP_LEN K * pair_index + i)
                       (keep_slice_value K gen_duration bell i))
               (seq 0 (SER_RESPONSE_KEEP_LEN K)).
Proof. apply write_indexed_log. Qed.

Lemma programs_app (l1 l2 : list Action) : programs (l1 ++ l2) = programs l1 ++ programs l2.
Proof. apply omap_app. Qed.

Lemma array_writes_app (l1 l2 : list Action) :
  array_writes (l1 ++ l2) = array_writes l1 ++ array_writes l2.
Proof. apply omap_app. Qed.

Lemma programs_writes (pid addr : nat) (pos : nat → nat) (val : nat → Z) (indices : list nat) :
  programs (map (λ i, SetArrayValue pid addr (pos i) (val i)) indices) = [].
Proof. induction indices; done. Qed.

Lemma array_writes_writes (pid addr : nat) (pos : nat → nat) (val : nat → Z) (indices : list nat) :
  array_writes (map (λ i, SetArrayValue pid addr (pos i) (val i)) indices) =
  map (λ i, (pid, addr, pos i, val i)) indices.
Proof. induction indices as [|i indices IH]; [done|]. simpl. by f_equal. Qed.

(** The next turn of the [for] of the creator puts at most one request
    to the EGP and touches nothing else. *)
Lemma ck_for_effect (fr : CkFrame) (pair_index : nat) (w : World) :
  let st := ck_for fr pair_index w in
  shared_mem (fst st) = shared_mem w ∧
  ∃ tail, log (fst st) = log w ++ tail ∧ programs tail = [] ∧ array_writes tail = [].
Proof.
  unfold ck_for, ck_try_allocate.
  destruct (pair_index <? ck_num_pairs fr); simpl.
  - destruct (allocate_comm (physical_memory w)) as [[phys_id pm]|[]]; simpl;
      (split; [done|]); (by eexists [_]) || (exists []; by rewrite app_nil_r).
  - split; [done|]. exists []. by rewrite app_nil_r.
Qed.

Lemma rck_for_effect (fr : RckFrame) (pair_index : nat) (w : World) :
  programs (log (fst (rck_for fr pair_index w))) = programs (log w).
Proof.
  unfold rck_for, rck_try_allocate.
  destruct (pair_index <? rck_num_pairs fr); simpl; [|done].
  destruct (allocate_comm (physical_memory w)) as [[phys_id pm]|[]]; simpl; try done.
  by rewrite programs_app, app_nil_r.
Qed.

(** What the creator does from the delivery of a pair on, when [int]
    gives the duration [gen_duration]. *)
Lemma ck_deliver_log (fr : CkFrame) (now : float) (pair_index phys_id : nat)
  (result : ResCreateAndKeep) (w : World) (gen_duration : Z) :
  gen_duration_us_int now (ck_start_time fr) = Ok gen_duration →
  let req := ck_req fr in
  let w' := fst (ck_deliver K fr now pair_index phys_id result w) in
  ∃ tail,
    log w' =
      log w ++
      MapVirtId (pid req) (get_array_value (pid req) (qubit_array_addr req) pair_index w) phys_id ::
      map (λ i, SetArrayValue (pid req) (result_array_addr req)
                  (SER_RESPONSE_KEEP_LEN K * pair_index + i)
                  (keep_slice_value K gen_duration
                     (BellIndex_value K (bell_state result)) i))
          (seq 0 (SER_RESPONSE_KEEP_LEN K)) ++
      SendProcessorMsg (Text "wrote to array") :: tail ∧
    programs tail = [] ∧ array_writes tail = [].
Proof.
  intros Hg req w'. subst w'. unfold ck_deliver. fold req. rewrite Hg.
  match goal with |- context [ck_for fr _ ?w1] =>
    destruct (ck_for_effect fr (S pair_index) w1) as (_ & tail & Htail & Hp & Ha) end.
  exists tail. split; [|done]. rewrite Htail. simpl.
  rewrite write_keep_slice_log. simpl. by rewrite <- !app_assoc.
Qed.

(** When [int] raises, the qubit has been mapped and nothing else is
    done. *)
Lemma ck_deliver_raises (fr : CkFrame) (now : float) (pair_index phys_id : nat)
  (result : ResCreateAndKeep) (w : World) (e : Exn) :
  gen_duration_us_int now (ck_start_time fr) = Raise e →
  ck_deliver K fr now pair_index phys_id result w =
  (act (MapVirtId (pid (ck_req fr))
          (get_array_value (pid (ck_req fr)) (qubit_array_addr (ck_req fr)) pair_index w)
          phys_id) w,
   CkRaised e).
Proof. intros He. unfold ck_deliver. by rewrite He. Qed.

(** In both cases the delivery starts with the mapping and runs no
    program. *)
Lemma ck_deliver_mapped (fr : CkFrame) (now : float) (pair_index phys_id : nat)
  (result : ResCreateAndKeep) (w : World) :
  ∃ tail,
    log (fst (ck_deliver K fr now pair_index phys_id result w)) =
      log w ++
      MapVirtId (pid (ck_req fr))
        (get_array_value (pid (ck_req fr)) (qubit_array_addr (ck_req fr)) pair_index w)
        phys_id :: tail ∧
    programs tail = [].
Proof.
  destruct (gen_duration_us_int now (ck_start_time fr)) as [g|e] eqn:Hg.
  - destruct (ck_deliver_log fr now pair_index phys_id result w g Hg) as (tail & -> & Hp & _).
    eexists. split; [reflexivity|].
    rewrite programs_app, programs_writes. simpl. exact Hp.
  - rewrite (ck_deliver_raises _ _ _ _ _ _ e Hg). by exists [].
Qed.

Lemma run_cons {Pc : Type} (resume : float → Signal → Pc → World → World * Pc)
  (s : Stimulus) (stimuli : list Stimulus) (st : World * Pc) :
  run resume (s :: stimuli) st = run resume stimuli (step resume st s).
Proof. done. Qed.

Lemma env_step_log (s : Stimulus) (w : World) : log (env_step s w) = log w.
Proof.
  destruct s as [id| | |]; simpl; try done.
  by destruct (free id (physical_memory w)).
Qed.

(** The receiver never hands a program to the quantum processor. *)
Lemma receive_ck_resume_programs (fr : RckFrame) (now : float) (sig : Signal) (pc : RckPc) (w : World) :
  programs (log (fst (receive_ck_resume K fr now sig pc w))) = programs (log w).
Proof.
  destruct pc as [i|i phys_id| |e], sig as [| | |result|result|]; simpl; try done.
  - unfold rck_try_allocate.
    destruct (allocate_comm (physical_memory w)) as [[p pm]|[]]; simpl; try done.
    by rewrite programs_app, app_nil_r.
  - unfold rck_deliver. destruct (gen_duration_us_int now (rck_start_time fr)) as [g|e].
    + rewrite rck_for_effect. simpl.
      rewrite programs_app, write_keep_slice_log, programs_app, programs_writes. simpl.
      rewrite programs_app. simpl. by rewrite !app_nil_r.
    + simpl. rewrite programs_app. simpl. by rewrite app_nil_r.
Qed.

Lemma receive_ck_run_programs (fr : RckFrame) (stimuli : list Stimulus) (st : World * RckPc) :
  programs (log (fst (run (receive_ck_resume K fr) stimuli st))) = programs (log (fst st)).
Proof.
  revert st. induction stimuli as [|s stimuli IH]; intros st; [done|].
  rewrite run_cons, IH.
  destruct s; simpl; try (by rewrite ?env_step_log).
  - by destruct (free id (physical_memory st.1)).
  - apply receive_ck_resume_programs.
Qed.


Lemma ck_for_pc (fr : CkFrame) (n : nat) (w : World) (now : float) :
  create_ck_resume K fr now SigProgramDone (snd (ck_for fr n w)) (fst (ck_for fr n w)) =
  ck_for fr n w.
Proof.
  unfold ck_for, ck_try_allocate.
  destruct (n <? ck_num_pairs fr); [|done].
  by destruct (allocate_comm (physical_memory w)) as [[phys_id pm]|[]].
Qed.

Lemma ck_deliver_pc (fr : CkFrame) (t now : float) (pair_index phys_id : nat)
  (result : ResCreateAndKeep) (w : World) :
  create_ck_resume K fr now SigProgramDone
    (snd (ck_deliver K fr t pair_index phys_id result w))
    (fst (ck_deliver K fr t pair_index phys_id result w)) =
  ck_deliver K fr t pair_index phys_id result w.
Proof.
  unfold ck_deliver. destruct (gen_duration_us_int t (ck_start_time fr)); [|done].
  apply ck_for_pc.
Qed.

(** C1: on the create-and-keep path the initiator, resumed with the
    result of the EGP, runs the correction selected by the reported Bell
    index (nothing for B00, an X rotation by pi for B01, a Z rotation by
    pi for B10, X then Z for B11) and only then maps and delivers the
    qubit; the receiver-side handler never runs a program, whatever is
    reported to it. *)
Theorem bell_correction_on_creator_only (fr : CkFrame) (rfr : RckFrame) :
  (∀ (t1 t2 : float) (pair_index phys_id : nat) (result : ResCreateAndKeep) (w : World),
     let pi_rotation g := {| instruction := g; qubit_indices := [0]; angle := PI |} in
     let correction :=
       match bell_state result with
       | B00 => []
       | B01 => [ExecuteProgram [pi_rotation INSTR_ROT_X]]
       | B10 => [ExecuteProgram [pi_rotation INSTR_ROT_Z]]
       | B11 => [ExecuteProgram [pi_rotation INSTR_ROT_X; pi_rotation INSTR_ROT_Z]]
       end in
     let st := run (create_ck_resume K fr)
                 [Fire t1 (SigResCreateAndKeep result); Fire t2 SigProgramDone]
                 (w, CkAwaitEgp pair_index phys_id) in
     ∃ tail,
       log (fst st) =
         log w ++ correction ++
         MapVirtId (pid (ck_req fr))
           (get_array_value (pid (ck_req fr)) (qubit_array_addr (ck_req fr)) pair_index w)
           phys_id :: tail ∧
       programs tail = []) ∧
  (∀ (now : float) (req : NetstackReceiveRequest) (request : ReqCreateBase) (w : World),
     programs (log (fst (handle_receive_ck_request now req request w))) = programs (log w)) ∧
  (∀ (stimuli : list Stimulus) (st : World * RckPc),
     programs (log (fst (run (receive_ck_resume K rfr) stimuli st))) = programs (log (fst st))).
Proof.
  split; [|split].
  - intros t1 t2 pair_index phys_id result w pi_rotation correction st.
    subst st correction. unfold run. cbn [foldl step fst snd].
    assert (create_ck_resume K fr t1 (SigResCreateAndKeep result)
              (CkAwaitEgp pair_index phys_id) w =
            match bell_state result with
            | B00 => ck_deliver K fr t1 pair_index phys_id result w
            | B01 => (act (ExecuteProgram [rot INSTR_ROT_X]) w,
                      CkAwaitProgram pair_index phys_id result)
            | B10 => (act (ExecuteProgram [rot INSTR_ROT_Z]) w,
                      CkAwaitProgram pair_index phys_id result)
            | B11 => (act (ExecuteProgram [rot INSTR_ROT_X; rot INSTR_ROT_Z]) w,
                      CkAwaitProgram pair_index phys_id result)
            end) as -> by done.
    destruct (bell_state result) eqn:Hb; cbn [fst snd create_ck_resume].
    + rewrite ck_deliver_pc. apply ck_deliver_mapped.
    + destruct (ck_deliver_mapped fr t2 pair_index phys_id result
                  (act (ExecuteProgram [rot INSTR_ROT_X]) w)) as (tail & -> & Hp).
      simpl. rewrite <- app_assoc. eexists. split; [reflexivity|exact Hp].
    + destruct (ck_deliver_mapped fr t2 pair_index phys_id result
                  (act (ExecuteProgram [rot INSTR_ROT_Z]) w)) as (tail & -> & Hp).
      simpl. rewrite <- app_assoc. eexists. split; [reflexivity|exact Hp].
    + destruct (ck_deliver_mapped fr t2 pair_index phys_id result
                  (act (ExecuteProgram [rot INSTR_ROT_X; rot INSTR_ROT_Z]) w))
        as (tail & -> & Hp).
      simpl. rewrite <- app_assoc. eexists. split; [reflexivity|exact Hp].
  - intros now req request w. unfold handle_receive_ck_request.
    destruct (req_type request); try done. apply rck_for_effect.
  - apply receive_ck_run_programs.
Qed.

(** [int] gives the truncation of a finite float and raises on the
    others. *)
Lemma int_of_float_spec (x : float) :
  match Prim2SF x with
  | S754_infinity _ => int_of_float x = Raise OverflowError
  | S754_nan => int_of_float x = Raise ValueError
  | finite => ∃ g, int_of_float x = Ok g ∧ truncation_of finite g
  end.
Proof.
  unfold int_of_float. destruct (Prim2SF x) as [s|s| |s m e]; try done.
  - by exists 0%Z.
  - cbv zeta.
    set (magnitude := match e with
                      | Z.neg p => Z.pos m ÷ 2 ^ Z.pos p
                      | _ => Z.pos m * 2 ^ e
                      end%Z).
    exists (if s then (- magnitude)%Z else magnitude). split; [done|].
    assert (0 ≤ magnitude ∧
            magnitude * 2 ^ Z.max 0 (- e) ≤ Z.pos m * 2 ^ Z.max 0 e
              < (magnitude + 1) * 2 ^ Z.max 0 (- e))%Z as [Hpos Hbounds].
    { subst magnitude. destruct e as [|p|p].
      - change (0 `max` (- 0))%Z with 0%Z. change (0 `max` 0)%Z with 0%Z.
        rewrite !Z.pow_0_r. lia.
      - rewrite Z.max_l, Z.max_r by lia. rewrite Z.pow_0_r.
        assert (0 < 2 ^ Z.pos p)%Z by (apply Z.pow_pos_nonneg; lia). nia.
      - rewrite Z.max_r, Z.max_l by lia. change (- Z.neg p)%Z with (Z.pos p).
        rewrite Z.pow_0_r.
        assert (0 < 2 ^ Z.pos p)%Z as Hd by (apply Z.pow_pos_nonneg; lia).
        rewrite Z.quot_div_nonneg by lia.
        pose proof (Z.mul_div_le (Z.pos m) (2 ^ Z.pos p) Hd).
        pose proof (Z.mul_succ_div_gt (Z.pos m) (2 ^ Z.pos p) Hd).
        pose proof (Z.div_pos (Z.pos m) (2 ^ Z.pos p)). lia. }
    unfold truncation_of. clearbody magnitude.
    replace (Z.abs (if s then (- magnitude)%Z else magnitude)) with magnitude
      by (destruct s; lia).
    split; [destruct s; lia|done].
Qed.

(** A float has at most one truncation. *)
Lemma truncation_of_unique (x : spec_float) (g g' : Z) :
  truncation_of x g → truncation_of x g' → g = g'.
Proof.
  destruct x as [s|s| |s m e]; simpl; try done; [congruence|].
  intros [Hs [Hlo Hhi]] [Hs' [Hlo' Hhi']].
  assert (0 < 2 ^ Z.max 0 (- e))%Z as Hd by (apply Z.pow_pos_nonneg; lia).
  assert (Z.abs g = Z.abs g') by nia.
  destruct s; lia.
Qed.

(** C6: when the creator delivers pair [i] of a request that started at
    time [t0] (resumed at time [now] by the EGP result when no correction
    is needed, or by the end of the correction program), the array writes
    it makes are exactly those of the slice at offsets
    [slice_len * i + j] for [j] in [0, slice_len): the goodness field
    holds the integer truncation of the float [(now - t0) / 1000], the
    Bell-state field the reported Bell index, every other field -1; and
    that is what the memory then holds.  This is so when that float is
    finite; on an infinity or a NaN [int] raises and nothing is
    written. *)
Theorem create_ck_result_slice (t0 now : float) (req : NetstackCreateRequest)
  (request : ReqCreateBase) (sig : Signal) (pc : CkPc) (i phys_id : nat)
  (result : ResCreateAndKeep) (w : World) :
  SER_RESPONSE_KEEP_IDX_GOODNESS K ≠ SER_RESPONSE_KEEP_IDX_BELL_STATE K →
  (pc = CkAwaitEgp i phys_id ∧ sig = SigResCreateAndKeep result ∧ bell_state result = B00) ∨
  (pc = CkAwaitProgram i phys_id result ∧ sig = SigProgramDone) →
  let st := create_ck_resume K (ck_frame t0 req request) now sig pc w in
  let slice_len := SER_RESPONSE_KEEP_LEN K in
  let microseconds := Prim2SF (PrimFloat.div (PrimFloat.sub now t0) 1000%float) in
  let field (goodness : Z) (j : nat) : Z :=
    if decide (j = SER_RESPONSE_KEEP_IDX_GOODNESS K)
    then goodness
    else if decide (j = SER_RESPONSE_KEEP_IDX_BELL_STATE K)
         then BellIndex_value K (bell_state result)
         else (-1)%Z in
  match microseconds with
  | S754_infinity _ =>
      snd st = CkRaised OverflowError ∧ array_writes (log (fst st)) = array_writes (log w)
  | S754_nan =>
      snd st = CkRaised ValueError ∧ array_writes (log (fst st)) = array_writes (log w)
  | _ =>
      ∃ goodness,
        truncation_of microseconds goodness ∧
        (∀ g, truncation_of microseconds g → g = goodness) ∧
        array_writes (log (fst st)) =
          array_writes (log w) ++
          map (λ j, (pid req, result_array_addr req, slice_len * i + j, field goodness j))
              (seq 0 slice_len) ∧
        ∀ j, j < slice_len →
             shared_mem (fst st) !! (pid req, result_array_addr req, slice_len * i + j) =
             Some (field goodness j)
  end.
Proof.
  intros Hne Hcase st slice_len microseconds field.
  assert (st = ck_deliver K (ck_frame t0 req request) now i phys_id result w) as ->.
  { subst st. destruct Hcase as [(-> & -> & Hb)|(-> & ->)]; simpl; [by rewrite Hb|done]. }
  assert (∀ e, gen_duration_us_int now t0 = Raise e →
            snd (ck_deliver K (ck_frame t0 req request) now i phys_id result w) = CkRaised e ∧
            array_writes (log (fst (ck_deliver K (ck_frame t0 req request) now i phys_id
                                      result w))) = array_writes (log w)) as Hraise.
  { intros e He. rewrite (ck_deliver_raises (ck_frame t0 req request) _ _ _ _ _ e He).
    simpl. rewrite array_writes_app. simpl. by rewrite app_nil_r. }
  assert (∀ g, gen_duration_us_int now t0 = Ok g → truncation_of microseconds g →
            ∃ goodness,
              truncation_of microseconds goodness ∧
              (∀ g, truncation_of microseconds g → g = goodness) ∧
              array_writes (log (fst (ck_deliver K (ck_frame t0 req request) now i phys_id
                                        result w))) =
                array_writes (log w) ++
                map (λ j, (pid req, result_array_addr req, slice_len * i + j,
                           field goodness j)) (seq 0 slice_len) ∧
              ∀ j, j < slice_len →
                   shared_mem (fst (ck_deliver K (ck_frame t0 req request) now i phys_id
                                      result w))
                     !! (pid req, result_array_addr req, slice_len * i + j) =
                   Some (field goodness j)) as Hok.
  { intros g Hg Htr. exists g. split; [done|]. split.
    { intros g' Hg'. by apply (truncation_of_unique microseconds). }
    assert (∀ j, keep_slice_value K g (BellIndex_value K (bell_state result)) j = field g j)
      as Hfield.
    { intros j. unfold keep_slice_value, field.
      destruct (Nat.eqb_spec j (SER_RESPONSE_KEEP_IDX_BELL_STATE K)) as [Hb|Hb];
        destruct (Nat.eqb_spec j (SER_RESPONSE_KEEP_IDX_GOODNESS K)) as [Hgd|Hgd];
        repeat case_decide; congruence. }
    split.
    - destruct (ck_deliver_log (ck_frame t0 req request) now i phys_id result w g Hg)
        as (tail & -> & _ & Ha).
      rewrite array_writes_app. f_equal. simpl.
      rewrite array_writes_app, array_writes_writes. simpl. rewrite Ha, app_nil_r.
      apply map_ext. intros j. by rewrite Hfield.
    - intros j Hj. unfold ck_deliver. simpl ck_start_time. rewrite Hg.
      match goal with |- context [ck_for ?fr ?n ?w1] =>
        destruct (ck_for_effect fr n w1) as (-> & _) end.
      simpl. unfold write_keep_slice.
      rewrite (write_indexed_lookup _ _ _ _
                 (keep_slice_value K g (BellIndex_value K (bell_state result)))) by done.
      by rewrite Hfield. }
  pose proof (int_of_float_spec (PrimFloat.div (PrimFloat.sub now t0) 1000%float)) as Hspec.
  fold (gen_duration_us_int now t0) in Hspec. fold microseconds in Hspec.
  destruct microseconds as [s|s| |s m e].
  - destruct Hspec as (g & Hg & Htr). by apply (Hok g).
  - by apply Hraise.
  - by apply Hraise.
  - destruct Hspec as (g & Hg & Htr). by apply (Hok g).
Qed.

End KeepFacts.

(** An instance with clocks that are not whole: pair 1 of a request
    started at 0.3 ns is delivered at 1000.3 ns after a correction for
    B11; the difference of the two floats is a little more than 1000,
    and the goodness is 1. *)
Lemma create_ck_result_slice_witness :
  let w' := fst (Netstack.create_ck_resume Netstack.example_imports
                   (Netstack.ck_frame 0.3%float Netstack.example_create
                      (Netstack.example_request Netstack.CreateAndKeep 2))
                   1000.3%float Netstack.SigProgramDone
                   (Netstack.CkAwaitProgram 1 0 {| Netstack.bell_state := Netstack.B11 |})
                   (Netstack.example_world Netstack.full_pool)) in
  Netstack.shared_mem w' !! (0, 2, 17) = Some 1%Z ∧
  Netstack.shared_mem w' !! (0, 2, 19) = Some 3%Z ∧
  Netstack.shared_mem w' !! (0, 2, 10) = Some (-1)%Z.
Proof.
  pose proof (create_ck_result_slice Netstack.example_imports 0.3%float 1000.3%float
                Netstack.example_create (Netstack.example_request Netstack.CreateAndKeep 2)
                Netstack.SigProgramDone
                (Netstack.CkAwaitProgram 1 0 {| Netstack.bell_state := Netstack.B11 |})
                1 0 {| Netstack.bell_state := Netstack.B11 |}
                (Netstack.example_world Netstack.full_pool)) as H.
  cbv zeta in H.
  assert (Prim2SF (PrimFloat.div (PrimFloat.sub 1000.3 0.3) 1000) =
          S754_finite false 4503599627370496 (-52)) as Hq by (vm_compute; reflexivity).
  rewrite Hq in H.
  destruct H as (goodness & _ & Huniq & _ & Hmem).
  - simpl. lia.
  - right. split; reflexivity.
  - assert (goodness = 1%Z) as ->.
    { symmetry. apply Huniq. vm_compute. repeat split; discriminate. }
    split; [|split].
    + apply (Hmem 7). simpl. lia.
    + apply (Hmem 9). simpl. lia.
    + apply (Hmem 0). simpl. lia.
Defined.

(** ** The measure-directly handlers *)

Section MeasureFacts.

Import Memory Netstack.

Variable K : Imports.

Lemma processor_msgs_app (l1 l2 : list Action) :
  processor_msgs (l1 ++ l2) = processor_msgs l1 ++ processor_msgs l2.
Proof. apply omap_app. Qed.

Lemma processor_msgs_writes (pid addr : nat) (pos : nat → nat) (val : nat → Z)
  (indices : list nat) :
  processor_msgs (map (λ i, SetArrayValue pid addr (pos i) (val i)) indices) = [].
Proof. induction indices; done. Qed.

Lemma write_measure_slice_log (pid addr pair_index : nat) (result : ResMeasureDirectly)
  (w : World) :
  log (write_measure_slice K pid addr pair_index result w) =
  log w ++ map (λ i, SetArrayValue pid addr (SER_RESPONSE_MEASURE_LEN K * pair_index + i)
                       (measure_slice_value K result i))
               (seq 0 (SER_RESPONSE_MEASURE_LEN K)).
Proof. apply write_indexed_log. Qed.

(** The creator's loop over the pairs sends nothing to the processor. *)
Lemma create_md_write_processor_msgs (pid addr : nat) (pair_indices : list nat)
  (results : list ResMeasureDirectly) (w : World) :
  processor_msgs (log (fst (create_md_write K pid addr pair_indices results w))) =
  processor_msgs (log w).
Proof.
  revert w. induction pair_indices as [|i pair_indices IH]; intros w; simpl; [done|].
  destruct (results !! i) as [result|]; [|done].
  rewrite IH, write_measure_slice_log, processor_msgs_app, processor_msgs_writes.
  apply app_nil_r.
Qed.

(** The receiver's loop sends one message per pair. *)
Lemma receive_md_write_processor_msgs (pid addr : nat) (pair_indices : list nat)
  (results : list ResMeasureDirectly) (w : World) :
  Forall (λ i, i < length results) pair_indices →
  snd (receive_md_write K pid addr pair_indices results w) = None ∧
  processor_msgs (log (fst (receive_md_write K pid addr pair_indices results w))) =
  processor_msgs (log w) ++ replicate (length pair_indices) (Text "wrote to array").
Proof.
  revert w. induction pair_indices as [|i pair_indices IH]; intros w Hall; simpl.
  - by rewrite app_nil_r.
  - apply Forall_cons in Hall as [Hi Hall].
    destruct (lookup_lt_is_Some_2 results i Hi) as [result ->].
    destruct (IH (send_processor_msg (Text "wrote to array")
                    (write_measure_slice K pid addr i result w)) Hall) as [-> ->].
    split; [done|]. simpl.
    rewrite processor_msgs_app, write_measure_slice_log, processor_msgs_app,
      processor_msgs_writes, app_nil_r. simpl. by rewrite <- app_assoc.
Qed.

Lemma create_md_write_ok (pid addr : nat) (pair_indices : list nat)
  (results : list ResMeasureDirectly) (w : World) :
  Forall (λ i, i < length results) pair_indices →
  snd (create_md_write K pid addr pair_indices results w) = None.
Proof.
  revert w. induction pair_indices as [|i pair_indices IH]; intros w Hall; simpl; [done|].
  apply Forall_cons in Hall as [Hi Hall].
  destruct (lookup_lt_is_Some_2 results i Hi) as [result ->]. by apply IH.
Qed.

(** Before the last result, neither handler writes to the array or
    notifies the processor: a result is only appended to [results]. *)
Lemma md_buffers_before_last (creq : NetstackCreateRequest) (rreq : NetstackReceiveRequest)
  (request : ReqCreateBase) (iter phys_id : nat) (results : list ResMeasureDirectly)
  (result : ResMeasureDirectly) (w : World) :
  S iter < number request →
  log (fst (create_md_resume K creq request (SigResMeasureDirectly result)
              (MdAwaitEgp iter phys_id results) w)) = log w ∧
  log (fst (receive_md_resume K rreq request (SigResMeasureDirectly result)
              (MdAwaitEgp iter phys_id results) w)) = log w.
Proof.
  intros Hlt. simpl.
  unfold create_md_for, receive_md_for, qdevice_allocate_comm.
  destruct (Nat.ltb_spec (S iter) (number request)); [|lia].
  destruct (free phys_id (physical_memory w)) as [pm|e]; [|done]. simpl.
  by destruct (allocate_comm pm) as [[p pm']|e].
Qed.

(** With the last result, the creator writes every slice and then sends
    the processor one message, whatever the number of pairs; the
    receiver sends one message per pair. *)
Lemma md_notifications_after_last (creq : NetstackCreateRequest) (rreq : NetstackReceiveRequest)
  (request : ReqCreateBase) (iter phys_id : nat) (results : list ResMeasureDirectly)
  (result : ResMeasureDirectly) (w : World) :
  S iter = number request → length results = iter →
  phys_id ∈ allocated_ids (physical_memory w) →
  let cst := create_md_resume K creq request (SigResMeasureDirectly result)
               (MdAwaitEgp iter phys_id results) w in
  let rst := receive_md_resume K rreq request (SigResMeasureDirectly result)
               (MdAwaitEgp iter phys_id results) w in
  snd cst = MdReturned ∧
  processor_msgs (log (fst cst)) = processor_msgs (log w) ++ [Text "wrote to array"] ∧
  snd rst = MdReturned ∧
  processor_msgs (log (fst rst)) =
    processor_msgs (log w) ++ replicate (number request) (Text "wrote to array").
Proof.
  intros Hlast Hlen Hin cst rst. subst cst rst. simpl.
  unfold free. rewrite bool_decide_eq_true_2 by done.
  unfold create_md_for, receive_md_for.
  destruct (Nat.ltb_spec (S iter) (number request)); [lia|].
  assert (Forall (λ i, i < length (results ++ [result])) (seq 0 (number request))) as Hall.
  { apply Forall_forall. intros i Hi%elem_of_seq. rewrite length_app. simpl. lia. }
  match goal with |- context [create_md_write K ?p ?a ?ixs ?rs ?w1] =>
    pose proof (create_md_write_ok p a ixs rs w1 Hall) as Hc;
    pose proof (create_md_write_processor_msgs p a ixs rs w1) as Hcm;
    destruct (create_md_write K p a ixs rs w1) as [w2 [e|]]; [discriminate|] end.
  match goal with |- context [receive_md_write K ?p ?a ?ixs ?rs ?w1] =>
    destruct (receive_md_write_processor_msgs p a ixs rs w1 Hall) as [Hr Hrm];
    destruct (receive_md_write K p a ixs rs w1) as [w3 [e|]]; [discriminate|] end.
  simpl in *. rewrite processor_msgs_app, Hcm, Hrm, length_seq. done.
Qed.

End MeasureFacts.

(** ** Allocation in the handlers *)

Section AllocationFacts.

Import Memory Netstack.

Variable K : Imports.

(** The create-and-keep handlers, resumed by SIGNAL_MEMORY_FREED, try
    again: with a free communication qubit they take the lowest one and
    go on, without one they wait for the next signal. *)
Lemma ck_retry (fr : CkFrame) (rfr : RckFrame) (now : float) (i : nat) (w : World) :
  create_ck_resume K fr now SIGNAL_MEMORY_FREED (CkAwaitMemoryFreed i) w =
    match allocate_comm (physical_memory w) with
    | Ok (phys_id, pm) =>
        (act (EgpPut (create_remote_node_id (ck_req fr)) (ReqCreate (ck_request fr)))
           (set_physical_memory pm w), CkAwaitEgp i phys_id)
    | Raise _ => (w, CkAwaitMemoryFreed i)
    end ∧
  receive_ck_resume K rfr now SIGNAL_MEMORY_FREED (RckAwaitMemoryFreed i) w =
    match allocate_comm (physical_memory w) with
    | Ok (phys_id, pm) =>
        (act (EgpPut (recv_remote_node_id (rck_req rfr))
                (ReqReceive (recv_remote_node_id (rck_req rfr))))
           (set_physical_memory pm w), RckAwaitEgp i phys_id)
    | Raise _ => (w, RckAwaitMemoryFreed i)
    end.
Proof.
  simpl. unfold ck_try_allocate, rck_try_allocate.
  destruct (allocate_comm (physical_memory w)) as [[phys_id pm]|e] eqn:Ha; [done|].
  by rewrite (alloc_only_AllocError CommSlot _ _ Ha).
Qed.

Lemma ck_for_never_raises (fr : CkFrame) (n : nat) (w : World) (e : Exn) :
  snd (ck_for fr n w) ≠ CkRaised e.
Proof.
  unfold ck_for, ck_try_allocate. destruct (n <? ck_num_pairs fr); [|done].
  destruct (allocate_comm (physical_memory w)) as [[phys_id pm]|e'] eqn:Ha; [done|].
  by rewrite (alloc_only_AllocError CommSlot _ _ Ha).
Qed.

(** [int] does not raise [AllocError]. *)
Lemma gen_duration_not_AllocError (now start_time : float) :
  gen_duration_us_int now start_time ≠ Raise AllocError.
Proof.
  unfold gen_duration_us_int, int_of_float. by destruct (Prim2SF _).
Qed.

(** [AllocError] never leaves the creator's create-and-keep handler. *)
Lemma create_ck_never_raises (now : float) (req : NetstackCreateRequest) (request : ReqCreateBase)
  (w : World) (stimuli : list Stimulus) :
  snd (run (create_ck_resume K (ck_frame now req request)) stimuli
         (handle_create_ck_request now req request w)) ≠ CkRaised AllocError.
Proof.
  unfold handle_create_ck_request.
  generalize (ck_for_never_raises (ck_frame now req request) 0 w AllocError).
  generalize (ck_for (ck_frame now req request) 0 w) as st.
  generalize (ck_frame now req request) as fr.
  induction stimuli as [|s stimuli IH]; intros fr st Hst; [apply Hst|].
  rewrite run_cons. apply IH.
  assert (∀ t i p r w1, snd (ck_deliver K fr t i p r w1) ≠ CkRaised AllocError) as Hdeliver.
  { intros t i p r w1. unfold ck_deliver.
    pose proof (gen_duration_not_AllocError t (ck_start_time fr)) as Hg.
    destruct (gen_duration_us_int t (ck_start_time fr)) as [g|e'].
    - apply ck_for_never_raises.
    - simpl. congruence. }
  destruct s as [id|msgs|msgs|t sig]; try apply Hst.
  destruct st as [w1 pc]. simpl in *.
  destruct pc as [i|i p|i p r| |e0], sig as [| | |r'|r'|]; simpl;
    try apply Hst; try done.
  - destruct (ck_retry fr {| rck_req := example_receive; rck_num_pairs := 0;
                             rck_start_time := t |} t i w1) as [Hr _].
    simpl in Hr. rewrite Hr. by destruct (allocate_comm (physical_memory w1)) as [[? ?]|?].
  - destruct (bell_state r'); try done; apply Hdeliver.
Qed.

(** The measure-directly handlers have no such loop: whenever no
    communication qubit is free at their first [allocate_comm], the
    exception leaves the handler. *)
Lemma md_raises_when_exhausted (creq : NetstackCreateRequest) (rreq : NetstackReceiveRequest)
  (request : ReqCreateBase) (w : World) :
  allocate_comm (physical_memory w) = Raise AllocError → 0 < number request →
  req_type request = MeasureDirectly →
  snd (handle_create_md_request K creq request w) = MdRaised AllocError ∧
  snd (handle_receive_md_request K rreq request w) = MdRaised AllocError.
Proof.
  intros Ha Hn Hty. unfold handle_create_md_request, handle_receive_md_request,
    create_md_for, receive_md_for, qdevice_allocate_comm. rewrite Hty.
  destruct (Nat.ltb_spec 0 (number request)); [|lia]. simpl. by rewrite Ha.
Qed.

(** C3, at a pool without a free communication qubit: the two
    measure-directly handlers let [AllocError] out at their first
    [allocate_comm], where the two create-and-keep handlers suspend on
    SIGNAL_MEMORY_FREED. *)
Theorem measure_directly_surfaces_alloc_error :
  let w := example_world full_pool in
  allocate_comm (physical_memory w) = Raise AllocError ∧
  snd (handle_create_md_request K example_create (example_request MeasureDirectly 1) w)
    = MdRaised AllocError ∧
  snd (handle_receive_md_request K example_receive (example_request MeasureDirectly 1) w)
    = MdRaised AllocError ∧
  snd (handle_create_ck_request 0%float example_create (example_request CreateAndKeep 1) w)
    = CkAwaitMemoryFreed 0 ∧
  snd (handle_receive_ck_request 0%float example_receive (example_request CreateAndKeep 1) w)
    = RckAwaitMemoryFreed 0.
Proof. vm_compute. repeat split. Qed.

End AllocationFacts.

Section Scenario.

Import Memory Netstack.

(** A pool of two qubits and a create-and-keep request of three pairs:
    the third allocation suspends, a signal without a free qubit leaves
    it suspended, and it succeeds at the first signal after a [free]. *)
Lemma ck_three_pairs_two_qubits :
  let request := example_request CreateAndKeep 3 in
  let fr := ck_frame 0%float example_create request in
  let go stimuli :=
    run (create_ck_resume example_imports fr) stimuli
      (handle_create_ck_request 0%float example_create request
         (example_world (PhysicalQuantumMemory_init 2))) in
  let two := [ Fire 1000%float (SigResCreateAndKeep {| bell_state := B00 |});
               Fire 2000%float (SigResCreateAndKeep {| bell_state := B01 |});
               Fire 2100%float SigProgramDone ] in
  snd (go two) = CkAwaitMemoryFreed 2 ∧
  snd (go (two ++ [Fire 2200%float SIGNAL_MEMORY_FREED])) = CkAwaitMemoryFreed 2 ∧
  snd (go (two ++ [ProcessorFrees 0])) = CkAwaitMemoryFreed 2 ∧
  snd (go (two ++ [ProcessorFrees 0; Fire 2300%float SIGNAL_MEMORY_FREED]))
    = CkAwaitEgp 2 0 ∧
  snd (go (two ++ [ProcessorFrees 0; Fire 2300%float SIGNAL_MEMORY_FREED;
                   Fire 3000%float (SigResCreateAndKeep {| bell_state := B00 |})]))
    = CkReturned.
Proof. vm_compute. repeat split. Qed.

End Scenario.

(** C4, at a request of two pairs on a pool of one qubit: both handlers
    write nothing before the second result; the creator then sends the
    processor one message for the two pairs, the receiver sends two. *)
Theorem create_md_notifies_once :
  let K := Netstack.example_imports in
  let request := Netstack.example_request Netstack.MeasureDirectly 2 in
  let w := Netstack.example_world (Memory.PhysicalQuantumMemory_init 1) in
  let r0 := {| Netstack.measurement_outcome := 0; Netstack.measurement_basis := 0;
               Netstack.md_bell_state := Netstack.B00 |} in
  let r1 := {| Netstack.measurement_outcome := 1; Netstack.measurement_basis := 1;
               Netstack.md_bell_state := Netstack.B01 |} in
  let creator stimuli :=
    Netstack.run (λ _, Netstack.create_md_resume K Netstack.example_create request) stimuli
      (Netstack.handle_create_md_request K Netstack.example_create request w) in
  let receiver stimuli :=
    Netstack.run (λ _, Netstack.receive_md_resume K Netstack.example_receive request) stimuli
      (Netstack.handle_receive_md_request K Netstack.example_receive request w) in
  let first := [Netstack.Fire 10%float (Netstack.SigResMeasureDirectly r0)] in
  let both := first ++ [Netstack.Fire 20%float (Netstack.SigResMeasureDirectly r1)] in
  Netstack.array_writes (Netstack.log (fst (creator first))) = [] ∧
  Netstack.array_writes (Netstack.log (fst (receiver first))) = [] ∧
  snd (creator both) = Netstack.MdReturned ∧
  length (Netstack.array_writes (Netstack.log (fst (creator both)))) = 20 ∧
  Netstack.processor_msgs (Netstack.log (fst (creator both)))
    = [Netstack.Text "wrote to array"] ∧
  snd (receiver both) = Netstack.MdReturned ∧
  length (Netstack.array_writes (Netstack.log (fst (receiver both)))) = 20 ∧
  Netstack.processor_msgs (Netstack.log (fst (receiver both)))
    = [Netstack.Text "wrote to array"; Netstack.Text "wrote to array"].
Proof. vm_compute. repeat split. Qed.

(** ** The breakpoint rendezvous *)

Section BreakpointFacts.

Import Netstack.

(** Splitting on what a handler finds in a buffer and on each test of a
    message. *)
Ltac bp_cases :=
  repeat first
    [ progress (cbn in * )
    | progress subst
    | progress unfold assert_content, got_peer_msg, got_processor_msg,
        bpc_after_peer_start, bpc_after_processor_end, bpc_after_peer_end,
        bpr_after_peer_start, bpr_after_processor_end, bpr_after_peer_end
    | match goal with
      | |- context [Listener.receive_msg ?b] => destruct b as [|? ?]
      | |- context [Listener.receive_msg_resume ?b] => destruct b as [|? ?]
      | |- context [decide (?c = Text ?s)] => destruct (decide (c = Text s))
      end ].

(** Closing a case: the log is the old one followed by the actions just
    done, and the progress is read off it. *)
Ltac bp_close n1 n2 n3 :=
  rewrite <- ?app_assoc; cbn;
  eexists; split; [reflexivity|]; cbn;
  first
    [ reflexivity
    | exists n1; split; [tauto|reflexivity]
    | exists n2; split; [tauto|reflexivity]
    | exists n3; split; [tauto|reflexivity]
    | eexists n1, _; split; [tauto|]; split; [reflexivity|]; split; [reflexivity|cbn; congruence]
    | eexists n2, _; split; [tauto|]; split; [reflexivity|]; split; [reflexivity|cbn; congruence]
    | eexists n3, _; split; [tauto|]; split; [reflexivity|]; split; [reflexivity|cbn; congruence] ].

Lemma creator_start (w : World) :
  let st := handle_breakpoint_create_request w in
  ∃ done, log (fst st) = log w ++ done ∧ bp_progress creator_script 1 3 5 (snd st) done.
Proof. unfold handle_breakpoint_create_request. bp_cases; bp_close 1 3 5. Qed.

Lemma receiver_start (w : World) :
  let st := handle_breakpoint_receive_request w in
  ∃ done, log (fst st) = log w ++ done ∧ bp_progress receiver_script 0 3 4 (snd st) done.
Proof.
  unfold handle_breakpoint_receive_request. bp_cases;
    try bp_close 0 3 4; exists []; by rewrite app_nil_r.
Qed.

Lemma creator_step (w0 w : World) (pc : BpPc) (done : list Action) (s : Stimulus) :
  log w = log w0 ++ done →
  bp_progress creator_script 1 3 5 pc done →
  let st := step (λ _, breakpoint_create_resume) (w, pc) s in
  ∃ done', log (fst st) = log w0 ++ done' ∧ bp_progress creator_script 1 3 5 (snd st) done'.
Proof.
  intros Hlog Hpc. destruct s as [id|msgs|msgs|t sig]; simpl;
    try (exists done; split; [by rewrite ?env_step_log|done]).
  { exists done. split; [|done]. by destruct (Memory.free id (physical_memory w)). }
  destruct pc as [| | | |e], sig; simpl; try (by exists done).
  all: bp_cases; rewrite ?Hlog; bp_close 1 3 5.
Qed.

Lemma receiver_step (w0 w : World) (pc : BpPc) (done : list Action) (s : Stimulus) :
  log w = log w0 ++ done →
  bp_progress receiver_script 0 3 4 pc done →
  let st := step (λ _, breakpoint_receive_resume) (w, pc) s in
  ∃ done', log (fst st) = log w0 ++ done' ∧ bp_progress receiver_script 0 3 4 (snd st) done'.
Proof.
  intros Hlog Hpc. destruct s as [id|msgs|msgs|t sig]; simpl;
    try (exists done; split; [by rewrite ?env_step_log|done]).
  { exists done. split; [|done]. by destruct (Memory.free id (physical_memory w)). }
  destruct pc as [| | | |e], sig; simpl; try (by exists done).
  all: bp_cases; rewrite ?Hlog; bp_close 0 3 4.
Qed.

Lemma creator_run (w0 : World) (stimuli : list Stimulus) (st : World * BpPc) (done : list Action) :
  log (fst st) = log w0 ++ done →
  bp_progress creator_script 1 3 5 (snd st) done →
  let st' := run (λ _, breakpoint_create_resume) stimuli st in
  ∃ done', log (fst st') = log w0 ++ done' ∧ bp_progress creator_script 1 3 5 (snd st') done'.
Proof.
  revert st done. induction stimuli as [|s stimuli IH]; intros [w pc] done Hlog Hpc; [by exists done|].
  cbn zeta. rewrite run_cons.
  destruct (creator_step w0 w pc done s Hlog Hpc) as (done1 & Hlog1 & Hpc1).
  exact (IH _ done1 Hlog1 Hpc1).
Qed.

Lemma receiver_run (w0 : World) (stimuli : list Stimulus) (st : World * BpPc) (done : list Action) :
  log (fst st) = log w0 ++ done →
  bp_progress receiver_script 0 3 4 (snd st) done →
  let st' := run (λ _, breakpoint_receive_resume) stimuli st in
  ∃ done', log (fst st') = log w0 ++ done' ∧ bp_progress receiver_script 0 3 4 (snd st') done'.
Proof.
  revert st done. induction stimuli as [|s stimuli IH]; intros [w pc] done Hlog Hpc; [by exists done|].
  cbn zeta. rewrite run_cons.
  destruct (receiver_step w0 w pc done s Hlog Hpc) as (done1 & Hlog1 & Hpc1).
  exact (IH _ done1 Hlog1 Hpc1).
Qed.

(** A handler that has not raised [AssertionError] has received only
    what the rendezvous expects. *)
Lemma progress_receipts (script : list Action) (n1 n2 n3 : nat) (pc : BpPc) (done : list Action) :
  (script = creator_script ∧ n1 = 1 ∧ n2 = 3 ∧ n3 = 5) ∨
  (script = receiver_script ∧ n1 = 0 ∧ n2 = 3 ∧ n3 = 4) →
  bp_progress script n1 n2 n3 pc done →
  receipts done `prefix_of` expected_receipts ∨ pc = BpRaised AssertionError.
Proof.
  intros Hs Hpc.
  assert (∀ n, n = n1 ∨ n = n2 ∨ n = n3 →
               receipts (take n script) `prefix_of` expected_receipts) as Htake.
  { intros n Hn.
    destruct Hs as [(-> & -> & -> & ->)|(-> & -> & -> & ->)];
      destruct Hn as [-> | [-> | ->]]; cbn; by eexists. }
  destruct pc as [| | | |e]; simpl in Hpc.
  - left. subst done. apply Htake. tauto.
  - left. subst done. apply Htake. tauto.
  - left. subst done. apply Htake. tauto.
  - left. subst done. destruct Hs as [(-> & _)|(-> & _)]; cbn; by exists [].
  - destruct e; try (destruct Hpc as (n & Hn & ->); left; by apply Htake).
    by right.
Qed.

(** C9: in a complete run of either breakpoint handler, the actions of
    the handler are exactly the seven of its script: "breakpoint ready"
    goes to the processor after "breakpoint start" has been sent to the
    peer and received from it, and "breakpoint finished" goes to the
    processor once, as the last action.  In any run, a handler that has
    received a message other than the expected one has raised
    [AssertionError], and a handler that has raised does nothing more. *)
Theorem breakpoint_rendezvous (w : World) (stimuli : list Stimulus) :
  let creator := run (λ _, breakpoint_create_resume) stimuli
                   (handle_breakpoint_create_request w) in
  let receiver := run (λ _, breakpoint_receive_resume) stimuli
                    (handle_breakpoint_receive_request w) in
  let start := Text "breakpoint start" in
  let ready := Text "breakpoint ready" in
  let end_ := Text "breakpoint end" in
  let finished := Text "breakpoint finished" in
  let expected := [GotPeerMsg start; GotProcessorMsg end_; GotPeerMsg end_] in
  (snd creator = BpReturned →
   log (fst creator) =
     log w ++ [SendPeerMsg start; GotPeerMsg start; SendProcessorMsg ready;
               GotProcessorMsg end_; SendPeerMsg end_; GotPeerMsg end_;
               SendProcessorMsg finished]) ∧
  (snd receiver = BpReturned →
   log (fst receiver) =
     log w ++ [GotPeerMsg start; SendPeerMsg start; SendProcessorMsg ready;
               GotProcessorMsg end_; GotPeerMsg end_; SendPeerMsg end_;
               SendProcessorMsg finished]) ∧
  (∀ st, st = creator ∨ st = receiver →
     ∃ done, log (fst st) = log w ++ done ∧
             (¬ receipts done `prefix_of` expected → snd st = BpRaised AssertionError)) ∧
  (∀ sig e w',
     breakpoint_create_resume sig (BpRaised e) w' = (w', BpRaised e) ∧
     breakpoint_receive_resume sig (BpRaised e) w' = (w', BpRaised e)).
Proof.
  intros creator receiver start ready end_ finished expected.
  destruct (creator_start w) as (d0 & Hl0 & Hp0).
  destruct (creator_run w stimuli _ d0 Hl0 Hp0) as (dc & Hlc & Hpc).
  destruct (receiver_start w) as (e0 & Hm0 & Hq0).
  destruct (receiver_run w stimuli _ e0 Hm0 Hq0) as (dr & Hlr & Hpr).
  fold creator in Hlc, Hpc. fold receiver in Hlr, Hpr.
  split; [|split; [|split]].
  - intros Hret. rewrite Hret in Hpc. simpl in Hpc. by rewrite Hlc, Hpc.
  - intros Hret. rewrite Hret in Hpr. simpl in Hpr. by rewrite Hlr, Hpr.
  - intros st [Hst | Hst]; subst st.
    + exists dc. split; [done|]. intros Hnot.
      destruct (progress_receipts _ _ _ _ _ _ (or_introl (conj eq_refl (conj eq_refl
                  (conj eq_refl eq_refl)))) Hpc); done.
    + exists dr. split; [done|]. intros Hnot.
      destruct (progress_receipts _ _ _ _ _ _ (or_intror (conj eq_refl (conj eq_refl
                  (conj eq_refl eq_refl)))) Hpr); done.
  - intros sig e w'. by destruct sig.
Qed.

End BreakpointFacts.

(** An instance: the three expected messages arrive one after the
    other, each followed by the signal of its listener. *)
Lemma breakpoint_rendezvous_witness :
  let w := Netstack.example_world Netstack.full_pool in
  let stimuli :=
    [ Netstack.PeerArrival [Netstack.Text "breakpoint start"];
      Netstack.Fire 1%float Netstack.SIGNAL_PEER_NSTK_MSG;
      Netstack.ProcessorArrival [Netstack.Text "breakpoint end"];
      Netstack.Fire 2%float Netstack.SIGNAL_PROC_NSTK_MSG;
      Netstack.PeerArrival [Netstack.Text "breakpoint end"];
      Netstack.Fire 3%float Netstack.SIGNAL_PEER_NSTK_MSG ] in
  Netstack.log (fst (Netstack.run (λ _, Netstack.breakpoint_create_resume) stimuli
                       (Netstack.handle_breakpoint_create_request w)))
    = Netstack.creator_script ∧
  Netstack.log (fst (Netstack.run (λ _, Netstack.breakpoint_receive_resume) stimuli
                       (Netstack.handle_breakpoint_receive_request w)))
    = Netstack.receiver_script.
Proof.
  intros w stimuli.
  destruct (breakpoint_rendezvous w stimuli) as (Hc & Hr & _).
  split; [apply Hc|apply Hr]; reflexivity.
Defined.

(** * Further properties *)

(** ** The allocator: invariants, round trips, the two constructors *)

Section MemoryMoreFacts.

Import Memory MemoryMore.

(** The converse of [alloc_Ok]. *)
Lemma alloc_Ok_intro (k : AllocKind) (m : PhysicalQuantumMemory) (i : nat) :
  i ∉ allocated_ids m → eligible k m i →
  (∀ j, eligible k m j → j ∉ allocated_ids m → i ≤ j) →
  alloc k m = Ok (i, add_allocated i m).
Proof.
  intros Hfree Hel Hleast.
  destruct (alloc k m) as [[i' m']|e] eqn:Ha.
  - apply alloc_Ok in Ha as (-> & Hfree' & Hel' & Hleast').
    assert (i = i') as -> by (apply Nat.le_antisymm; auto). done.
  - pose proof (alloc_only_AllocError _ _ _ Ha) as ->.
    destruct Hfree. exact (proj2 (alloc_Raise k m) Ha i Hel).
Qed.

Lemma exec_call_in_range (m : PhysicalQuantumMemory) (c : Call) :
  (∀ i, i ∈ allocated_ids m → i < qubit_count m) →
  ∀ i, i ∈ allocated_ids (fst (exec_call m c)) → i < qubit_count m.
Proof.
  intros Hm.
  assert (∀ k i, i ∈ allocated_ids (fst (exec_call m (call_of k))) → i < qubit_count m) as Hk.
  { intros k i. rewrite exec_call_alloc.
    destruct (alloc k m) as [[j m']|e] eqn:Ha; simpl; [|apply Hm].
    apply alloc_Ok in Ha as (-> & _ & [Hj _] & _). simpl.
    rewrite elem_of_union, elem_of_singleton. intros [->|Hi]; [done|by apply Hm]. }
  destruct c as [| | |id].
  - apply (Hk AnySlot).
  - apply (Hk CommSlot).
  - apply (Hk MemSlot).
  - intros i. simpl. unfold free. case_bool_decide; simpl; [|apply Hm].
    rewrite elem_of_difference. intros [Hi _]. by apply Hm.
Qed.

Lemma run_calls_in_range (calls : list Call) (m : PhysicalQuantumMemory) :
  (∀ i, i ∈ allocated_ids m → i < qubit_count m) →
  ∀ i, i ∈ allocated_ids (run_calls m calls) → i < qubit_count m.
Proof.
  revert m. induction calls as [|c calls IH]; intros m Hm; [done|].
  unfold run_calls in *. simpl. intros i Hi.
  rewrite <- (proj1 (exec_call_static m c)).
  apply (IH (fst (exec_call m c))); [|done].
  intros j Hj. rewrite (proj1 (exec_call_static m c)). by apply (exec_call_in_range m c).
Qed.

Lemma size_range_set (n : nat) : size (range_set n) = n.
Proof.
  unfold range_set. rewrite size_list_to_set by apply NoDup_seq. apply length_seq.
Qed.

(** X1: whatever is called on a pool built by either constructor, every
    allocated id is one of [0..C-1], so at most [C] ids are allocated. *)
Theorem pool_never_oversubscribed (C : nat) (calls : list Call) :
  let in_bounds (m : PhysicalQuantumMemory) :=
    (∀ i, i ∈ allocated_ids m → i < C) ∧ size (allocated_ids m) ≤ C in
  in_bounds (run_calls (PhysicalQuantumMemory_init C) calls) ∧
  in_bounds (run_calls (NVPhysicalQuantumMemory_init C) calls).
Proof.
  assert (∀ m0, qubit_count m0 = C → allocated_ids m0 = ∅ →
            (∀ i, i ∈ allocated_ids (run_calls m0 calls) → i < C) ∧
            size (allocated_ids (run_calls m0 calls)) ≤ C) as Hgen.
  { intros m0 HC H0.
    assert (∀ i, i ∈ allocated_ids (run_calls m0 calls) → i < C) as Hin.
    { intros i Hi. rewrite <- HC. apply (run_calls_in_range calls m0); [|done].
      intros j. rewrite H0. set_solver. }
    split; [done|]. rewrite <- (size_range_set C). apply subseteq_size.
    intros i Hi. apply elem_of_range_set. by apply Hin. }
  split; by apply Hgen.
Qed.

(** A pool whose allocated ids are [0..j-1] hands out [j] next. *)
Lemma allocate_next (k : AllocKind) (m : PhysicalQuantumMemory) (j : nat) :
  allocated_ids m = range_set j → eligible k m j →
  alloc k m = Ok (j, add_allocated j m) ∧
  allocated_ids (add_allocated j m) = range_set (S j).
Proof.
  intros Hids Hel. split.
  - apply alloc_Ok_intro; [rewrite Hids, elem_of_range_set; lia|done|].
    intros i _. rewrite Hids, elem_of_range_set. lia.
  - simpl. rewrite Hids. apply set_eq. intros i.
    rewrite elem_of_union, elem_of_singleton, !elem_of_range_set. lia.
Qed.

Lemma run_trace_fresh (k : AllocKind) (n : nat) (m : PhysicalQuantumMemory) (j : nat) :
  allocated_ids m = range_set j →
  (∀ i, j ≤ i < j + n → eligible k m i) →
  run_trace m (replicate n (call_of k)) = map (λ i, Ok (Some i)) (seq j n) ∧
  allocated_ids (run_calls m (replicate n (call_of k))) = range_set (j + n) ∧
  qubit_count (run_calls m (replicate n (call_of k))) = qubit_count m.
Proof.
  revert m j. induction n as [|n IH]; intros m j Hids Hel.
  - simpl. by rewrite Nat.add_0_r.
  - destruct (allocate_next k m j Hids) as [Ha Hids']; [apply Hel; lia|].
    cbn [replicate run_trace]. unfold run_calls. cbn [foldl].
    rewrite exec_call_alloc, Ha. cbn [fst snd].
    destruct (IH (add_allocated j m) (S j) Hids') as (Ht & Hi & Hc).
    { intros i Hi. destruct (Hel i) as [Hlt Hk]; [lia|]. split; [done|]. by destruct k. }
    unfold run_calls in Hi, Hc. rewrite Ht, Hi, Hc. simpl.
    repeat split. f_equal. lia.
Qed.

(** X2: on a fresh pool of capacity [C], the first [k <= C] calls of
    [allocate] (or of [allocate_comm]) return [0, 1, ..., k-1] in that
    order, and the call after the [C]-th raises [AllocError]. *)
Theorem fresh_pool_allocates_in_order (C k : nat) :
  k ≤ C →
  run_trace (PhysicalQuantumMemory_init C) (replicate k CallAllocate)
    = map (λ i, Ok (Some i)) (seq 0 k) ∧
  run_trace (PhysicalQuantumMemory_init C) (replicate k CallAllocateComm)
    = map (λ i, Ok (Some i)) (seq 0 k) ∧
  allocate (run_calls (PhysicalQuantumMemory_init C) (replicate C CallAllocate))
    = Raise AllocError.
Proof.
  intros Hk.
  assert (∀ kind n, n ≤ C → ∀ i, 0 ≤ i < 0 + n →
            eligible kind (PhysicalQuantumMemory_init C) i ∨ kind = MemSlot) as Hel.
  { intros kind n Hn i Hi. destruct kind; [left|left|by right]; (split; [simpl; lia|]);
      [done|]. simpl. apply elem_of_range_set. lia. }
  split; [|split].
  - apply (run_trace_fresh AnySlot k (PhysicalQuantumMemory_init C) 0); [done|].
    intros i Hi. by destruct (Hel AnySlot k Hk i Hi).
  - apply (run_trace_fresh CommSlot k (PhysicalQuantumMemory_init C) 0); [done|].
    intros i Hi. by destruct (Hel CommSlot k Hk i Hi).
  - destruct (run_trace_fresh AnySlot C (PhysicalQuantumMemory_init C) 0) as (_ & Hids & Hc);
      [done| |].
    { intros i Hi. by destruct (Hel AnySlot C (Nat.le_refl C) i Hi). }
    change (call_of AnySlot) with CallAllocate in Hids, Hc.
    apply (alloc_Raise AnySlot). intros j [Hj _].
    rewrite Hids, elem_of_range_set. rewrite Hc in Hj. simpl in *. lia.
Qed.

(** X3: freeing the id that an allocation has just returned gives back
    the pool exactly as it was; [is_allocated] answers yes for that id
    in between, and no before. *)
Theorem allocate_then_free_restores (k : AllocKind) (m m' : PhysicalQuantumMemory) (i : nat) :
  alloc k m = Ok (i, m') →
  is_allocated i m = false ∧ is_allocated i m' = true ∧ free i m' = Ok m.
Proof.
  intros Ha. apply alloc_Ok in Ha as (-> & Hfree & _ & _).
  unfold is_allocated, free. simpl.
  rewrite bool_decide_eq_false_2 by done.
  rewrite !bool_decide_eq_true_2 by set_solver.
  repeat split. destruct m as [c A comm]. simpl in *. do 2 f_equal.
  apply set_eq. intros j. rewrite elem_of_difference, elem_of_union, elem_of_singleton.
  split; [naive_solver|]. intros Hj. split; [by right|]. intros ->. done.
Qed.

End MemoryMoreFacts.

(** An instance: three allocations on a fresh pool of three qubits. *)
Lemma fresh_pool_allocates_in_order_witness :
  Memory.allocate
    (Memory.run_calls (Memory.PhysicalQuantumMemory_init 3)
       (replicate 3 Memory.CallAllocate)) = Raise AllocError.
Proof. apply (fresh_pool_allocates_in_order 3 3). lia. Defined.

(** An instance: [allocate_mem] on a fresh pool with one communication
    qubit returns 1, and [free 1] undoes it. *)
Lemma allocate_then_free_restores_witness :
  Memory.free 1 (Memory.add_allocated 1 (Memory.NVPhysicalQuantumMemory_init 2))
    = Ok (Memory.NVPhysicalQuantumMemory_init 2).
Proof.
  apply (allocate_then_free_restores Memory.MemSlot
           (Memory.NVPhysicalQuantumMemory_init 2)
           (Memory.add_allocated 1 (Memory.NVPhysicalQuantumMemory_init 2)) 1).
  vm_compute. reflexivity.
Defined.

Section MemoryVariantFacts.

Import Memory MemoryMore.

(** X4: a pool built by [NVPhysicalQuantumMemory] has one communication
    qubit, id 0, whatever is called on it and whatever its capacity (the
    count is 1 even for capacity 0, where [allocate_comm] always raises):
    [allocate_comm] returns 0 or raises, it raises as soon as 0 is
    allocated however many other slots are free, and [allocate_mem]
    never returns 0. *)
Theorem nv_pool_single_comm_qubit (C : nat) (calls : list Call) :
  let m := run_calls (NVPhysicalQuantumMemory_init C) calls in
  comm_qubit_count m = 1 ∧
  (∀ i m', allocate_comm m = Ok (i, m') → i = 0 ∧ 0 < C) ∧
  (0 ∈ allocated_ids m ∨ C = 0 → allocate_comm m = Raise AllocError) ∧
  (∀ i m', allocate_mem m = Ok (i, m') → 0 < i).
Proof.
  intros m.
  destruct (run_calls_static calls (NVPhysicalQuantumMemory_init C)) as [Hc Hs].
  fold m in Hc, Hs. simpl in Hc, Hs.
  split; [|split; [|split]].
  - unfold comm_qubit_count. rewrite Hs. apply size_singleton.
  - intros i m' Ha. apply (alloc_Ok CommSlot) in Ha as (_ & _ & [Hi Hin] & _).
    rewrite Hs in Hin. apply elem_of_singleton in Hin as ->. split; [done|lia].
  - intros H0. apply (alloc_Raise CommSlot). intros j [Hj Hin].
    rewrite Hs in Hin. apply elem_of_singleton in Hin as ->.
    destruct H0 as [H0| ->]; [done|lia].
  - intros i m' Ha. apply (alloc_Ok MemSlot) in Ha as (_ & _ & [Hi Hin] & _).
    rewrite Hs in Hin. destruct i; [|lia]. destruct Hin. by apply elem_of_singleton.
Qed.

(** X5: in any pool, [allocate] returns the smaller of the ids that
    [allocate_comm] and [allocate_mem] would return, the one that
    succeeds when only one does, and raises exactly when both raise. *)
Theorem allocate_is_min_of_comm_and_mem (m : PhysicalQuantumMemory) :
  allocate m =
  match allocate_comm m, allocate_mem m with
  | Ok (i, _), Ok (j, _) => Ok (i `min` j, add_allocated (i `min` j) m)
  | Ok (i, _), Raise _ => Ok (i, add_allocated i m)
  | Raise _, Ok (j, _) => Ok (j, add_allocated j m)
  | Raise _, Raise _ => Raise AllocError
  end.
Proof.
  assert (∀ j, eligible AnySlot m j → eligible CommSlot m j ∨ eligible MemSlot m j) as Hsplit.
  { intros j [Hj _]. destruct (decide (j ∈ comm_qubit_ids m)); [left|right]; by split. }
  assert (∀ k j, eligible k m j → eligible AnySlot m j) as Hany.
  { intros k j [Hj _]. by split. }
  change allocate with (alloc AnySlot). change allocate_comm with (alloc CommSlot).
  change allocate_mem with (alloc MemSlot).
  destruct (alloc CommSlot m) as [[i mi]|ec] eqn:Hc;
    destruct (alloc MemSlot m) as [[j mj]|em] eqn:Hm.
  - apply alloc_Ok in Hc as (_ & Hfi & Hei & Hli).
    apply alloc_Ok in Hm as (_ & Hfj & Hej & Hlj).
    apply alloc_Ok_intro.
    + destruct (Nat.min_spec i j) as [[_ ->]|[_ ->]]; done.
    + destruct (Nat.min_spec i j) as [[_ ->]|[_ ->]]; eauto.
    + intros x Hx Hfx. destruct (Hsplit x Hx) as [Hxc|Hxm].
      * specialize (Hli x Hxc Hfx). lia.
      * specialize (Hlj x Hxm Hfx). lia.
  - apply alloc_Ok in Hc as (_ & Hfi & Hei & Hli).
    pose proof (alloc_only_AllocError _ _ _ Hm) as ->.
    apply alloc_Ok_intro; [done|eauto|].
    intros x Hx Hfx. destruct (Hsplit x Hx) as [Hxc|Hxm]; [auto|].
    destruct Hfx. exact (proj2 (alloc_Raise MemSlot m) Hm x Hxm).
  - apply alloc_Ok in Hm as (_ & Hfj & Hej & Hlj).
    pose proof (alloc_only_AllocError _ _ _ Hc) as ->.
    apply alloc_Ok_intro; [done|eauto|].
    intros x Hx Hfx. destruct (Hsplit x Hx) as [Hxc|Hxm]; [|auto].
    destruct Hfx. exact (proj2 (alloc_Raise CommSlot m) Hc x Hxc).
  - pose proof (alloc_only_AllocError _ _ _ Hc) as ->.
    pose proof (alloc_only_AllocError _ _ _ Hm) as ->.
    apply (alloc_Raise AnySlot). intros x Hx.
    destruct (Hsplit x Hx) as [Hxc|Hxm].
    + exact (proj2 (alloc_Raise CommSlot m) Hc x Hxc).
    + exact (proj2 (alloc_Raise MemSlot m) Hm x Hxm).
Qed.

Lemma first_fit_ext (f g : nat → bool) (ids : list nat) :
  (∀ i, f i = g i) → first_fit f ids = first_fit g ids.
Proof.
  intros Hfg. induction ids as [|i ids IH]; [done|]. simpl. by rewrite Hfg, IH.
Qed.

Lemma first_fit_true (ids : list nat) (i : nat) :
  first_fit (λ _, true) (i :: ids) = Some i.
Proof. done. Qed.

Lemma pool_alloc_of_memory (f : nat → bool) (g : nat → bool) (m : PhysicalQuantumMemory) :
  (∀ i, f i = g i) →
  pool_alloc_with f (of_memory m) = lift_alloc (alloc_with g m).
Proof.
  intros Hfg. unfold pool_alloc_with, alloc_with. simpl.
  rewrite (first_fit_ext f g) by done. by destruct (first_fit g _).
Qed.

(** X6: [clear] leaves an empty dict where the set was.  As long as
    [clear] has not been called the methods behave as modelled for the
    set; after it [is_allocated] answers no for every id, [free] raises
    [AttributeError], and so does [allocate] on any pool that has a slot
    (with no slot at all it raises [AllocError], as before). *)
Theorem clear_leaves_a_dict (m : PhysicalQuantumMemory) (p : Pool) (id : nat) :
  (pool_allocate (of_memory m) = lift_alloc (allocate m) ∧
   pool_allocate_comm (of_memory m) = lift_alloc (allocate_comm m) ∧
   pool_allocate_mem (of_memory m) = lift_alloc (allocate_mem m) ∧
   pool_free id (of_memory m) = lift_free (free id m) ∧
   pool_is_allocated id (of_memory m) = is_allocated id m) ∧
  pool_is_allocated id (clear p) = false ∧
  pool_free id (clear p) = Fails AttributeError ∧
  pool_allocate (clear p) =
    (if pool_qubit_count p =? 0 then Fails (Builtin AllocError) else Fails AttributeError) ∧
  (∀ i, i < pool_qubit_count p → i ∈ pool_comm_qubit_ids p →
        pool_allocate_comm (clear p) = Fails AttributeError) ∧
  (∀ i, i < pool_qubit_count p → i ∉ pool_comm_qubit_ids p →
        pool_allocate_mem (clear p) = Fails AttributeError).
Proof.
  split; [|split; [|split; [|split; [|split]]]].
  - repeat split.
    + apply pool_alloc_of_memory. intros i. unfold is_free. simpl.
      by rewrite bool_decide_not.
    + apply pool_alloc_of_memory. intros i. unfold is_free, is_comm. simpl.
      by rewrite bool_decide_not.
    + apply pool_alloc_of_memory. intros i. unfold is_free, is_comm. simpl.
      by rewrite bool_decide_not.
    + unfold pool_free, free. simpl. by case_bool_decide.
  - done.
  - done.
  - unfold pool_allocate, pool_alloc_with. simpl.
    destruct (pool_qubit_count p); done.
  - intros i Hi Hin. unfold pool_allocate_comm, pool_alloc_with. simpl.
    destruct (first_fit _ _) as [j|] eqn:Hff; [done|].
    rewrite first_fit_seq_None in Hff. specialize (Hff i). simpl in Hff.
    rewrite bool_decide_eq_true_2 in Hff by done. discriminate Hff. lia.
  - intros i Hi Hin. unfold pool_allocate_mem, pool_alloc_with. simpl.
    destruct (first_fit _ _) as [j|] eqn:Hff; [done|].
    rewrite first_fit_seq_None in Hff. specialize (Hff i). simpl in Hff.
    rewrite bool_decide_eq_false_2 in Hff by done. discriminate Hff. lia.
Qed.

End MemoryVariantFacts.

(** An instance: on a pool of three qubits with one communication
    qubit, once 0 is allocated [allocate_comm] raises although 1 and 2
    are free. *)
Lemma nv_pool_single_comm_qubit_witness :
  Memory.allocate_comm
    (Memory.run_calls (Memory.NVPhysicalQuantumMemory_init 3) [Memory.CallAllocateComm])
    = Raise AllocError.
Proof.
  destruct (nv_pool_single_comm_qubit 3 [Memory.CallAllocateComm]) as (_ & _ & H & _).
  apply H. left. vm_compute. done.
Defined.

(** An instance: after [clear] on a pool of two qubits, [allocate_comm]
    raises [AttributeError]. *)
Lemma clear_leaves_a_dict_witness :
  MemoryMore.pool_allocate_comm
    (MemoryMore.clear (MemoryMore.of_memory (Memory.PhysicalQuantumMemory_init 2)))
    = MemoryMore.Fails MemoryMore.AttributeError.
Proof.
  destruct (clear_leaves_a_dict (Memory.PhysicalQuantumMemory_init 2)
              (MemoryMore.of_memory (Memory.PhysicalQuantumMemory_init 2)) 0)
    as (_ & _ & _ & _ & H & _).
  apply (H 0); [simpl; lia|]. vm_compute. done.
Defined.

(** ** The listener under arbitrary arrivals *)

Section ListenerMoreFacts.

Import Listener ListenerMore.

Context {Item : Type}.

Lemma run_port_snoc (ops : list (PortOp Item)) (op : PortOp Item) :
  run_port (ops ++ [op]) = port_step (run_port ops) op.
Proof. unfold run_port. by rewrite foldl_app. Qed.

Lemma inputs_of_snoc (ops : list (PortOp Item)) (op : PortOp Item) :
  inputs_of (ops ++ [op]) =
  inputs_of ops ++ match op with InputArrives items => [items] | EventFires => [] end.
Proof. unfold inputs_of. rewrite omap_app. by destruct op. Qed.

(** What holds between any two operations. *)
Lemma run_port_invariant (ops : list (PortOp Item)) :
  let s := run_port ops in
  let l := sim_listener s in
  pending_events s = to_flush (pc l) + length (port_inputs l) ∧
  match pc l with AtAwaitInput => notified s = length (buffer l) | AtFlush c => 2 ≤ c end ∧
  buffer l ++ concat (port_inputs l) = sim_arrived s ∧
  sim_arrived s = concat (inputs_of ops) ∧
  signals_sent l + match pc l with AtAwaitInput => 0 | AtFlush _ => 1 end
    + length (port_inputs l) ≤ length (inputs_of ops).
Proof.
  induction ops as [|op ops IH] using rev_ind; [done|].
  rewrite run_port_snoc, inputs_of_snoc. cbn zeta in *.
  remember (run_port ops) as s eqn:Hs. clear Hs.
  destruct s as [[b port pc sig] pend arr notif]. simpl in IH.
  destruct IH as (Hpend & Hpc & Hcons & Harr & Hsig).
  destruct op as [items|]; simpl.
  - repeat split; rewrite ?length_app, ?concat_app; simpl;
      rewrite ?app_nil_r, ?app_assoc, ?Hcons, ?Harr; try done; lia.
  - rewrite app_nil_r. destruct pend as [|n]; simpl; [repeat split; done|].
    unfold listener_resume. simpl.
    destruct pc as [|c]; simpl in *.
    + rewrite read_all_inputs_spec. simpl. unfold flush_or_signal. simpl.
      destruct (Nat.ltb_spec 1 (length port)); simpl.
      * rewrite app_nil_r. repeat split; try done; lia.
      * rewrite (proj2 (Nat.ltb_lt sig (S sig))) by lia. rewrite app_nil_r.
        repeat split; try done; lia.
    + unfold flush_or_signal. simpl.
      destruct (Nat.ltb_spec 1 (c - 1)); simpl.
      * repeat split; try done; lia.
      * rewrite (proj2 (Nat.ltb_lt sig (S sig))) by lia.
        repeat split; try done; lia.
Qed.

(** X7: whatever the order in which inputs reach the port and port
    events are delivered, nothing is lost or reordered (the buffer
    followed by the unread inputs is what arrived), the listener sends
    no more signals than there were inputs, and once every scheduled
    event has been delivered the listener is back at the top of its
    loop with the port drained, everything that arrived in its buffer,
    and its last signal sent after the last item was buffered. *)
Theorem listener_any_interleaving (ops : list (PortOp Item)) :
  let s := run_port ops in
  let l := sim_listener s in
  buffer l ++ concat (port_inputs l) = concat (inputs_of ops) ∧
  signals_sent l ≤ length (inputs_of ops) ∧
  (pending_events s = 0 →
   pc l = AtAwaitInput ∧ port_inputs l = [] ∧
   buffer l = concat (inputs_of ops) ∧ notified s = length (buffer l)).
Proof.
  intros s l.
  destruct (run_port_invariant ops) as (Hpend & Hpc & Hcons & Harr & Hsig).
  fold s in Hpend, Hpc, Hcons, Harr, Hsig. fold l in Hpend, Hpc, Hcons, Harr, Hsig.
  split; [by rewrite Hcons|]. split; [lia|].
  intros H0. rewrite H0 in Hpend.
  destruct (pc l) as [|c]; simpl in *; [|lia].
  destruct (port_inputs l) as [|? ?]; [|simpl in Hpend; lia].
  simpl in Hcons. rewrite app_nil_r in Hcons.
  repeat split; [congruence|done].
Qed.

End ListenerMoreFacts.

(** An instance: two inputs, an event, a third input, three events
    (one more than are pending). *)
Lemma listener_any_interleaving_witness :
  let s := ListenerMore.run_port
             [ListenerMore.InputArrives ["a"]; ListenerMore.InputArrives ["b"; "c"];
              ListenerMore.EventFires; ListenerMore.InputArrives ["d"];
              ListenerMore.EventFires; ListenerMore.EventFires; ListenerMore.EventFires] in
  Listener.buffer (ListenerMore.sim_listener s) = ["a"; "b"; "c"; "d"] ∧
  ListenerMore.notified s = 4.
Proof.
  intros s.
  destruct (listener_any_interleaving
              [ListenerMore.InputArrives ["a"]; ListenerMore.InputArrives ["b"; "c"];
               ListenerMore.EventFires; ListenerMore.InputArrives ["d"];
               ListenerMore.EventFires; ListenerMore.EventFires; ListenerMore.EventFires])
    as (_ & _ & H).
  destruct H as (_ & _ & Hb & Hn); [reflexivity|].
  split; [exact Hb|exact Hn].
Defined.

(** ** EPR sockets *)

Section SocketFacts.

Import NetstackMore.

Lemma find_in_snoc (s r : nat) (l : list EprSocket) (sck : EprSocket) :
  find_in s r (l ++ [sck]) =
  match find_in s r l with
  | Some x => Some x
  | None => if (socket_id sck =? s) && (remote_id sck =? r) then Some sck else None
  end.
Proof.
  induction l as [|x l IH]; simpl; [done|].
  by destruct ((socket_id x =? s) && (remote_id x =? r)).
Qed.

Lemma find_after_open (sockets : gmap nat (list EprSocket)) (p' s' r' pid s r : nat) :
  find_epr_socket pid s r (open_epr_socket p' s' r' sockets) =
  match find_epr_socket pid s r sockets with
  | Some x => Some x
  | None =>
      if bool_decide ((pid, s, r) = (p', s', r'))
      then Some {| socket_id := s'; remote_id := r' |} else None
  end.
Proof.
  unfold find_epr_socket, open_epr_socket.
  destruct (decide (pid = p')) as [->|Hp].
  - case_bool_decide as Hdom.
    + apply elem_of_dom in Hdom as [l Hl]. rewrite lookup_alter_eq, Hl. simpl.
      rewrite find_in_snoc. destruct (find_in s r l); [done|]. simpl.
      destruct (Nat.eqb_spec s' s) as [->|Hs]; destruct (Nat.eqb_spec r' r) as [->|Hr]; simpl;
        case_bool_decide; congruence.
    + apply not_elem_of_dom in Hdom. rewrite lookup_alter_eq, lookup_insert_eq, Hdom. simpl.
      destruct (Nat.eqb_spec s' s) as [->|Hs]; destruct (Nat.eqb_spec r' r) as [->|Hr]; simpl;
        case_bool_decide; congruence.
  - rewrite lookup_alter_ne by done.
    assert ((if bool_decide (p' ∈ dom sockets) then sockets else <[p':=[]]> sockets) !! pid
            = sockets !! pid) as ->.
    { case_bool_decide; [done|]. by rewrite lookup_insert_ne. }
    destruct (sockets !! pid) as [l|]; [destruct (find_in s r l); [done|]|];
      case_bool_decide; congruence.
Qed.

(** X8: on the registry built by any sequence of [open_epr_socket],
    [find_epr_socket (pid, socket_id, remote_id)] returns a socket
    exactly when that triple was opened, and the socket it returns has
    those two ids; for a pid or a pair of ids never opened it returns
    [None]. *)
Theorem sockets_round_trip (opens : list (nat * nat * nat)) (pid s r : nat) :
  find_epr_socket pid s r (open_all opens) =
  if bool_decide ((pid, s, r) ∈ opens)
  then Some {| socket_id := s; remote_id := r |} else None.
Proof.
  induction opens as [|[[p' s'] r'] opens IH] using rev_ind.
  - by rewrite bool_decide_eq_false_2 by apply not_elem_of_nil.
  - unfold open_all in *. rewrite foldl_app. simpl. rewrite find_after_open, IH.
    case_bool_decide as Hin.
    + by rewrite bool_decide_eq_true_2 by (apply elem_of_app; by left).
    + case_bool_decide as Heq.
      * rewrite bool_decide_eq_true_2; [congruence|].
        apply elem_of_app. right. rewrite Heq. apply list_elem_of_singleton. done.
      * rewrite bool_decide_eq_false_2; [done|].
        intros [?|Hl%list_elem_of_singleton]%elem_of_app; congruence.
Qed.

End SocketFacts.

(** ** Whole create-and-keep requests *)

Section WholeKeepFacts.

Import Memory Netstack NetstackMore.

Variable K : Imports.

Lemma run_app {Pc : Type} (resume : float → Signal → Pc → World → World * Pc)
  (s1 s2 : list Stimulus) (st : World * Pc) :
  run resume (s1 ++ s2) st = run resume s2 (run resume s1 st).
Proof. unfold run. apply foldl_app. Qed.

Lemma omap_map_None {A B C : Type} (f : B → option C) (g : A → B) (l : list A) :
  (∀ x, f (g x) = None) → omap f (map g l) = [].
Proof. intros H. induction l as [|x l IH]; [done|]. cbn. by rewrite H. Qed.

Lemma omap_map_Some {A B C : Type} (f : B → option C) (g : A → B) (h : A → C) (l : list A) :
  (∀ x, f (g x) = Some (h x)) → omap f (map g l) = map h l.
Proof.
  intros H. induction l as [|x l IH]; [done|]. cbn. rewrite H. cbn. f_equal. exact IH.
Qed.

Lemma write_keep_slice_pm (pid addr pair_index : nat) (gen_duration bell : Z) (w : World) :
  physical_memory (write_keep_slice K pid addr pair_index gen_duration bell w) =
  physical_memory w.
Proof. apply write_indexed_log. Qed.

(** One turn of the creator's loop, when a communication qubit is
    free. *)
Lemma creator_pair (fr : CkFrame) (i : nat) (d : Delivery) (w : World)
  (p : nat) (m1 : PhysicalQuantumMemory) (g : Z) :
  i < ck_num_pairs fr →
  allocate_comm (physical_memory w) = Ok (p, m1) →
  gen_duration_us_int (creator_time d) (ck_start_time fr) = Ok g →
  ∃ w2 virt_id,
    run (create_ck_resume K fr) (creator_signals d) (ck_for fr i w) = ck_for fr (S i) w2 ∧
    physical_memory w2 = m1 ∧
    log w2 = log w ++ creator_pair_actions K fr i p d g virt_id.
Proof.
  intros Hi Ha Hg. unfold ck_for at 1. rewrite (proj2 (Nat.ltb_lt _ _) Hi).
  unfold ck_try_allocate. rewrite Ha.
  unfold creator_signals, creator_pair_actions, corrections, run.
  unfold creator_time in Hg.
  destruct (bell_state (reported d)) eqn:Hb;
    cbn [foldl step fst snd create_ck_resume map concat app]; rewrite ?Hb;
    cbn [foldl step fst snd create_ck_resume]; unfold ck_deliver; rewrite Hg;
    (eexists; eexists; split; [reflexivity|]);
    (split; [unfold send_processor_msg; cbn [act physical_memory];
             by rewrite write_keep_slice_pm|]);
    unfold send_processor_msg; cbn [act log]; rewrite write_keep_slice_log;
    cbn [act log set_physical_memory]; rewrite ?Hb; cbn [map app];
    rewrite <- ?app_assoc; reflexivity.
Qed.

Lemma creator_pair_projections (fr : CkFrame) (i p : nat) (d : Delivery)
  (duration : Delivery → Z) (v : option Z) :
  mapped_phys (creator_pair_actions K fr i p d (duration d) v) = [p] ∧
  programs (creator_pair_actions K fr i p d (duration d) v) = corrections [d] ∧
  array_writes (creator_pair_actions K fr i p d (duration d) v) =
    keep_slices K (pid (ck_req fr)) (result_array_addr (ck_req fr)) duration i [d] ∧
  processor_msgs (creator_pair_actions K fr i p d (duration d) v) = [Text "wrote to array"].
Proof.
  unfold creator_pair_actions, mapped_phys, programs, array_writes, processor_msgs.
  simpl. rewrite !omap_app. simpl. rewrite !omap_app. simpl.
  split; [|split; [|split]].
  - rewrite (omap_map_None _ ExecuteProgram), (omap_map_None _ (λ j, SetArrayValue _ _ _ _));
      done.
  - rewrite (omap_map_Some _ ExecuteProgram id), (omap_map_None _ (λ j, SetArrayValue _ _ _ _));
      try done. by rewrite map_id, !app_nil_r.
  - rewrite (omap_map_None _ ExecuteProgram) by done.
    rewrite (omap_map_Some _ (λ j, SetArrayValue _ _ _ _)
               (λ j, (pid (ck_req fr), result_array_addr (ck_req fr),
                      SER_RESPONSE_KEEP_LEN K * i + j,
                      keep_slice_value K (duration d)
                        (BellIndex_value K (bell_state (reported d))) j))) by done.
    by rewrite !app_nil_r.
  - rewrite (omap_map_None _ ExecuteProgram), (omap_map_None _ (λ j, SetArrayValue _ _ _ _));
      done.
Qed.

Lemma mapped_phys_app (l1 l2 : list Action) :
  mapped_phys (l1 ++ l2) = mapped_phys l1 ++ mapped_phys l2.
Proof. apply omap_app. Qed.

Lemma corrections_cons (d : Delivery) (ds : list Delivery) :
  corrections (d :: ds) = corrections [d] ++ corrections ds.
Proof. unfold corrections. simpl. by rewrite app_nil_r. Qed.

Lemma keep_slices_cons (pid addr : nat) (duration : Delivery → Z) (i : nat)
  (d : Delivery) (ds : list Delivery) :
  keep_slices K pid addr duration i (d :: ds) =
  keep_slices K pid addr duration i [d] ++ keep_slices K pid addr duration (S i) ds.
Proof. simpl. by rewrite app_nil_r. Qed.

(** The ids that [n] allocations in a row return are new, distinct, and
    all held afterwards. *)
Lemma allocate_comm_n_ids (n : nat) (m m' : PhysicalQuantumMemory) (ps : list nat) :
  allocate_comm_n n m = Some (ps, m') →
  length ps = n ∧ NoDup ps ∧ (∀ p, p ∈ ps → p ∉ allocated_ids m) ∧
  allocated_ids m' = list_to_set ps ∪ allocated_ids m.
Proof.
  revert m ps. induction n as [|n IH]; intros m ps; simpl.
  - intros [= <- <-]. repeat split; [constructor|set_solver|set_solver].
  - destruct (allocate_comm m) as [[p m1]|e] eqn:Ha; [|discriminate].
    destruct (allocate_comm_n n m1) as [[ps' m2]|] eqn:Hn; [|discriminate].
    intros [= <- <-]. destruct (IH _ _ Hn) as (Hlen & Hnd & Hnew & Hids).
    apply (alloc_Ok CommSlot) in Ha as (-> & Hfree & _ & _). simpl in *.
    repeat split.
    + by rewrite Hlen.
    + constructor; [|done]. intros Hin. apply (Hnew p Hin). set_solver.
    + intros q [->|Hq]%elem_of_cons; [done|]. specialize (Hnew q Hq). set_solver.
    + rewrite Hids. set_solver.
Qed.

(** The handler computes the truncation. *)
Lemma durations_of_computed (start_time : float) (time_of : Delivery → float)
  (duration : Delivery → Z) (ds : list Delivery) :
  durations_of start_time time_of duration ds →
  ∀ d, d ∈ ds → gen_duration_us_int (time_of d) start_time = Ok (duration d).
Proof.
  intros Hdur d Hd. specialize (Hdur d Hd).
  pose proof (int_of_float_spec (PrimFloat.div (PrimFloat.sub (time_of d) start_time)
                                   1000%float)) as Hspec.
  fold (gen_duration_us_int (time_of d) start_time) in Hspec.
  destruct (Prim2SF _) as [s|s| |s m e] eqn:Hx; try done.
  - destruct Hspec as (g & -> & Hg). f_equal. by apply (truncation_of_unique (S754_zero s)).
  - destruct Hspec as (g & -> & Hg). f_equal.
    by apply (truncation_of_unique (S754_finite s m e)).
Qed.

Lemma create_ck_run_from (fr : CkFrame) (ds : list Delivery) (i : nat) (w : World)
  (ps : list nat) (m' : PhysicalQuantumMemory) (duration : Delivery → Z) :
  i + length ds = ck_num_pairs fr →
  allocate_comm_n (length ds) (physical_memory w) = Some (ps, m') →
  durations_of (ck_start_time fr) creator_time duration ds →
  let st := run (create_ck_resume K fr) (concat (map creator_signals ds)) (ck_for fr i w) in
  snd st = CkReturned ∧
  physical_memory (fst st) = m' ∧
  mapped_phys (log (fst st)) = mapped_phys (log w) ++ ps ∧
  programs (log (fst st)) = programs (log w) ++ corrections ds ∧
  array_writes (log (fst st)) =
    array_writes (log w) ++
    keep_slices K (pid (ck_req fr)) (result_array_addr (ck_req fr)) duration i ds ∧
  processor_msgs (log (fst st)) =
    processor_msgs (log w) ++ replicate (length ds) (Text "wrote to array").
Proof.
  revert i w ps. induction ds as [|d ds IH]; intros i w ps Hi Hn Hdur st; subst st.
  - simpl in *. injection Hn as <- <-. unfold run, ck_for. simpl.
    rewrite (proj2 (Nat.ltb_ge _ _)) by lia. simpl. by rewrite !app_nil_r.
  - simpl in Hi, Hn.
    destruct (allocate_comm (physical_memory w)) as [[p m1]|e] eqn:Ha; [|discriminate].
    destruct (allocate_comm_n (length ds) m1) as [[ps' m2]|] eqn:Hn'; [|discriminate].
    injection Hn as <- <-.
    destruct (creator_pair fr i d w p m1 (duration d)) as (w2 & v & Hrun & Hpm & Hlog);
      [lia|done|apply (durations_of_computed _ _ _ _ Hdur), list_elem_of_here|].
    cbn [map concat]. rewrite run_app, Hrun.
    destruct (IH (S i) w2 ps') as (Hret & Hpm' & Hmap & Hprog & Hwr & Hmsg);
      [lia|by rewrite Hpm|intros d' Hd'; by apply Hdur, list_elem_of_further|].
    destruct (creator_pair_projections fr i p d duration v) as (P1 & P2 & P3 & P4).
    rewrite Hret, Hpm', Hmap, Hprog, Hwr, Hmsg, Hlog.
    rewrite mapped_phys_app, programs_app, array_writes_app, processor_msgs_app.
    rewrite P1, P2, P3, P4, (corrections_cons d ds), (keep_slices_cons _ _ _ i d ds).
    rewrite <- !app_assoc. done.
Qed.

(** X9: a whole create-and-keep request on the creator side.  When the
    pool can serve [number] allocations of a communication qubit in a
    row, and the EGP reports one result per pair (each followed by the
    end of its correction program when the Bell index is not B00), the
    handler returns; it has mapped the pairs to the ids of those
    allocations, in order, and still holds them all; it has run the
    corrections in order, written one slice per pair at consecutive
    offsets, each stamped with the truncation of the float
    [(clock - start) / 1000], finite by hypothesis, where [start] is
    the clock at the call and [clock] the clock when the pair is
    delivered, and sent the processor one message per pair. *)
Theorem create_ck_whole_request (now : float) (req : NetstackCreateRequest)
  (request : ReqCreateBase) (w : World) (ds : list Delivery)
  (ps : list nat) (m' : PhysicalQuantumMemory) (duration : Delivery → Z) :
  length ds = number request →
  allocate_comm_n (number request) (physical_memory w) = Some (ps, m') →
  durations_of now creator_time duration ds →
  let st := run (create_ck_resume K (ck_frame now req request))
              (concat (map creator_signals ds))
              (handle_create_ck_request now req request w) in
  snd st = CkReturned ∧
  physical_memory (fst st) = m' ∧
  allocated_ids m' = list_to_set ps ∪ allocated_ids (physical_memory w) ∧
  NoDup ps ∧
  mapped_phys (log (fst st)) = mapped_phys (log w) ++ ps ∧
  programs (log (fst st)) = programs (log w) ++ corrections ds ∧
  array_writes (log (fst st)) =
    array_writes (log w) ++
    keep_slices K (pid req) (result_array_addr req) duration 0 ds ∧
  processor_msgs (log (fst st)) =
    processor_msgs (log w) ++ replicate (number request) (Text "wrote to array").
Proof.
  intros Hlen Hn Hdur st.
  destruct (allocate_comm_n_ids _ _ _ _ Hn) as (_ & Hnd & _ & Hids).
  rewrite <- Hlen in Hn.
  destruct (create_ck_run_from (ck_frame now req request) ds 0 w ps m' duration)
    as (Hret & Hpm & Hmap & Hprog & Hwr & Hmsg); [simpl; lia|done|done|].
  rewrite <- Hlen. repeat split; done.
Qed.

(** One turn of the receiver's loop. *)
Lemma receiver_pair (fr : RckFrame) (i : nat) (d : Delivery) (w : World)
  (p : nat) (m1 : PhysicalQuantumMemory) (g : Z) :
  i < rck_num_pairs fr →
  allocate_comm (physical_memory w) = Ok (p, m1) →
  gen_duration_us_int (at_result d) (rck_start_time fr) = Ok g →
  ∃ w2 virt_id,
    run (receive_ck_resume K fr) (receiver_signals d) (rck_for fr i w) = rck_for fr (S i) w2 ∧
    physical_memory w2 = m1 ∧
    log w2 = log w ++ receiver_pair_actions K fr i p d g virt_id.
Proof.
  intros Hi Ha Hg. unfold rck_for at 1. rewrite (proj2 (Nat.ltb_lt _ _) Hi).
  unfold rck_try_allocate. rewrite Ha.
  unfold receiver_signals, receiver_pair_actions, run.
  cbn [foldl step fst snd receive_ck_resume]. unfold rck_deliver. rewrite Hg.
  eexists; eexists; split; [reflexivity|].
  split; [unfold send_processor_msg; cbn [act physical_memory];
          by rewrite write_keep_slice_pm|].
  unfold send_processor_msg; cbn [act log]; rewrite write_keep_slice_log;
    cbn [act log set_physical_memory]; rewrite <- ?app_assoc; reflexivity.
Qed.

Lemma receiver_pair_projections (fr : RckFrame) (i p : nat) (d : Delivery)
  (duration : Delivery → Z) (v : option Z) :
  mapped_phys (receiver_pair_actions K fr i p d (duration d) v) = [p] ∧
  array_writes (receiver_pair_actions K fr i p d (duration d) v) =
    keep_slices K (recv_pid (rck_req fr)) (recv_result_array_addr (rck_req fr))
      duration i [d] ∧
  processor_msgs (receiver_pair_actions K fr i p d (duration d) v) = [Text "wrote to array"].
Proof.
  unfold receiver_pair_actions, mapped_phys, array_writes, processor_msgs.
  simpl. rewrite !omap_app. simpl.
  split; [|split].
  - by rewrite (omap_map_None _ (λ j, SetArrayValue _ _ _ _)).
  - rewrite (omap_map_Some _ (λ j, SetArrayValue _ _ _ _)
               (λ j, (recv_pid (rck_req fr), recv_result_array_addr (rck_req fr),
                      SER_RESPONSE_KEEP_LEN K * i + j,
                      keep_slice_value K (duration d)
                        (BellIndex_value K (bell_state (reported d))) j))) by done.
    by rewrite !app_nil_r.
  - by rewrite (omap_map_None _ (λ j, SetArrayValue _ _ _ _)).
Qed.

Lemma receive_ck_run_from (fr : RckFrame) (ds : list Delivery) (i : nat) (w : World)
  (ps : list nat) (m' : PhysicalQuantumMemory) (duration : Delivery → Z) :
  i + length ds = rck_num_pairs fr →
  allocate_comm_n (length ds) (physical_memory w) = Some (ps, m') →
  durations_of (rck_start_time fr) at_result duration ds →
  let st := run (receive_ck_resume K fr) (concat (map receiver_signals ds)) (rck_for fr i w) in
  snd st = RckReturned ∧
  physical_memory (fst st) = m' ∧
  mapped_phys (log (fst st)) = mapped_phys (log w) ++ ps ∧
  array_writes (log (fst st)) =
    array_writes (log w) ++
    keep_slices K (recv_pid (rck_req fr)) (recv_result_array_addr (rck_req fr))
      duration i ds ∧
  processor_msgs (log (fst st)) =
    processor_msgs (log w) ++ replicate (length ds) (Text "wrote to array").
Proof.
  revert i w ps. induction ds as [|d ds IH]; intros i w ps Hi Hn Hdur st; subst st.
  - simpl in *. injection Hn as <- <-. unfold run, rck_for. simpl.
    rewrite (proj2 (Nat.ltb_ge _ _)) by lia. simpl. by rewrite !app_nil_r.
  - simpl in Hi, Hn.
    destruct (allocate_comm (physical_memory w)) as [[p m1]|e] eqn:Ha; [|discriminate].
    destruct (allocate_comm_n (length ds) m1) as [[ps' m2]|] eqn:Hn'; [|discriminate].
    injection Hn as <- <-.
    destruct (receiver_pair fr i d w p m1 (duration d)) as (w2 & v & Hrun & Hpm & Hlog);
      [lia|done|apply (durations_of_computed _ _ _ _ Hdur), list_elem_of_here|].
    cbn [map concat]. rewrite run_app, Hrun.
    destruct (IH (S i) w2 ps') as (Hret & Hpm' & Hmap & Hwr & Hmsg);
      [lia|by rewrite Hpm|intros d' Hd'; by apply Hdur, list_elem_of_further|].
    destruct (receiver_pair_projections fr i p d duration v) as (P1 & P3 & P4).
    rewrite Hret, Hpm', Hmap, Hwr, Hmsg, Hlog.
    rewrite mapped_phys_app, array_writes_app, processor_msgs_app.
    rewrite P1, P3, P4, (keep_slices_cons _ _ _ i d ds).
    rewrite <- !app_assoc. done.
Qed.

(** X10: a whole create-and-keep request on the receiver side, under
    the same conditions and for a request that is a create-and-keep
    request (the handler asserts it): the handler returns, holding the
    ids of [number] allocations in a row mapped to the pairs in order;
    it has written one slice per pair at consecutive offsets, stamped
    with the truncation of the float [(clock - start) / 1000], finite
    by hypothesis, where [clock] is the clock at the EGP result, sent
    the processor one message per pair, and run no program. *)
Theorem receive_ck_whole_request (now : float) (req : NetstackReceiveRequest)
  (request : ReqCreateBase) (w : World) (ds : list Delivery)
  (ps : list nat) (m' : PhysicalQuantumMemory) (duration : Delivery → Z) :
  req_type request = CreateAndKeep →
  length ds = number request →
  allocate_comm_n (number request) (physical_memory w) = Some (ps, m') →
  durations_of now at_result duration ds →
  let st := run (receive_ck_resume K (rck_frame now req request))
              (concat (map receiver_signals ds))
              (handle_receive_ck_request now req request w) in
  snd st = RckReturned ∧
  physical_memory (fst st) = m' ∧
  allocated_ids m' = list_to_set ps ∪ allocated_ids (physical_memory w) ∧
  NoDup ps ∧
  mapped_phys (log (fst st)) = mapped_phys (log w) ++ ps ∧
  programs (log (fst st)) = programs (log w) ∧
  array_writes (log (fst st)) =
    array_writes (log w) ++
    keep_slices K (recv_pid req) (recv_result_array_addr req) duration 0 ds ∧
  processor_msgs (log (fst st)) =
    processor_msgs (log w) ++ replicate (number request) (Text "wrote to array").
Proof.
  intros Hty Hlen Hn Hdur st.
  destruct (allocate_comm_n_ids _ _ _ _ Hn) as (_ & Hnd & _ & Hids).
  rewrite <- Hlen in Hn.
  destruct (receive_ck_run_from (rck_frame now req request) ds 0 w ps m' duration)
    as (Hret & Hpm & Hmap & Hwr & Hmsg); [simpl; lia|done|done|].
  subst st. unfold handle_receive_ck_request. rewrite Hty.
  rewrite <- Hlen. repeat split; try done.
  by rewrite receive_ck_run_programs, rck_for_effect.
Qed.

End WholeKeepFacts.

(** An instance: three pairs on a fresh pool of four qubits, reported
    as B00, B11 and B01; the pairs get the qubits 0, 1 and 2. *)
Lemma create_ck_whole_request_witness :
  let ds := [ {| NetstackMore.at_result := 1000%float;
                 NetstackMore.reported := {| Netstack.bell_state := Netstack.B00 |};
                 NetstackMore.at_program_done := 1000%float |};
              {| NetstackMore.at_result := 2000%float;
                 NetstackMore.reported := {| Netstack.bell_state := Netstack.B11 |};
                 NetstackMore.at_program_done := 2500%float |};
              {| NetstackMore.at_result := 4000%float;
                 NetstackMore.reported := {| Netstack.bell_state := Netstack.B01 |};
                 NetstackMore.at_program_done := 4200%float |} ] in
  let request := Netstack.example_request Netstack.CreateAndKeep 3 in
  let st := Netstack.run
              (Netstack.create_ck_resume Netstack.example_imports
                 (Netstack.ck_frame 0%float Netstack.example_create request))
              (concat (map NetstackMore.creator_signals ds))
              (Netstack.handle_create_ck_request 0%float Netstack.example_create request
                 (Netstack.example_world (Memory.PhysicalQuantumMemory_init 4))) in
  snd st = Netstack.CkReturned ∧
  NetstackMore.mapped_phys (Netstack.log (fst st)) = [0; 1; 2].
Proof.
  intros ds request st.
  destruct (create_ck_whole_request Netstack.example_imports 0%float Netstack.example_create
              request (Netstack.example_world (Memory.PhysicalQuantumMemory_init 4)) ds
              [0; 1; 2]
              (Memory.run_calls (Memory.PhysicalQuantumMemory_init 4)
                 (replicate 3 Memory.CallAllocateComm))
              (λ d, match Netstack.gen_duration_us_int (NetstackMore.creator_time d) 0 with
                    | Ok g => g
                    | Raise _ => 0%Z
                    end))
    as (Hret & _ & _ & _ & Hmap & _).
  - reflexivity.
  - vm_compute. reflexivity.
  - intros d Hd.
    repeat (apply elem_of_cons in Hd as [->|Hd]; [vm_compute; repeat split; discriminate|]).
    by apply elem_of_nil in Hd.
  - split; [exact Hret|exact Hmap].
Defined.

(** An instance: two pairs on the receiver side. *)
Lemma receive_ck_whole_request_witness :
  let ds := [ {| NetstackMore.at_result := 1000%float;
                 NetstackMore.reported := {| Netstack.bell_state := Netstack.B10 |};
                 NetstackMore.at_program_done := 1000%float |};
              {| NetstackMore.at_result := 2000%float;
                 NetstackMore.reported := {| Netstack.bell_state := Netstack.B11 |};
                 NetstackMore.at_program_done := 2500%float |} ] in
  let request := Netstack.example_request Netstack.CreateAndKeep 2 in
  let st := Netstack.run
              (Netstack.receive_ck_resume Netstack.example_imports
                 (Netstack.rck_frame 0%float Netstack.example_receive request))
              (concat (map NetstackMore.receiver_signals ds))
              (Netstack.handle_receive_ck_request 0%float Netstack.example_receive request
                 (Netstack.example_world (Memory.PhysicalQuantumMemory_init 2))) in
  snd st = Netstack.RckReturned ∧
  Netstack.programs (Netstack.log (fst st)) = [].
Proof.
  intros ds request st.
  destruct (receive_ck_whole_request Netstack.example_imports 0%float Netstack.example_receive
              request (Netstack.example_world (Memory.PhysicalQuantumMemory_init 2)) ds
              [0; 1]
              (Memory.run_calls (Memory.PhysicalQuantumMemory_init 2)
                 (replicate 2 Memory.CallAllocateComm))
              (λ d, match Netstack.gen_duration_us_int (NetstackMore.at_result d) 0 with
                    | Ok g => g
                    | Raise _ => 0%Z
                    end))
    as (Hret & _ & _ & _ & _ & Hprog & _).
  - reflexivity.
  - reflexivity.
  - vm_compute. reflexivity.
  - intros d Hd.
    repeat (apply elem_of_cons in Hd as [->|Hd]; [vm_compute; repeat split; discriminate|]).
    by apply elem_of_nil in Hd.
  - split; [exact Hret|exact Hprog].
Defined.

(** ** Whole measure-directly requests *)

Section WholeMeasureFacts.

Import Memory Netstack NetstackMore.

Variable K : Imports.

Lemma write_measure_slice_pm (pid addr pair_index : nat) (result : ResMeasureDirectly)
  (w : World) :
  physical_memory (write_measure_slice K pid addr pair_index result w) = physical_memory w.
Proof. apply write_indexed_log. Qed.

Lemma measure_slice_writes (pid addr i : nat) (result : ResMeasureDirectly) (w : World) :
  array_writes (log (write_measure_slice K pid addr i result w)) =
  array_writes (log w) ++ measure_slices K pid addr i [result].
Proof.
  rewrite write_measure_slice_log, array_writes_app. f_equal. simpl. rewrite ?app_nil_r.
  apply (omap_map_Some _ (λ j, SetArrayValue _ _ _ _)). done.
Qed.

Lemma measure_slices_cons (pid addr i : nat) (r : ResMeasureDirectly)
  (rs : list ResMeasureDirectly) :
  measure_slices K pid addr i (r :: rs) =
  measure_slices K pid addr i [r] ++ measure_slices K pid addr (S i) rs.
Proof. simpl. by rewrite app_nil_r. Qed.

(** The loop that populates the array, on the creator side. *)
Lemma create_md_write_all (pid addr : nat) (rs2 rs1 : list ResMeasureDirectly) (w : World) :
  let r := create_md_write K pid addr (seq (length rs1) (length rs2)) (rs1 ++ rs2) w in
  snd r = None ∧
  physical_memory (fst r) = physical_memory w ∧
  array_writes (log (fst r)) =
    array_writes (log w) ++ measure_slices K pid addr (length rs1) rs2 ∧
  processor_msgs (log (fst r)) = processor_msgs (log w).
Proof.
  revert rs1 w. induction rs2 as [|r2 rs2 IH]; intros rs1 w; simpl.
  - by rewrite app_nil_r.
  - rewrite lookup_app_r by lia. rewrite Nat.sub_diag. simpl.
    specialize (IH (rs1 ++ [r2]) (write_measure_slice K pid addr (length rs1) r2 w)).
    rewrite length_app, Nat.add_1_r, <- app_assoc in IH. simpl in IH.
    destruct IH as (-> & -> & -> & ->).
    rewrite write_measure_slice_pm, measure_slice_writes.
    rewrite write_measure_slice_log, processor_msgs_app, processor_msgs_writes.
    rewrite <- ?app_assoc, ?app_nil_r. simpl. by rewrite ?app_nil_r.
Qed.

(** The same loop on the receiver side, with its message per pair. *)
Lemma receive_md_write_all (pid addr : nat) (rs2 rs1 : list ResMeasureDirectly) (w : World) :
  let r := receive_md_write K pid addr (seq (length rs1) (length rs2)) (rs1 ++ rs2) w in
  snd r = None ∧
  physical_memory (fst r) = physical_memory w ∧
  array_writes (log (fst r)) =
    array_writes (log w) ++ measure_slices K pid addr (length rs1) rs2 ∧
  processor_msgs (log (fst r)) =
    processor_msgs (log w) ++ replicate (length rs2) (Text "wrote to array").
Proof.
  revert rs1 w. induction rs2 as [|r2 rs2 IH]; intros rs1 w; simpl.
  - by rewrite !app_nil_r.
  - rewrite lookup_app_r by lia. rewrite Nat.sub_diag. simpl.
    specialize (IH (rs1 ++ [r2])
                  (send_processor_msg (Text "wrote to array")
                     (write_measure_slice K pid addr (length rs1) r2 w))).
    rewrite length_app, Nat.add_1_r, <- app_assoc in IH. simpl in IH.
    destruct IH as (-> & -> & -> & ->).
    rewrite write_measure_slice_pm, array_writes_app, measure_slice_writes.
    rewrite processor_msgs_app, write_measure_slice_log, processor_msgs_app,
      processor_msgs_writes.
    rewrite <- ?app_assoc, ?app_nil_r. simpl. by rewrite ?app_nil_r.
Qed.

Lemma measure_signals_cons (t : float) (r : ResMeasureDirectly)
  (rs : list (float * ResMeasureDirectly)) :
  measure_signals ((t, r) :: rs) = Fire t (SigResMeasureDirectly r) :: measure_signals rs.
Proof. done. Qed.

(** Allocating a communication qubit and freeing it gives the pool
    back. *)
Lemma allocate_comm_free (m m1 : PhysicalQuantumMemory) (p : nat) :
  allocate_comm m = Ok (p, m1) → free p m1 = Ok m.
Proof. intros Ha. by destruct (allocate_then_free_restores CommSlot m m1 p Ha) as (_ & _ & ?). Qed.

(** One turn of the creator's first loop. *)
Lemma create_md_turn (req : NetstackCreateRequest) (request : ReqCreateBase)
  (p : nat) (m0 m1 : PhysicalQuantumMemory) (t : float) (r : ResMeasureDirectly)
  (iter : nat) (results : list ResMeasureDirectly) (w : World) :
  allocate_comm m0 = Ok (p, m1) → physical_memory w = m0 → iter < number request →
  step (λ _, create_md_resume K req request) (create_md_for K req request iter results w)
    (Fire t (SigResMeasureDirectly r)) =
  create_md_for K req request (S iter) (results ++ [r])
    (set_physical_memory m0 (set_physical_memory m1 w)).
Proof.
  intros Ha Hpm Hlt. unfold create_md_for at 1.
  rewrite (proj2 (Nat.ltb_lt _ _)) by lia. rewrite Hpm, Ha.
  cbn [step fst snd create_md_resume].
  change (physical_memory (set_physical_memory m1 w)) with m1.
  by rewrite (allocate_comm_free _ _ _ Ha).
Qed.

(** The creator from turn [iter] on, while results are still missing:
    nothing is written, the processor hears nothing. *)
Lemma create_md_run_waiting (req : NetstackCreateRequest) (request : ReqCreateBase)
  (p : nat) (m0 m1 : PhysicalQuantumMemory) (rs : list (float * ResMeasureDirectly))
  (iter : nat) (results : list ResMeasureDirectly) (w : World) :
  allocate_comm m0 = Ok (p, m1) → physical_memory w = m0 →
  iter + length rs < number request →
  let st := run (λ _, create_md_resume K req request) (measure_signals rs)
              (create_md_for K req request iter results w) in
  log (fst st) = log w ∧
  snd st = MdAwaitEgp (iter + length rs) p (results ++ map snd rs).
Proof.
  intros Ha. revert iter results w.
  induction rs as [|[t r] rs IH]; intros iter results w Hpm Hlt st; subst st.
  - unfold run, create_md_for. simpl in *.
    rewrite (proj2 (Nat.ltb_lt _ _)) by lia. rewrite Hpm, Ha. simpl.
    by rewrite Nat.add_0_r, app_nil_r.
  - simpl in Hlt. rewrite measure_signals_cons, run_cons.
    rewrite (create_md_turn req request p m0 m1 t r iter results w Ha Hpm) by lia.
    destruct (IH (S iter) (results ++ [r])
                (set_physical_memory m0 (set_physical_memory m1 w)))
      as (Hlog & Hpc); [done|simpl; lia|].
    rewrite Hlog, Hpc. simpl. rewrite <- app_assoc. split; [done|]. f_equal. lia.
Qed.

(** The creator from turn [iter] to the end of the request. *)
Lemma create_md_run_from (req : NetstackCreateRequest) (request : ReqCreateBase)
  (p : nat) (m0 m1 : PhysicalQuantumMemory) (rs : list (float * ResMeasureDirectly))
  (iter : nat) (results : list ResMeasureDirectly) (w : World) :
  allocate_comm m0 = Ok (p, m1) → physical_memory w = m0 →
  length results = iter → iter + length rs = number request →
  let st := run (λ _, create_md_resume K req request) (measure_signals rs)
              (create_md_for K req request iter results w) in
  snd st = MdReturned ∧
  physical_memory (fst st) = m0 ∧
  array_writes (log (fst st)) =
    array_writes (log w) ++
    measure_slices K (pid req) (result_array_addr req) 0 (results ++ map snd rs) ∧
  processor_msgs (log (fst st)) = processor_msgs (log w) ++ [Text "wrote to array"].
Proof.
  intros Ha. revert iter results w.
  induction rs as [|[t r] rs IH]; intros iter results w Hpm Hlen Hn st; subst st.
  - unfold run, create_md_for. simpl in *.
    rewrite (proj2 (Nat.ltb_ge _ _)) by lia.
    assert (number request = length results) as -> by lia.
    destruct (create_md_write_all (pid req) (result_array_addr req) results [] w)
      as (Hnone & Hpm' & Hwr & Hmsg). simpl in *.
    destruct (create_md_write K _ _ _ _ w) as [w' [e|]]; [discriminate|]. simpl in *.
    rewrite app_nil_r, processor_msgs_app, array_writes_app, Hwr, Hmsg. simpl.
    by rewrite app_nil_r, Hpm'.
  - simpl in Hn. rewrite measure_signals_cons, run_cons.
    rewrite (create_md_turn req request p m0 m1 t r iter results w Ha Hpm) by lia.
    destruct (IH (S iter) (results ++ [r])
                (set_physical_memory m0 (set_physical_memory m1 w)))
      as (Hret & Hpm' & Hwr & Hmsg); [done|rewrite length_app; simpl; lia|lia|].
    rewrite Hret, Hpm', Hwr, Hmsg. simpl. by rewrite <- app_assoc.
Qed.

(** X11: a whole measure-directly request on the creator side, when a
    communication qubit is free at the start: with one result per pair
    the handler returns and leaves the pool exactly as it found it (each
    turn frees the qubit it took); as long as a result is missing it has
    written nothing and sent the processor nothing; with the last result
    it writes one slice per pair at consecutive offsets, in the order of
    the results, and then sends the processor one message, whatever the
    number of pairs (also for none). *)
Theorem create_md_whole_request (req : NetstackCreateRequest) (request : ReqCreateBase)
  (w : World) (p : nat) (m1 : PhysicalQuantumMemory) (rs : list (float * ResMeasureDirectly)) :
  allocate_comm (physical_memory w) = Ok (p, m1) →
  length rs = number request →
  let go signals := run (λ _, create_md_resume K req request) signals
                      (handle_create_md_request K req request w) in
  snd (go (measure_signals rs)) = MdReturned ∧
  physical_memory (fst (go (measure_signals rs))) = physical_memory w ∧
  array_writes (log (fst (go (measure_signals rs)))) =
    array_writes (log w) ++
    measure_slices K (pid req) (result_array_addr req) 0 (map snd rs) ∧
  processor_msgs (log (fst (go (measure_signals rs)))) =
    processor_msgs (log w) ++ [Text "wrote to array"] ∧
  ∀ k, k < number request →
       array_writes (log (fst (go (measure_signals (take k rs))))) = array_writes (log w) ∧
       processor_msgs (log (fst (go (measure_signals (take k rs))))) = processor_msgs (log w).
Proof.
  intros Ha Hlen go. subst go. unfold handle_create_md_request. cbn beta.
  set (w0 := act (EgpPut (create_remote_node_id req) (ReqCreate request)) w).
  assert (array_writes (log w0) = array_writes (log w) ∧
          processor_msgs (log w0) = processor_msgs (log w)) as [Hw0 Hm0].
  { subst w0. simpl. by rewrite array_writes_app, processor_msgs_app, !app_nil_r. }
  destruct (create_md_run_from req request p (physical_memory w) m1 rs 0 [] w0)
    as (Hret & Hpm & Hwr & Hmsg); [done..|].
  split; [done|]. split; [done|]. split; [by rewrite Hwr, Hw0|].
  split; [by rewrite Hmsg, Hm0|].
  intros k Hk.
  destruct (create_md_run_waiting req request p (physical_memory w) m1 (take k rs) 0 [] w0)
    as (Hlog & _); [done|done|rewrite length_take; simpl; lia|].
  by rewrite Hlog, Hw0, Hm0.
Qed.

(** One turn of the receiver's first loop. *)
Lemma receive_md_turn (req : NetstackReceiveRequest) (request : ReqCreateBase)
  (p : nat) (m0 m1 : PhysicalQuantumMemory) (t : float) (r : ResMeasureDirectly)
  (iter : nat) (results : list ResMeasureDirectly) (w : World) :
  allocate_comm m0 = Ok (p, m1) → physical_memory w = m0 → iter < number request →
  step (λ _, receive_md_resume K req request) (receive_md_for K req request iter results w)
    (Fire t (SigResMeasureDirectly r)) =
  receive_md_for K req request (S iter) (results ++ [r])
    (set_physical_memory m0 (set_physical_memory m1 w)).
Proof.
  intros Ha Hpm Hlt. unfold receive_md_for at 1, qdevice_allocate_comm.
  rewrite (proj2 (Nat.ltb_lt _ _)) by lia. rewrite Hpm, Ha.
  cbn [step fst snd receive_md_resume].
  change (physical_memory (set_physical_memory m1 w)) with m1.
  by rewrite (allocate_comm_free _ _ _ Ha).
Qed.

Lemma receive_md_run_waiting (req : NetstackReceiveRequest) (request : ReqCreateBase)
  (p : nat) (m0 m1 : PhysicalQuantumMemory) (rs : list (float * ResMeasureDirectly))
  (iter : nat) (results : list ResMeasureDirectly) (w : World) :
  allocate_comm m0 = Ok (p, m1) → physical_memory w = m0 →
  iter + length rs < number request →
  let st := run (λ _, receive_md_resume K req request) (measure_signals rs)
              (receive_md_for K req request iter results w) in
  log (fst st) = log w ∧
  snd st = MdAwaitEgp (iter + length rs) p (results ++ map snd rs).
Proof.
  intros Ha. revert iter results w.
  induction rs as [|[t r] rs IH]; intros iter results w Hpm Hlt st; subst st.
  - unfold run, receive_md_for, qdevice_allocate_comm. simpl in *.
    rewrite (proj2 (Nat.ltb_lt _ _)) by lia. rewrite Hpm, Ha. simpl.
    by rewrite Nat.add_0_r, app_nil_r.
  - simpl in Hlt. rewrite measure_signals_cons, run_cons.
    rewrite (receive_md_turn req request p m0 m1 t r iter results w Ha Hpm) by lia.
    destruct (IH (S iter) (results ++ [r])
                (set_physical_memory m0 (set_physical_memory m1 w)))
      as (Hlog & Hpc); [done|simpl; lia|].
    rewrite Hlog, Hpc. simpl. rewrite <- app_assoc. split; [done|]. f_equal. lia.
Qed.

Lemma receive_md_run_from (req : NetstackReceiveRequest) (request : ReqCreateBase)
  (p : nat) (m0 m1 : PhysicalQuantumMemory) (rs : list (float * ResMeasureDirectly))
  (iter : nat) (results : list ResMeasureDirectly) (w : World) :
  allocate_comm m0 = Ok (p, m1) → physical_memory w = m0 →
  length results = iter → iter + length rs = number request →
  let st := run (λ _, receive_md_resume K req request) (measure_signals rs)
              (receive_md_for K req request iter results w) in
  snd st = MdReturned ∧
  physical_memory (fst st) = m0 ∧
  array_writes (log (fst st)) =
    array_writes (log w) ++
    measure_slices K (recv_pid req) (recv_result_array_addr req) 0 (results ++ map snd rs) ∧
  processor_msgs (log (fst st)) =
    processor_msgs (log w) ++ replicate (number request) (Text "wrote to array").
Proof.
  intros Ha. revert iter results w.
  induction rs as [|[t r] rs IH]; intros iter results w Hpm Hlen Hn st; subst st.
  - unfold run, receive_md_for. simpl in *.
    rewrite (proj2 (Nat.ltb_ge _ _)) by lia.
    assert (number request = length results) as -> by lia.
    destruct (receive_md_write_all (recv_pid req) (recv_result_array_addr req) results [] w)
      as (Hnone & Hpm' & Hwr & Hmsg). simpl in *.
    destruct (receive_md_write K _ _ _ _ w) as [w' [e|]]; [discriminate|]. simpl in *.
    by rewrite app_nil_r, Hwr, Hmsg, Hpm'.
  - simpl in Hn. rewrite measure_signals_cons, run_cons.
    rewrite (receive_md_turn req request p m0 m1 t r iter results w Ha Hpm) by lia.
    destruct (IH (S iter) (results ++ [r])
                (set_physical_memory m0 (set_physical_memory m1 w)))
      as (Hret & Hpm' & Hwr & Hmsg); [done|rewrite length_app; simpl; lia|lia|].
    rewrite Hret, Hpm', Hwr, Hmsg. simpl. by rewrite <- app_assoc.
Qed.

(** X12: a whole measure-directly request on the receiver side, under
    the same condition and for a request that is a measure-directly
    request: the handler returns and leaves the pool as it found it; as
    long as a result is missing it has written nothing and sent the
    processor nothing; with the last result it writes one slice per
    pair, in the order of the results, and sends the processor one
    message per pair (none for a request of no pair). *)
Theorem receive_md_whole_request (req : NetstackReceiveRequest) (request : ReqCreateBase)
  (w : World) (p : nat) (m1 : PhysicalQuantumMemory) (rs : list (float * ResMeasureDirectly)) :
  req_type request = MeasureDirectly →
  allocate_comm (physical_memory w) = Ok (p, m1) →
  length rs = number request →
  let go signals := run (λ _, receive_md_resume K req request) signals
                      (handle_receive_md_request K req request w) in
  snd (go (measure_signals rs)) = MdReturned ∧
  physical_memory (fst (go (measure_signals rs))) = physical_memory w ∧
  array_writes (log (fst (go (measure_signals rs)))) =
    array_writes (log w) ++
    measure_slices K (recv_pid req) (recv_result_array_addr req) 0 (map snd rs) ∧
  processor_msgs (log (fst (go (measure_signals rs)))) =
    processor_msgs (log w) ++ replicate (number request) (Text "wrote to array") ∧
  ∀ k, k < number request →
       array_writes (log (fst (go (measure_signals (take k rs))))) = array_writes (log w) ∧
       processor_msgs (log (fst (go (measure_signals (take k rs))))) = processor_msgs (log w).
Proof.
  intros Hty Ha Hlen go. subst go. unfold handle_receive_md_request. rewrite Hty. cbn beta.
  set (w0 := act (EgpPut (recv_remote_node_id req) (ReqReceive (recv_remote_node_id req))) w).
  assert (array_writes (log w0) = array_writes (log w) ∧
          processor_msgs (log w0) = processor_msgs (log w)) as [Hw0 Hm0].
  { subst w0. simpl. by rewrite array_writes_app, processor_msgs_app, !app_nil_r. }
  destruct (receive_md_run_from req request p (physical_memory w) m1 rs 0 [] w0)
    as (Hret & Hpm & Hwr & Hmsg); [done..|].
  split; [done|]. split; [done|]. split; [by rewrite Hwr, Hw0|].
  split; [by rewrite Hmsg, Hm0|].
  intros k Hk.
  destruct (receive_md_run_waiting req request p (physical_memory w) m1 (take k rs) 0 [] w0)
    as (Hlog & _); [done|done|rewrite length_take; simpl; lia|].
  by rewrite Hlog, Hw0, Hm0.
Qed.

End WholeMeasureFacts.

(** An instance: three pairs on a pool of one qubit. *)
Lemma create_md_whole_request_witness :
  let request := Netstack.example_request Netstack.MeasureDirectly 3 in
  let w := Netstack.example_world (Memory.PhysicalQuantumMemory_init 1) in
  let r b := {| Netstack.measurement_outcome := 1; Netstack.measurement_basis := 0;
                Netstack.md_bell_state := b |} in
  let rs := [(10%float, r Netstack.B00); (20%float, r Netstack.B01);
             (30%float, r Netstack.B10)] in
  let st := Netstack.run
              (λ _, Netstack.create_md_resume Netstack.example_imports
                      Netstack.example_create request)
              (NetstackMore.measure_signals rs)
              (Netstack.handle_create_md_request Netstack.example_imports
                 Netstack.example_create request w) in
  snd st = Netstack.MdReturned ∧
  Netstack.physical_memory (fst st) = Memory.PhysicalQuantumMemory_init 1 ∧
  Netstack.processor_msgs (Netstack.log (fst st)) = [Netstack.Text "wrote to array"].
Proof.
  intros request w r rs st.
  destruct (create_md_whole_request Netstack.example_imports Netstack.example_create
              request w 0 (Memory.add_allocated 0 (Memory.PhysicalQuantumMemory_init 1)) rs)
    as (Hret & Hpm & _ & Hmsg & _).
  - vm_compute. reflexivity.
  - reflexivity.
  - split; [exact Hret|]. split; [exact Hpm|exact Hmsg].
Defined.

(** An instance: the same request on the receiver side. *)
Lemma receive_md_whole_request_witness :
  let request := Netstack.example_request Netstack.MeasureDirectly 3 in
  let w := Netstack.example_world (Memory.PhysicalQuantumMemory_init 1) in
  let r b := {| Netstack.measurement_outcome := 1; Netstack.measurement_basis := 0;
                Netstack.md_bell_state := b |} in
  let rs := [(10%float, r Netstack.B00); (20%float, r Netstack.B01);
             (30%float, r Netstack.B10)] in
  let st := Netstack.run
              (λ _, Netstack.receive_md_resume Netstack.example_imports
                      Netstack.example_receive request)
              (NetstackMore.measure_signals rs)
              (Netstack.handle_receive_md_request Netstack.example_imports
                 Netstack.example_receive request w) in
  snd st = Netstack.MdReturned ∧
  Netstack.processor_msgs (Netstack.log (fst st)) =
    replicate 3 (Netstack.Text "wrote to array").
Proof.
  intros request w r rs st.
  destruct (receive_md_whole_request Netstack.example_imports Netstack.example_receive
              request w 0 (Memory.add_allocated 0 (Memory.PhysicalQuantumMemory_init 1)) rs)
    as (Hret & _ & _ & Hmsg & _).
  - reflexivity.
  - vm_compute. reflexivity.
  - reflexivity.
  - split; [exact Hret|exact Hmsg].
Defined.

(** ** Waiting for a communication qubit *)

Section WaitingFacts.

Import Memory Netstack NetstackMore.

Variable K : Imports.

(** Freeing a qubit outside the communication subset does not help
    [allocate_comm]. *)
Lemma free_other_keeps_exhausted (m m' : PhysicalQuantumMemory) (id : nat) :
  allocate_comm m = Raise AllocError → id ∉ comm_qubit_ids m → free id m = Ok m' →
  allocate_comm m' = Raise AllocError ∧ comm_qubit_ids m' = comm_qubit_ids m.
Proof.
  intros Ha Hid. unfold free. case_bool_decide; [|discriminate]. intros [= <-].
  split; [|done]. apply (alloc_Raise CommSlot). intros j [Hj Hc]. simpl in *.
  pose proof (proj2 (alloc_Raise CommSlot m) Ha j (conj Hj Hc)). set_solver.
Qed.

(** What stays true of a world in which the handlers wait. *)
Lemma env_step_keeps_exhausted (s : Stimulus) (w : World) (comm : gset nat) :
  allocate_comm (physical_memory w) = Raise AllocError →
  comm_qubit_ids (physical_memory w) = comm →
  (∀ id, id ∈ freed_ids [s] → id ∉ comm) →
  allocate_comm (physical_memory (env_step s w)) = Raise AllocError ∧
  comm_qubit_ids (physical_memory (env_step s w)) = comm ∧
  log (env_step s w) = log w.
Proof.
  intros Ha Hc Hfree. destruct s as [id|msgs|msgs|t sig]; simpl; try done.
  destruct (free id (physical_memory w)) as [m'|e] eqn:Hf; [|done]. simpl.
  destruct (free_other_keeps_exhausted (physical_memory w) m' id Ha) as [Ha' Hc']; [|done|].
  { rewrite Hc. apply Hfree. simpl. set_solver. }
  by rewrite Hc' in *.
Qed.

(** X13: a create-and-keep handler (creator or receiver) that waits for
    a communication qubit stays suspended, and does nothing, whatever
    signals fire and whatever arrives, as long as no qubit of the
    communication subset is freed. *)
Theorem ck_waits_until_comm_qubit_freed (fr : CkFrame) (rfr : RckFrame) (i : nat)
  (w : World) (stimuli : list Stimulus) :
  allocate_comm (physical_memory w) = Raise AllocError →
  (∀ id, id ∈ freed_ids stimuli → id ∉ comm_qubit_ids (physical_memory w)) →
  let cst := run (create_ck_resume K fr) stimuli (w, CkAwaitMemoryFreed i) in
  let rst := run (receive_ck_resume K rfr) stimuli (w, RckAwaitMemoryFreed i) in
  snd cst = CkAwaitMemoryFreed i ∧ log (fst cst) = log w ∧
  snd rst = RckAwaitMemoryFreed i ∧ log (fst rst) = log w.
Proof.
  intros Ha Hfree.
  assert (∀ w', allocate_comm (physical_memory w') = Raise AllocError →
                comm_qubit_ids (physical_memory w') = comm_qubit_ids (physical_memory w) →
                log w' = log w →
                let cst := run (create_ck_resume K fr) stimuli (w', CkAwaitMemoryFreed i) in
                let rst := run (receive_ck_resume K rfr) stimuli (w', RckAwaitMemoryFreed i) in
                snd cst = CkAwaitMemoryFreed i ∧ log (fst cst) = log w ∧
                snd rst = RckAwaitMemoryFreed i ∧ log (fst rst) = log w) as Hgen;
    [|by apply Hgen].
  induction stimuli as [|s stimuli IH]; intros w' Ha' Hc' Hl'; [done|].
  rewrite !run_cons.
  assert (∀ id, id ∈ freed_ids [s] → id ∉ comm_qubit_ids (physical_memory w)) as Hs.
  { intros id Hid. apply Hfree. destruct s; simpl in *; set_solver. }
  assert (∀ id, id ∈ freed_ids stimuli → id ∉ comm_qubit_ids (physical_memory w)) as Hrest.
  { intros id Hid. apply Hfree. destruct s; simpl in *; set_solver. }
  destruct s as [id|msgs|msgs|t sig].
  1-3: match goal with |- context [step _ _ ?s] =>
         destruct (env_step_keeps_exhausted s w' _ Ha' Hc' Hs) as (Ha2 & Hc2 & Hl2) end;
       cbn [step fst snd]; apply IH; try done; congruence.
  cbn [step fst snd].
  destruct sig; cbn [create_ck_resume receive_ck_resume];
    try (by apply IH).
  unfold ck_try_allocate, rck_try_allocate. rewrite Ha'. by apply IH.
Qed.

(** X14: the wait ends with the first memory-freed signal after the
    processor frees a communication qubit: the handler (creator or
    receiver) takes that very qubit, so that the pool is again as it
    was, puts its request to the EGP and waits for the result of the
    same pair. *)
Theorem ck_wakes_on_freed_comm_qubit (fr : CkFrame) (rfr : RckFrame) (i id : nat) (t : float)
  (w : World) :
  allocate_comm (physical_memory w) = Raise AllocError →
  id < qubit_count (physical_memory w) → id ∈ comm_qubit_ids (physical_memory w) →
  let stimuli := [ProcessorFrees id; Fire t SIGNAL_MEMORY_FREED] in
  let cst := run (create_ck_resume K fr) stimuli (w, CkAwaitMemoryFreed i) in
  let rst := run (receive_ck_resume K rfr) stimuli (w, RckAwaitMemoryFreed i) in
  snd cst = CkAwaitEgp i id ∧
  physical_memory (fst cst) = physical_memory w ∧
  log (fst cst) =
    log w ++ [EgpPut (create_remote_node_id (ck_req fr)) (ReqCreate (ck_request fr))] ∧
  snd rst = RckAwaitEgp i id ∧
  physical_memory (fst rst) = physical_memory w ∧
  log (fst rst) =
    log w ++ [EgpPut (recv_remote_node_id (rck_req rfr))
                (ReqReceive (recv_remote_node_id (rck_req rfr)))].
Proof.
  intros Ha Hid Hc stimuli.
  pose proof (proj2 (alloc_Raise CommSlot (physical_memory w)) Ha id (conj Hid Hc)) as Hin.
  simpl in Hin.
  set (mf := {| qubit_count := qubit_count (physical_memory w);
                allocated_ids := allocated_ids (physical_memory w) ∖ {[ id ]};
                comm_qubit_ids := comm_qubit_ids (physical_memory w) |}).
  assert (free id (physical_memory w) = Ok mf) as Hf.
  { unfold free. by rewrite bool_decide_eq_true_2. }
  assert (allocate_comm mf = Ok (id, physical_memory w)) as Hal.
  { assert (add_allocated id mf = physical_memory w) as <-.
    { destruct (physical_memory w) as [c A comm]. unfold add_allocated, mf. simpl in *.
      f_equal. apply set_eq. intros j.
      rewrite elem_of_union, elem_of_difference, elem_of_singleton.
      destruct (decide (j = id)); naive_solver. }
    apply (alloc_Ok_intro CommSlot).
    - simpl. set_solver.
    - by split.
    - intros j [Hjc Hjm] Hj. simpl in *.
      pose proof (proj2 (alloc_Raise CommSlot (physical_memory w)) Ha j (conj Hjc Hjm)).
      destruct (decide (j = id)) as [->|]; [lia|]. set_solver. }
  unfold stimuli, run. cbn [foldl step env_step fst snd]. rewrite Hf.
  cbn [create_ck_resume receive_ck_resume].
  unfold ck_try_allocate, rck_try_allocate.
  change (physical_memory (set_physical_memory mf w)) with mf. rewrite Hal.
  repeat split.
Qed.

End WaitingFacts.

(** An instance: an NV pool of two qubits, both taken; the processor
    frees qubit 1, a memory qubit, and the signal fires: the handler
    waits on. *)
Lemma ck_waits_until_comm_qubit_freed_witness :
  let w := Netstack.example_world
             (Memory.run_calls (Memory.NVPhysicalQuantumMemory_init 2)
                [Memory.CallAllocateComm; Memory.CallAllocateMem]) in
  let fr := Netstack.ck_frame 0%float Netstack.example_create
              (Netstack.example_request Netstack.CreateAndKeep 2) in
  snd (Netstack.run (Netstack.create_ck_resume Netstack.example_imports fr)
         [Netstack.ProcessorFrees 1; Netstack.Fire 1%float Netstack.SIGNAL_MEMORY_FREED]
         (w, Netstack.CkAwaitMemoryFreed 1)) = Netstack.CkAwaitMemoryFreed 1.
Proof.
  intros w fr.
  apply (ck_waits_until_comm_qubit_freed Netstack.example_imports fr
           (Netstack.rck_frame 0%float Netstack.example_receive
              (Netstack.example_request Netstack.CreateAndKeep 2)) 1 w
           [Netstack.ProcessorFrees 1; Netstack.Fire 1%float Netstack.SIGNAL_MEMORY_FREED]).
  - vm_compute. reflexivity.
  - intros id Hid. apply list_elem_of_singleton in Hid as ->. vm_compute.
    intros H. discriminate.
Defined.

(** An instance: on the same pool, the processor frees qubit 0. *)
Lemma ck_wakes_on_freed_comm_qubit_witness :
  let w := Netstack.example_world
             (Memory.run_calls (Memory.NVPhysicalQuantumMemory_init 2)
                [Memory.CallAllocateComm; Memory.CallAllocateMem]) in
  let fr := Netstack.ck_frame 0%float Netstack.example_create
              (Netstack.example_request Netstack.CreateAndKeep 2) in
  snd (Netstack.run (Netstack.create_ck_resume Netstack.example_imports fr)
         [Netstack.ProcessorFrees 0; Netstack.Fire 1%float Netstack.SIGNAL_MEMORY_FREED]
         (w, Netstack.CkAwaitMemoryFreed 1)) = Netstack.CkAwaitEgp 1 0.
Proof.
  intros w fr.
  apply (ck_wakes_on_freed_comm_qubit Netstack.example_imports fr
           (Netstack.rck_frame 0%float Netstack.example_receive
              (Netstack.example_request Netstack.CreateAndKeep 2)) 1 0 1%float w).
  - vm_compute. reflexivity.
  - vm_compute. lia.
  - vm_compute. reflexivity.
Defined.

(** ** What the pair handlers leave alone *)

Section QuietFacts.

Import Memory Netstack NetstackMore.

Variable K : Imports.

Lemma exchanged_app (l1 l2 : list Action) : exchanged (l1 ++ l2) = exchanged l1 ++ exchanged l2.
Proof. apply omap_app. Qed.

Lemma silent_refl (w : World) : silent w w.
Proof. done. Qed.

Lemma silent_trans (w1 w2 w3 : World) : silent w1 w2 → silent w2 w3 → silent w1 w3.
Proof. unfold silent. intros (H1 & H2 & H3) (-> & -> & ->). done. Qed.

Lemma silent_act (a : Action) (w : World) : exchanged [a] = [] → silent w (act a w).
Proof.
  intros Ha. unfold silent. simpl. rewrite exchanged_app, Ha. by rewrite app_nil_r.
Qed.

Lemma silent_set_physical_memory (pm : PhysicalQuantumMemory) (w : World) :
  silent w (set_physical_memory pm w).
Proof. done. Qed.

Lemma silent_write_indexed (pid addr : nat) (pos : nat → nat) (val : nat → Z)
  (indices : list nat) (w : World) :
  silent w (foldl (λ w i, set_array_value pid addr (pos i) (val i) w) w indices).
Proof.
  destruct (write_indexed_log pid addr pos val indices w) as (Hl & _ & Hb & Hp).
  unfold silent. rewrite Hl, Hb, Hp, exchanged_app.
  unfold exchanged at 2. rewrite omap_map_None by done. by rewrite app_nil_r.
Qed.

Lemma silent_ck_try_allocate (fr : CkFrame) (i : nat) (w : World) :
  silent w (fst (ck_try_allocate fr i w)).
Proof.
  unfold ck_try_allocate.
  destruct (allocate_comm (physical_memory w)) as [[p pm]|[]]; try done.
  simpl. by apply (silent_trans _ (set_physical_memory pm w)), silent_act.
Qed.

Lemma silent_rck_try_allocate (fr : RckFrame) (i : nat) (w : World) :
  silent w (fst (rck_try_allocate fr i w)).
Proof.
  unfold rck_try_allocate.
  destruct (allocate_comm (physical_memory w)) as [[p pm]|[]]; try done.
  simpl. by apply (silent_trans _ (set_physical_memory pm w)), silent_act.
Qed.

Lemma silent_ck_for (fr : CkFrame) (i : nat) (w : World) : silent w (fst (ck_for fr i w)).
Proof.
  unfold ck_for. destruct (i <? ck_num_pairs fr); [|done]. apply silent_ck_try_allocate.
Qed.

Lemma silent_rck_for (fr : RckFrame) (i : nat) (w : World) : silent w (fst (rck_for fr i w)).
Proof.
  unfold rck_for. destruct (i <? rck_num_pairs fr); [|done]. apply silent_rck_try_allocate.
Qed.

Lemma silent_ck_deliver (fr : CkFrame) (now : float) (i p : nat) (result : ResCreateAndKeep)
  (w : World) :
  silent w (fst (ck_deliver K fr now i p result w)).
Proof.
  unfold ck_deliver. destruct (gen_duration_us_int now (ck_start_time fr)) as [g|e].
  - eapply silent_trans; [|apply silent_ck_for].
    eapply silent_trans; [|by apply silent_act].
    eapply silent_trans; [|apply silent_write_indexed].
    by apply silent_act.
  - by apply silent_act.
Qed.

Lemma silent_rck_deliver (fr : RckFrame) (now : float) (i p : nat) (result : ResCreateAndKeep)
  (w : World) :
  silent w (fst (rck_deliver K fr now i p result w)).
Proof.
  unfold rck_deliver. destruct (gen_duration_us_int now (rck_start_time fr)) as [g|e].
  - eapply silent_trans; [|apply silent_rck_for].
    eapply silent_trans; [|by apply silent_act].
    eapply silent_trans; [|apply silent_write_indexed].
    by apply silent_act.
  - by apply silent_act.
Qed.

Lemma silent_create_ck_resume (fr : CkFrame) (now : float) (sig : Signal) (pc : CkPc) (w : World) :
  silent w (fst (create_ck_resume K fr now sig pc w)).
Proof.
  destruct pc as [i|i p|i p result| |e], sig as [| | |r|r|]; simpl; try done.
  - apply silent_ck_try_allocate.
  - destruct (bell_state r); try (by apply silent_act). apply silent_ck_deliver.
  - apply silent_ck_deliver.
Qed.

Lemma silent_receive_ck_resume (fr : RckFrame) (now : float) (sig : Signal) (pc : RckPc)
  (w : World) :
  silent w (fst (receive_ck_resume K fr now sig pc w)).
Proof.
  destruct pc as [i|i p| |e], sig as [| | |r|r|]; simpl; try done.
  - apply silent_rck_try_allocate.
  - apply silent_rck_deliver.
Qed.

Lemma silent_create_md_write (pid addr : nat) (indices : list nat)
  (results : list ResMeasureDirectly) (w : World) :
  silent w (fst (create_md_write K pid addr indices results w)).
Proof.
  revert w. induction indices as [|i indices IH]; intros w; simpl; [done|].
  destruct (results !! i) as [result|]; [|done].
  eapply silent_trans; [|apply IH]. apply silent_write_indexed.
Qed.

Lemma silent_receive_md_write (pid addr : nat) (indices : list nat)
  (results : list ResMeasureDirectly) (w : World) :
  silent w (fst (receive_md_write K pid addr indices results w)).
Proof.
  revert w. induction indices as [|i indices IH]; intros w; simpl; [done|].
  destruct (results !! i) as [result|]; [|done].
  eapply silent_trans; [|apply IH].
  eapply silent_trans; [apply silent_write_indexed|]. by apply silent_act.
Qed.

Lemma silent_create_md_for (req : NetstackCreateRequest) (request : ReqCreateBase)
  (iter : nat) (results : list ResMeasureDirectly) (w : World) :
  silent w (fst (create_md_for K req request iter results w)).
Proof.
  unfold create_md_for. destruct (iter <? number request).
  - by destruct (allocate_comm (physical_memory w)) as [[p pm]|e].
  - pose proof (silent_create_md_write (pid req) (result_array_addr req)
                  (seq 0 (number request)) results w) as Hw.
    destruct (create_md_write _ _ _ _ _ _) as [w' [e|]]; simpl in *; [done|].
    eapply silent_trans; [exact Hw|]. by apply silent_act.
Qed.

Lemma silent_receive_md_for (req : NetstackReceiveRequest) (request : ReqCreateBase)
  (iter : nat) (results : list ResMeasureDirectly) (w : World) :
  silent w (fst (receive_md_for K req request iter results w)).
Proof.
  unfold receive_md_for, qdevice_allocate_comm. destruct (iter <? number request).
  - by destruct (allocate_comm (physical_memory w)) as [[p pm]|e].
  - pose proof (silent_receive_md_write (recv_pid req) (recv_result_array_addr req)
                  (seq 0 (number request)) results w) as Hw.
    by destruct (receive_md_write _ _ _ _ _ _) as [w' [e|]].
Qed.

Lemma silent_create_md_resume (req : NetstackCreateRequest) (request : ReqCreateBase)
  (sig : Signal) (pc : MdPc) (w : World) :
  silent w (fst (create_md_resume K req request sig pc w)).
Proof.
  destruct pc as [iter p results| |e], sig as [| | |r|r|]; simpl; try done.
  destruct (free p (physical_memory w)) as [pm|e]; [|done].
  eapply silent_trans; [|apply silent_create_md_for]. done.
Qed.

Lemma silent_receive_md_resume (req : NetstackReceiveRequest) (request : ReqCreateBase)
  (sig : Signal) (pc : MdPc) (w : World) :
  silent w (fst (receive_md_resume K req request sig pc w)).
Proof.
  destruct pc as [iter p results| |e], sig as [| | |r|r|]; simpl; try done.
  destruct (free p (physical_memory w)) as [pm|e]; [|done].
  eapply silent_trans; [|apply silent_receive_md_for]. done.
Qed.

Lemma peer_arrivals_cons (s : Stimulus) (stimuli : list Stimulus) :
  peer_arrivals (s :: stimuli) =
  match s with PeerArrival msgs => msgs | _ => [] end ++ peer_arrivals stimuli.
Proof. by destruct s. Qed.

Lemma processor_arrivals_cons (s : Stimulus) (stimuli : list Stimulus) :
  processor_arrivals (s :: stimuli) =
  match s with ProcessorArrival msgs => msgs | _ => [] end ++ processor_arrivals stimuli.
Proof. by destruct s. Qed.

(** A handler whose every resumption is silent, under any stimuli:
    what arrives stays in the buffers. *)
Lemma silent_run {Pc : Type} (resume : float → Signal → Pc → World → World * Pc)
  (stimuli : list Stimulus) (st : World * Pc) :
  (∀ now sig pc w, silent w (fst (resume now sig pc w))) →
  let w' := fst (run resume stimuli st) in
  exchanged (log w') = exchanged (log (fst st)) ∧
  peer_buffer w' = peer_buffer (fst st) ++ peer_arrivals stimuli ∧
  processor_buffer w' = processor_buffer (fst st) ++ processor_arrivals stimuli.
Proof.
  intros Hres. cbv zeta. revert st. induction stimuli as [|s stimuli IH]; intros st.
  - simpl. by rewrite !app_nil_r.
  - rewrite run_cons, peer_arrivals_cons, processor_arrivals_cons.
    destruct (IH (step resume st s)) as (-> & -> & ->).
    destruct s as [id|msgs|msgs|t sig]; cbn [step fst snd].
    + rewrite env_step_log. simpl. by destruct (free id (physical_memory (fst st))).
    + simpl. by rewrite <- app_assoc.
    + simpl. by rewrite <- app_assoc.
    + destruct (Hres t sig (snd st) (fst st)) as (-> & -> & ->). done.
Qed.

(** X15: the four pair handlers (create-and-keep and measure-directly,
    creator and receiver) never send anything to the peer and never take
    a message from the peer's or the processor's buffer, whatever
    happens around them: all messaging between the nodes is in the
    handshake that precedes them, and what arrives meanwhile stays
    buffered, in order. *)
Theorem pair_handlers_exchange_no_message (stimuli : list Stimulus) (w : World)
  (fr : CkFrame) (ckpc : CkPc) (rfr : RckFrame) (rckpc : RckPc)
  (creq : NetstackCreateRequest) (rreq : NetstackReceiveRequest) (request : ReqCreateBase)
  (mdpc : MdPc) :
  let untouched (w' : World) :=
    exchanged (log w') = exchanged (log w) ∧
    peer_buffer w' = peer_buffer w ++ peer_arrivals stimuli ∧
    processor_buffer w' = processor_buffer w ++ processor_arrivals stimuli in
  untouched (fst (run (create_ck_resume K fr) stimuli (w, ckpc))) ∧
  untouched (fst (run (receive_ck_resume K rfr) stimuli (w, rckpc))) ∧
  untouched (fst (run (λ _, create_md_resume K creq request) stimuli (w, mdpc))) ∧
  untouched (fst (run (λ _, receive_md_resume K rreq request) stimuli (w, mdpc))).
Proof.
  intros untouched. unfold untouched. repeat split.
  all: try (apply (silent_run (create_ck_resume K fr) stimuli (w, ckpc));
            intros; apply silent_create_ck_resume).
  all: try (apply (silent_run (receive_ck_resume K rfr) stimuli (w, rckpc));
            intros; apply silent_receive_ck_resume).
  all: try (apply (silent_run (λ _, create_md_resume K creq request) stimuli (w, mdpc));
            intros; apply silent_create_md_resume).
  all: try (apply (silent_run (λ _, receive_md_resume K rreq request) stimuli (w, mdpc));
            intros; apply silent_receive_md_resume).
Qed.

End QuietFacts.

(** ** The handshake and the requests behind it *)

Section HandshakeFacts.

Import Memory MemoryMore Netstack NetstackMore.

Variable K : Imports.
Variable CI : CreateImports.

(** [yield from]: the delegating handler moves as the handler it
    delegates to. *)
Lemma run_wrap_create_ck (req : NetstackCreateRequest) (fr : CkFrame)
  (stimuli : list Stimulus) (st : World * CkPc) :
  run (create_request_resume K req) stimuli (wrap_create_ck fr st) =
  wrap_create_ck fr (run (create_ck_resume K fr) stimuli st).
Proof.
  revert st. induction stimuli as [|s stimuli IH]; intros st; [done|].
  rewrite !run_cons, <- IH. f_equal.
  destruct st as [w pc], s as [id|msgs|msgs|t sig]; by destruct pc.
Qed.

Lemma run_wrap_receive_ck (req : NetstackReceiveRequest) (fr : RckFrame)
  (stimuli : list Stimulus) (st : World * RckPc) :
  run (receive_request_resume K req) stimuli (wrap_receive_ck fr st) =
  wrap_receive_ck fr (run (receive_ck_resume K fr) stimuli st).
Proof.
  revert st. induction stimuli as [|s stimuli IH]; intros st; [done|].
  rewrite !run_cons, <- IH. f_equal.
  destruct st as [w pc], s as [id|msgs|msgs|t sig]; by destruct pc.
Qed.

(** The handshake of the creator: the request goes out, the handler
    waits, and the first message from the peer, whatever it holds, lets
    it go on. *)
Lemma create_handshake (sockets : gmap nat (list EprSocket)) (sck : EprSocket) (now t0 : float)
  (req : NetstackCreateRequest) (args : list (option Z)) (made : MadeRequest)
  (ack : Content) (w : World) (rest : list Stimulus) :
  find_epr_socket (pid req) (epr_socket_id req) (create_remote_node_id req) sockets
    = Some sck →
  construct_request CI (create_remote_node_id req) args = Fine made →
  peer_buffer w = [] →
  run (create_request_resume K req)
    (PeerArrival [ack] :: Fire t0 SIGNAL_PEER_NSTK_MSG :: rest)
    (handle_create_request K CI sockets now req args w) =
  run (create_request_resume K req) rest
    (create_dispatch K t0 req made
       (act (GotPeerMsg ack) (send_peer_msg (LinkRequest (as_base made)) w))).
Proof.
  intros Hs Hm Hb. unfold handle_create_request. rewrite Hs, Hm.
  destruct w as [pm sm pb prb l]. simpl in Hb. subst pb. reflexivity.
Qed.

(** The handshake of the receiver: it waits for the first message from
    the peer, answers "ready" and goes on according to what the message
    holds. *)
Lemma receive_handshake (sockets : gmap nat (list EprSocket)) (sck : EprSocket) (now t0 : float)
  (req : NetstackReceiveRequest) (msg : Content) (w : World) (rest : list Stimulus) :
  find_epr_socket (recv_pid req) (recv_epr_socket_id req) (recv_remote_node_id req) sockets
    = Some sck →
  peer_buffer w = [] →
  run (receive_request_resume K req)
    (PeerArrival [msg] :: Fire t0 SIGNAL_PEER_NSTK_MSG :: rest)
    (handle_receive_request K sockets now req w) =
  run (receive_request_resume K req) rest
    (receive_dispatch K t0 req msg (act (GotPeerMsg msg) w)).
Proof.
  intros Hs Hb. unfold handle_receive_request. rewrite Hs.
  destruct w as [pm sm pb prb l]. simpl in Hb. subst pb. reflexivity.
Qed.

Lemma construct_request_typed (remote_id : nat) (args : list (option Z)) (typ : Z) (n : nat)
  (t : ReqType) :
  args !! SER_CREATE_IDX_TYPE CI = Some (Some typ) →
  args !! SER_CREATE_IDX_NUMBER CI = Some (Some (Z.of_nat n)) →
  (typ = 0%Z ∧ t = CreateAndKeep) ∨ (typ = 1%Z ∧ t = MeasureDirectly)
    ∨ (typ = 2%Z ∧ t = RemoteStatePrep) →
  ∃ made, construct_request CI remote_id args = Fine made ∧
          made_type made = t ∧
          as_base made = {| req_type := t; remote_node_id := remote_id; number := n |}.
Proof.
  intros Ht Hn Htyp. unfold construct_request. rewrite Ht, Hn.
  destruct Htyp as [[-> ->]|[[-> ->]|[-> ->]]]; simpl;
    (eexists; split; [reflexivity|]); (split; [done|]);
    unfold as_base; simpl; by rewrite Nat2Z.id.
Qed.

(** X16: a create-and-keep request of the application, from the call of
    [handle_create_request] to its return.  With the socket open and the
    arguments array holding type 0 and [n] pairs, the handler sends the
    link-layer request to the peer, takes the first message that comes
    back (whatever it holds) as the acknowledgement, and then delivers
    the [n] pairs; the durations written are the truncations of the
    floats [(clock - t0) / 1000], finite by hypothesis, where [t0] is
    the clock at the acknowledgement, not at the call. *)
Theorem create_request_end_to_end (sockets : gmap nat (list EprSocket)) (sck : EprSocket)
  (now t0 : float) (req : NetstackCreateRequest) (args : list (option Z)) (n : nat)
  (ack : Content) (w : World) (ds : list Delivery) (ps : list nat)
  (m' : PhysicalQuantumMemory) (duration : Delivery → Z) :
  find_epr_socket (pid req) (epr_socket_id req) (create_remote_node_id req) sockets
    = Some sck →
  args !! SER_CREATE_IDX_TYPE CI = Some (Some 0%Z) →
  args !! SER_CREATE_IDX_NUMBER CI = Some (Some (Z.of_nat n)) →
  peer_buffer w = [] →
  length ds = n →
  allocate_comm_n n (physical_memory w) = Some (ps, m') →
  durations_of t0 creator_time duration ds →
  let request := {| req_type := CreateAndKeep;
                    remote_node_id := create_remote_node_id req; number := n |} in
  let st := run (create_request_resume K req)
              (PeerArrival [ack] :: Fire t0 SIGNAL_PEER_NSTK_MSG ::
               concat (map creator_signals ds))
              (handle_create_request K CI sockets now req args w) in
  snd st = HcReturned ∧
  exchanged (log (fst st)) =
    exchanged (log w) ++ [SendPeerMsg (LinkRequest request); GotPeerMsg ack] ∧
  peer_buffer (fst st) = [] ∧
  physical_memory (fst st) = m' ∧
  mapped_phys (log (fst st)) = mapped_phys (log w) ++ ps ∧
  programs (log (fst st)) = programs (log w) ++ corrections ds ∧
  array_writes (log (fst st)) =
    array_writes (log w) ++
    keep_slices K (pid req) (result_array_addr req) duration 0 ds ∧
  processor_msgs (log (fst st)) =
    processor_msgs (log w) ++ replicate n (Text "wrote to array").
Proof.
  intros Hs Ht Hn Hb Hlen Hal Hdur request st.
  destruct (construct_request_typed (create_remote_node_id req) args 0%Z n CreateAndKeep
              Ht Hn) as (made & Hmade & Hty & Hbase); [by left|].
  unfold st. rewrite (create_handshake sockets sck now t0 req args made ack w _ Hs Hmade Hb).
  unfold create_dispatch. rewrite Hty, Hbase. fold request.
  rewrite run_wrap_create_ck. unfold handle_create_ck_request.
  set (w1 := act (GotPeerMsg ack) (send_peer_msg (LinkRequest request) w)).
  set (fr := ck_frame t0 req request).
  rewrite <- Hlen in Hal.
  destruct (create_ck_run_from K fr ds 0 w1 ps m' duration)
    as (Hret & Hpm & Hmap & Hprog & Hwr & Hmsg); [simpl; lia|done|done|].
  destruct (silent_run (create_ck_resume K fr) (concat (map creator_signals ds))
              (ck_for fr 0 w1)) as (Hex & Hpb & _).
  { intros. apply silent_create_ck_resume. }
  destruct (silent_ck_for fr 0 w1) as (Hex0 & Hpb0 & _).
  unfold wrap_create_ck. rewrite Hret. cbn [fst snd].
  assert (peer_arrivals (concat (map creator_signals ds)) = []) as Hnone.
  { clear. induction ds as [|d ds IH]; [done|]. simpl.
    destruct (bell_state (reported d)); simpl; exact IH. }
  rewrite Hex, Hex0, Hpb, Hpb0, Hnone, Hpm, Hmap, Hprog, Hwr, Hmsg, Hlen.
  subst w1. simpl. rewrite Hb, !exchanged_app, <- !app_assoc.
  unfold mapped_phys, programs, array_writes, processor_msgs. rewrite !omap_app. simpl.
  rewrite !app_nil_r. repeat split; done.
Qed.

(** X17: a receive request of the application, from the call of
    [handle_receive_request] to its return, when the peer asks for
    create-and-keep.  The number of pairs is the peer's: the handler
    takes it from the message, answers "ready", and receives that many
    pairs; its own request gives the process and the arrays only.  The
    durations written are the truncations of the floats
    [(clock - t0) / 1000], finite by hypothesis, where [t0] is the
    clock when the peer's message was taken. *)
Theorem receive_request_end_to_end (sockets : gmap nat (list EprSocket)) (sck : EprSocket)
  (now t0 : float) (req : NetstackReceiveRequest) (create_request : ReqCreateBase)
  (w : World) (ds : list Delivery) (ps : list nat) (m' : PhysicalQuantumMemory)
  (duration : Delivery → Z) :
  find_epr_socket (recv_pid req) (recv_epr_socket_id req) (recv_remote_node_id req) sockets
    = Some sck →
  req_type create_request = CreateAndKeep →
  peer_buffer w = [] →
  length ds = number create_request →
  allocate_comm_n (number create_request) (physical_memory w) = Some (ps, m') →
  durations_of t0 at_result duration ds →
  let st := run (receive_request_resume K req)
              (PeerArrival [LinkRequest create_request] :: Fire t0 SIGNAL_PEER_NSTK_MSG ::
               concat (map receiver_signals ds))
              (handle_receive_request K sockets now req w) in
  snd st = HrReturned ∧
  exchanged (log (fst st)) =
    exchanged (log w) ++
    [GotPeerMsg (LinkRequest create_request); SendPeerMsg (Text "ready")] ∧
  peer_buffer (fst st) = [] ∧
  physical_memory (fst st) = m' ∧
  mapped_phys (log (fst st)) = mapped_phys (log w) ++ ps ∧
  programs (log (fst st)) = programs (log w) ∧
  array_writes (log (fst st)) =
    array_writes (log w) ++
    keep_slices K (recv_pid req) (recv_result_array_addr req) duration 0 ds ∧
  processor_msgs (log (fst st)) =
    processor_msgs (log w) ++ replicate (number create_request) (Text "wrote to array").
Proof.
  intros Hs Hty Hb Hlen Hal Hdur st.
  unfold st. rewrite (receive_handshake sockets sck now t0 req _ w _ Hs Hb).
  unfold receive_dispatch. rewrite Hty.
  rewrite run_wrap_receive_ck. unfold handle_receive_ck_request. rewrite Hty.
  set (w1 := send_peer_msg (Text "ready") (act (GotPeerMsg (LinkRequest create_request)) w)).
  set (fr := rck_frame t0 req create_request).
  rewrite <- Hlen in Hal.
  destruct (receive_ck_run_from K fr ds 0 w1 ps m' duration)
    as (Hret & Hpm & Hmap & Hwr & Hmsg); [simpl; lia|done|done|].
  destruct (silent_run (receive_ck_resume K fr) (concat (map receiver_signals ds))
              (rck_for fr 0 w1)) as (Hex & Hpb & _).
  { intros. apply silent_receive_ck_resume. }
  destruct (silent_rck_for fr 0 w1) as (Hex0 & Hpb0 & _).
  pose proof (receive_ck_run_programs K fr (concat (map receiver_signals ds))
                (rck_for fr 0 w1)) as Hprog.
  rewrite (rck_for_effect fr 0 w1) in Hprog.
  unfold wrap_receive_ck. rewrite Hret. cbn [fst snd].
  assert (peer_arrivals (concat (map receiver_signals ds)) = []) as Hnone.
  { clear. induction ds as [|d ds IH]; [done|]. simpl. exact IH. }
  rewrite Hex, Hex0, Hpb, Hpb0, Hnone, Hpm, Hmap, Hprog, Hwr, Hmsg, Hlen.
  subst w1. simpl. rewrite Hb, !exchanged_app, <- !app_assoc.
  unfold mapped_phys, programs, array_writes, processor_msgs. rewrite !omap_app. simpl.
  rewrite !app_nil_r. repeat split; done.
Qed.

(** A handler that has returned stays so. *)
Lemma run_create_returned (req : NetstackCreateRequest) (stimuli : list Stimulus) (w : World) :
  let st := run (create_request_resume K req) stimuli (w, HcReturned) in
  snd st = HcReturned ∧ log (fst st) = log w.
Proof.
  cbv zeta. revert w. induction stimuli as [|s stimuli IH]; intros w; [done|].
  rewrite run_cons. destruct s as [id|msgs|msgs|t sig]; cbn [step fst snd].
  1-3: match goal with |- context [run _ _ (env_step ?s ?w0, _)] =>
         destruct (IH (env_step s w0)) as [H1 H2]; rewrite H1, H2;
         split; [done|apply env_step_log] end.
  apply IH.
Qed.

Lemma run_receive_returned (req : NetstackReceiveRequest) (stimuli : list Stimulus) (w : World) :
  let st := run (receive_request_resume K req) stimuli (w, HrReturned) in
  snd st = HrReturned ∧ log (fst st) = log w.
Proof.
  cbv zeta. revert w. induction stimuli as [|s stimuli IH]; intros w; [done|].
  rewrite run_cons. destruct s as [id|msgs|msgs|t sig]; cbn [step fst snd].
  1-3: match goal with |- context [run _ _ (env_step ?s ?w0, _)] =>
         destruct (IH (env_step s w0)) as [H1 H2]; rewrite H1, H2;
         split; [done|apply env_step_log] end.
  apply IH.
Qed.

(** X18: what neither side supports is dropped without a word to the
    processor.  A create request of type 2 (remote state preparation)
    goes through the handshake and then the handler returns; a receiver
    whose first message from the peer is such a request, or is no
    request at all, still answers "ready" and returns.  In both cases
    nothing is put to the EGP, no array is written and the processor is
    sent nothing, whatever happens afterwards. *)
Theorem unsupported_request_is_dropped (sockets : gmap nat (list EprSocket))
  (sck rsck : EprSocket) (now t0 : float) (req : NetstackCreateRequest)
  (rreq : NetstackReceiveRequest) (args : list (option Z)) (n : nat) (ack msg : Content)
  (w : World) (rest : list Stimulus) :
  find_epr_socket (pid req) (epr_socket_id req) (create_remote_node_id req) sockets
    = Some sck →
  find_epr_socket (recv_pid rreq) (recv_epr_socket_id rreq) (recv_remote_node_id rreq) sockets
    = Some rsck →
  args !! SER_CREATE_IDX_TYPE CI = Some (Some 2%Z) →
  args !! SER_CREATE_IDX_NUMBER CI = Some (Some (Z.of_nat n)) →
  (∀ r, msg = LinkRequest r → req_type r = RemoteStatePrep) →
  peer_buffer w = [] →
  let cst := run (create_request_resume K req)
               (PeerArrival [ack] :: Fire t0 SIGNAL_PEER_NSTK_MSG :: rest)
               (handle_create_request K CI sockets now req args w) in
  let rst := run (receive_request_resume K rreq)
               (PeerArrival [msg] :: Fire t0 SIGNAL_PEER_NSTK_MSG :: rest)
               (handle_receive_request K sockets now rreq w) in
  snd cst = HcReturned ∧
  log (fst cst) =
    log w ++ [SendPeerMsg (LinkRequest {| req_type := RemoteStatePrep;
                                          remote_node_id := create_remote_node_id req;
                                          number := n |});
              GotPeerMsg ack] ∧
  snd rst = HrReturned ∧
  log (fst rst) = log w ++ [GotPeerMsg msg; SendPeerMsg (Text "ready")].
Proof.
  intros Hs Hrs Ht Hn Hmsg Hb cst rst.
  destruct (construct_request_typed (create_remote_node_id req) args 2%Z n RemoteStatePrep
              Ht Hn) as (made & Hmade & Hty & Hbase); [by right; right|].
  unfold cst, rst.
  rewrite (create_handshake sockets sck now t0 req args made ack w _ Hs Hmade Hb).
  rewrite (receive_handshake sockets rsck now t0 rreq msg w _ Hrs Hb).
  assert (receive_dispatch K t0 rreq msg (act (GotPeerMsg msg) w) =
          (send_peer_msg (Text "ready") (act (GotPeerMsg msg) w), HrReturned)) as Hdrop.
  { unfold receive_dispatch. destruct msg as [s|r]; [done|]. by rewrite (Hmsg r eq_refl). }
  unfold create_dispatch. rewrite Hdrop, Hty, Hbase.
  destruct (run_create_returned req rest
              (act (GotPeerMsg ack)
                 (send_peer_msg
                    (LinkRequest {| req_type := RemoteStatePrep;
                                    remote_node_id := create_remote_node_id req;
                                    number := n |}) w))) as [-> ->].
  destruct (run_receive_returned rreq rest
              (send_peer_msg (Text "ready") (act (GotPeerMsg msg) w))) as [-> ->].
  simpl. rewrite <- !app_assoc. done.
Qed.

(** X19: a create request is checked before anything leaves the node.
    The link-layer request is sent, and the handler waits for the peer,
    exactly when the socket is open and the arguments array holds a type
    code among 0, 1, 2 and a number of pairs; the message names the
    request's remote node and carries that number.  In every other
    case the call raises ([AssertionError], [IndexError] or
    [ValueError]) and has done nothing. *)
Theorem create_request_checked_before_sending (sockets : gmap nat (list EprSocket))
  (now : float) (req : NetstackCreateRequest) (args : list (option Z)) (w : World) :
  peer_buffer w = [] →
  (∀ num, args !! SER_CREATE_IDX_NUMBER CI = Some (Some num) → (0 ≤ num)%Z) →
  let st := handle_create_request K CI sockets now req args w in
  let acceptable (typ : Z) (num : nat) :=
    is_Some (find_epr_socket (pid req) (epr_socket_id req) (create_remote_node_id req)
               sockets) ∧
    args !! SER_CREATE_IDX_TYPE CI = Some (Some typ) ∧ (0 ≤ typ ≤ 2)%Z ∧
    args !! SER_CREATE_IDX_NUMBER CI = Some (Some (Z.of_nat num)) in
  (∀ typ num, acceptable typ num →
     ∃ made, snd st = HcAwaitPeer made ∧
       made_number made = Z.of_nat num ∧
       made_type made = (if (typ =? 0)%Z then CreateAndKeep
                         else if (typ =? 1)%Z then MeasureDirectly else RemoteStatePrep) ∧
       fst st = send_peer_msg
                  (LinkRequest {| req_type := made_type made;
                                  remote_node_id := create_remote_node_id req;
                                  number := num |}) w) ∧
  ((∀ typ num, ¬ acceptable typ num) →
     fst st = w ∧
     ∃ e, snd st = HcRaised e ∧
          (e = Builtin AssertionError ∨ e = Builtin IndexError ∨ e = Builtin ValueError)).
Proof.
  intros Hb Hnonneg st acceptable. unfold st, handle_create_request, construct_request.
  split.
  - intros typ num ([sck Hs] & Ht & Hrange & Hn). rewrite Hs, Ht, Hn.
    assert (typ = 0 ∨ typ = 1 ∨ typ = 2)%Z as [-> | [-> | ->]] by lia; simpl;
      rewrite Hb; simpl; eexists; (split; [reflexivity|]); simpl;
      repeat split; unfold as_base; simpl; by rewrite Nat2Z.id.
  - intros Hno.
    destruct (find_epr_socket _ _ _ sockets) as [sck|] eqn:Hs; [|naive_solver].
    destruct (args !! SER_CREATE_IDX_TYPE CI) as [[typ|]|] eqn:Ht; [|naive_solver..].
    destruct (args !! SER_CREATE_IDX_NUMBER CI) as [[num|]|] eqn:Hn; [|naive_solver..].
    destruct (typ =? 0)%Z eqn:H0; [|destruct (typ =? 1)%Z eqn:H1;
                                     [|destruct (typ =? 2)%Z eqn:H2; [|naive_solver]]].
    all: exfalso; apply (Hno typ (Z.to_nat num)); unfold acceptable;
      rewrite Z2Nat.id by (by apply Hnonneg); repeat split; eauto; lia.
Qed.

End HandshakeFacts.

(** An instance: process 0 asks for two pairs with node 1 on a node of
    two qubits; the acknowledgement arrives at 500 ns. *)
Lemma create_request_end_to_end_witness :
  let ds := [ {| NetstackMore.at_result := 1000%float;
                 NetstackMore.reported := {| Netstack.bell_state := Netstack.B00 |};
                 NetstackMore.at_program_done := 1000%float |};
              {| NetstackMore.at_result := 2000%float;
                 NetstackMore.reported := {| Netstack.bell_state := Netstack.B10 |};
                 NetstackMore.at_program_done := 2500%float |} ] in
  let st := Netstack.run
              (NetstackMore.create_request_resume Netstack.example_imports
                 Netstack.example_create)
              (Netstack.PeerArrival [Netstack.Text "ready"] ::
               Netstack.Fire 500%float Netstack.SIGNAL_PEER_NSTK_MSG ::
               concat (map NetstackMore.creator_signals ds))
              (NetstackMore.handle_create_request Netstack.example_imports
                 NetstackMore.example_create_imports (NetstackMore.open_all [(0, 0, 1)])
                 0%float Netstack.example_create [Some 0%Z; Some 2%Z]
                 (Netstack.example_world (Memory.PhysicalQuantumMemory_init 2))) in
  snd st = NetstackMore.HcReturned ∧
  Netstack.processor_msgs (Netstack.log (fst st)) =
    replicate 2 (Netstack.Text "wrote to array").
Proof.
  intros ds st.
  destruct (create_request_end_to_end Netstack.example_imports
              NetstackMore.example_create_imports (NetstackMore.open_all [(0, 0, 1)])
              {| NetstackMore.socket_id := 0; NetstackMore.remote_id := 1 |}
              0%float 500%float Netstack.example_create [Some 0%Z; Some 2%Z] 2
              (Netstack.Text "ready")
              (Netstack.example_world (Memory.PhysicalQuantumMemory_init 2)) ds [0; 1]
              (Memory.run_calls (Memory.PhysicalQuantumMemory_init 2)
                 [Memory.CallAllocateComm; Memory.CallAllocateComm])
              (λ d, match Netstack.gen_duration_us_int (NetstackMore.creator_time d) 500 with
                    | Ok g => g
                    | Raise _ => 0%Z
                    end))
    as (H1 & _ & _ & _ & _ & _ & _ & H2).
  - vm_compute. reflexivity.
  - reflexivity.
  - reflexivity.
  - reflexivity.
  - reflexivity.
  - vm_compute. reflexivity.
  - intros d Hd.
    repeat (apply elem_of_cons in Hd as [->|Hd]; [vm_compute; repeat split; discriminate|]).
    by apply elem_of_nil in Hd.
  - split; [exact H1|exact H2].
Defined.

(** An instance: the peer asks for two pairs. *)
Lemma receive_request_end_to_end_witness :
  let ds := [ {| NetstackMore.at_result := 1000%float;
                 NetstackMore.reported := {| Netstack.bell_state := Netstack.B00 |};
                 NetstackMore.at_program_done := 1000%float |};
              {| NetstackMore.at_result := 2000%float;
                 NetstackMore.reported := {| Netstack.bell_state := Netstack.B10 |};
                 NetstackMore.at_program_done := 2500%float |} ] in
  let st := Netstack.run
              (NetstackMore.receive_request_resume Netstack.example_imports
                 Netstack.example_receive)
              (Netstack.PeerArrival
                 [Netstack.LinkRequest (Netstack.example_request Netstack.CreateAndKeep 2)] ::
               Netstack.Fire 500%float Netstack.SIGNAL_PEER_NSTK_MSG ::
               concat (map NetstackMore.receiver_signals ds))
              (NetstackMore.handle_receive_request Netstack.example_imports
                 (NetstackMore.open_all [(0, 0, 1)]) 0%float Netstack.example_receive
                 (Netstack.example_world (Memory.PhysicalQuantumMemory_init 2))) in
  snd st = NetstackMore.HrReturned ∧
  Netstack.processor_msgs (Netstack.log (fst st)) =
    replicate 2 (Netstack.Text "wrote to array").
Proof.
  intros ds st.
  destruct (receive_request_end_to_end Netstack.example_imports
              (NetstackMore.open_all [(0, 0, 1)])
              {| NetstackMore.socket_id := 0; NetstackMore.remote_id := 1 |}
              0%float 500%float Netstack.example_receive
              (Netstack.example_request Netstack.CreateAndKeep 2)
              (Netstack.example_world (Memory.PhysicalQuantumMemory_init 2)) ds [0; 1]
              (Memory.run_calls (Memory.PhysicalQuantumMemory_init 2)
                 [Memory.CallAllocateComm; Memory.CallAllocateComm])
              (λ d, match Netstack.gen_duration_us_int (NetstackMore.at_result d) 500 with
                    | Ok g => g
                    | Raise _ => 0%Z
                    end))
    as (H1 & _ & _ & _ & _ & _ & _ & H2).
  - vm_compute. reflexivity.
  - reflexivity.
  - reflexivity.
  - reflexivity.
  - vm_compute. reflexivity.
  - intros d Hd.
    repeat (apply elem_of_cons in Hd as [->|Hd]; [vm_compute; repeat split; discriminate|]).
    by apply elem_of_nil in Hd.
  - split; [exact H1|exact H2].
Defined.

(** An instance: a request of type 2 for three pairs, and a receiver
    that is sent a greeting. *)
Lemma unsupported_request_is_dropped_witness :
  let w := Netstack.example_world (Memory.PhysicalQuantumMemory_init 2) in
  snd (Netstack.run
         (NetstackMore.create_request_resume Netstack.example_imports Netstack.example_create)
         [Netstack.PeerArrival [Netstack.Text "ready"];
          Netstack.Fire 500%float Netstack.SIGNAL_PEER_NSTK_MSG]
         (NetstackMore.handle_create_request Netstack.example_imports
            NetstackMore.example_create_imports (NetstackMore.open_all [(0, 0, 1)])
            0%float Netstack.example_create [Some 2%Z; Some 3%Z] w)) = NetstackMore.HcReturned ∧
  Netstack.log
    (fst (Netstack.run
            (NetstackMore.receive_request_resume Netstack.example_imports
               Netstack.example_receive)
            [Netstack.PeerArrival [Netstack.Text "hello"];
             Netstack.Fire 500%float Netstack.SIGNAL_PEER_NSTK_MSG]
            (NetstackMore.handle_receive_request Netstack.example_imports
               (NetstackMore.open_all [(0, 0, 1)]) 0%float Netstack.example_receive w))) =
    [Netstack.GotPeerMsg (Netstack.Text "hello"); Netstack.SendPeerMsg (Netstack.Text "ready")].
Proof.
  intros w.
  destruct (unsupported_request_is_dropped Netstack.example_imports
              NetstackMore.example_create_imports (NetstackMore.open_all [(0, 0, 1)])
              {| NetstackMore.socket_id := 0; NetstackMore.remote_id := 1 |}
              {| NetstackMore.socket_id := 0; NetstackMore.remote_id := 1 |}
              0%float 500%float Netstack.example_create Netstack.example_receive
              [Some 2%Z; Some 3%Z] 3 (Netstack.Text "ready") (Netstack.Text "hello") w [])
    as (H1 & _ & _ & H2).
  - vm_compute. reflexivity.
  - vm_compute. reflexivity.
  - reflexivity.
  - reflexivity.
  - intros r Hr. discriminate Hr.
  - reflexivity.
  - split; [exact H1|exact H2].
Defined.

(** An instance: no socket was opened for the request, and nothing is
    sent. *)
Lemma create_request_checked_before_sending_witness :
  let w := Netstack.example_world (Memory.PhysicalQuantumMemory_init 2) in
  fst (NetstackMore.handle_create_request Netstack.example_imports
         NetstackMore.example_create_imports (NetstackMore.open_all [(0, 5, 1)])
         0%float Netstack.example_create [Some 0%Z; Some 2%Z] w) = w.
Proof.
  intros w.
  destruct (create_request_checked_before_sending Netstack.example_imports
              NetstackMore.example_create_imports (NetstackMore.open_all [(0, 5, 1)])
              0%float Netstack.example_create [Some 0%Z; Some 2%Z] w) as [_ H].
  - reflexivity.
  - intros num [= <-]. lia.
  - apply H. intros typ num ([sck Hs] & _). vm_compute in Hs. discriminate Hs.
Defined.

(** ** Waiting for the threads *)

Section RunFacts.

Import Run.

Context {Future : Type}.

Variable ready : nat → Future → bool.

(** The [for] neither loses nor invents a future, its clock only
    advances, and what it yields was ready when it looked. *)
Lemma for_enumerate_invariant (fuel i : nat) (s : Progress) :
  let s' := for_enumerate ready fuel i s in
  yielded s' ++ futures s' ≡ₚ yielded s ++ futures s ∧
  clock s ≤ clock s' ∧
  length (futures s') ≤ length (futures s) ∧
  ∃ new, yielded s' = yielded s ++ new ∧
         ∀ f, f ∈ new → ∃ c, clock s ≤ c < clock s' ∧ ready c f = true.
Proof.
  cbv zeta. revert i s. induction fuel as [|fuel IH]; intros i s; simpl.
  { repeat split; try done. exists []. split; [by rewrite app_nil_r|]. intros f Hf.
    by apply elem_of_nil in Hf. }
  destruct (futures s !! i) as [future|] eqn:Hi.
  2:{ repeat split; try done. exists []. split; [by rewrite app_nil_r|]. intros f Hf.
      by apply elem_of_nil in Hf. }
  destruct (ready (clock s) future) eqn:Hr.
  - match goal with |- context [for_enumerate _ _ _ ?s1] =>
      destruct (IH (S i) s1) as (Hp & Hc & Hl & new & Hy & Hnew) end.
    simpl in *. repeat split.
    + rewrite Hp, <- app_assoc. simpl. apply Permutation_app_head.
      symmetry. by apply delete_Permutation.
    + lia.
    + rewrite length_delete in Hl by done. lia.
    + exists (future :: new). split; [by rewrite Hy, <- app_assoc|].
      intros f Hf. apply elem_of_cons in Hf as [->|Hf].
      * exists (clock s). split; [lia|done].
      * destruct (Hnew f Hf) as (c & Hc' & Hrc). exists c. split; [lia|done].
  - match goal with |- context [for_enumerate _ _ _ ?s1] =>
      destruct (IH (S i) s1) as (Hp & Hc & Hl & new & Hy & Hnew) end.
    simpl in *. repeat split; try done; [lia|].
    exists new. split; [done|]. intros f Hf.
    destruct (Hnew f Hf) as (c & Hc' & Hrc). exists c. split; [lia|done].
Qed.

Lemma while_nonempty_invariant (turns : nat) (s : Progress) :
  let s' := while_nonempty ready turns s in
  yielded s' ++ futures s' ≡ₚ yielded s ++ futures s ∧
  clock s ≤ clock s' ∧
  length (futures s') ≤ length (futures s) ∧
  ∃ new, yielded s' = yielded s ++ new ∧
         ∀ f, f ∈ new → ∃ c, clock s ≤ c < clock s' ∧ ready c f = true.
Proof.
  cbv zeta. revert s. induction turns as [|turns IH]; intros s; simpl.
  { repeat split; try done. exists []. split; [by rewrite app_nil_r|]. intros f Hf.
    by apply elem_of_nil in Hf. }
  destruct (futures s) as [|f0 fs] eqn:Hfs.
  { rewrite Hfs. repeat split; try done. exists []. split; [by rewrite app_nil_r|].
    intros f Hf. by apply elem_of_nil in Hf. }
  destruct (IH (sweep ready s)) as (Hp & Hc & Hl & new & Hy & Hnew).
  destruct (for_enumerate_invariant (length (futures s)) 0 s)
    as (Hp1 & Hc1 & Hl1 & new1 & Hy1 & Hnew1).
  fold (sweep ready s) in Hp1, Hc1, Hl1, Hy1, Hnew1. rewrite Hfs in Hp1, Hl1.
  repeat split.
  - by rewrite Hp, Hp1.
  - lia.
  - lia.
  - exists (new1 ++ new). split; [by rewrite Hy, Hy1, <- app_assoc|].
    intros f Hf. apply elem_of_app in Hf as [Hf|Hf].
    + destruct (Hnew1 f Hf) as (c & Hc' & Hrc). exists c. split; [lia|done].
    + destruct (Hnew f Hf) as (c & Hc' & Hrc). exists c. split; [lia|done].
Qed.

(** X20: however long [as_completed] has run and whatever the threads
    do, the futures it has yielded and those it still holds are the
    futures it was given, each as often as it was given; and every
    future it has yielded had answered [ready()] with yes when it was
    yielded. *)
Theorem as_completed_yields_each_once (turns : nat) (fs : list Future) :
  let s := as_completed ready turns fs in
  yielded s ++ futures s ≡ₚ fs ∧
  ∀ f, f ∈ yielded s → ∃ c, c < clock s ∧ ready c f = true.
Proof.
  intros s.
  destruct (while_nonempty_invariant turns {| futures := fs; yielded := []; clock := 0 |})
    as (Hp & _ & _ & new & Hy & Hnew).
  fold (as_completed ready turns fs) in Hp, Hy, Hnew. fold s in Hp, Hy, Hnew.
  simpl in *. split; [done|]. intros f Hf. rewrite Hy in Hf.
  destruct (Hnew f Hf) as (c & Hc & Hr). exists c. split; [lia|done].
Qed.

(** When every future of the rest of the list is ready, the [for]
    yields every other one. *)
Lemma for_enumerate_all_ready (fuel : nat) (pre rest : list Future) (s : Progress) :
  (∀ c f, f ∈ rest → ready c f = true) →
  futures s = pre ++ rest → length rest ≤ fuel →
  let s' := for_enumerate ready fuel (length pre) s in
  futures s' = pre ++ odds rest ∧ yielded s' = yielded s ++ evens rest.
Proof.
  cbv zeta. revert pre rest s.
  induction fuel as [|fuel IH]; intros pre rest s Hready Hfs Hlen.
  { destruct rest; [|simpl in Hlen; lia]. simpl. by rewrite Hfs, !app_nil_r. }
  simpl. rewrite Hfs.
  destruct rest as [|a [|b rest]].
  - rewrite lookup_ge_None_2 by (rewrite app_nil_r; lia). simpl. by rewrite Hfs, !app_nil_r.
  - rewrite list_lookup_middle by done. rewrite Hready by apply list_elem_of_here.
    replace (delete (length pre) (pre ++ [a])) with pre
      by (rewrite delete_middle; by rewrite app_nil_r).
    destruct fuel; simpl; [by rewrite app_nil_r|].
    rewrite lookup_ge_None_2 by lia. simpl. by rewrite app_nil_r.
  - rewrite list_lookup_middle by done. rewrite Hready by apply list_elem_of_here.
    rewrite delete_middle.
    destruct (IH (pre ++ [b]) rest
                {| futures := pre ++ b :: rest; yielded := yielded s ++ [a];
                   clock := S (clock s) |}) as [H1 H2].
    + intros c f Hf. apply Hready. by do 2 apply list_elem_of_further.
    + simpl. by rewrite <- app_assoc.
    + simpl in Hlen. lia.
    + rewrite length_app in H1, H2. simpl in H1, H2.
      replace (length pre + 1) with (S (length pre)) in H1, H2 by lia.
      rewrite H1, H2. simpl. by rewrite <- !app_assoc.
Qed.

(** X21: popping from the list that is being enumerated makes the loop
    step over the element behind every future it yields.  So when all
    futures are ready, a turn of the [while] yields those at the even
    positions only and keeps those at the odd ones for a later turn,
    after the sleep: with two futures or more, one turn is never
    enough. *)
Theorem sweep_skips_every_other (s : Progress) :
  (∀ c f, f ∈ futures s → ready c f = true) →
  futures (sweep ready s) = odds (futures s) ∧
  yielded (sweep ready s) = yielded s ++ evens (futures s) ∧
  (2 ≤ length (futures s) → futures (sweep ready s) ≠ []).
Proof.
  intros Hready.
  destruct (for_enumerate_all_ready (length (futures s)) [] (futures s) s) as [H1 H2];
    [done..|].
  simpl in H1, H2. fold (sweep ready s) in H1, H2. rewrite H1, H2.
  repeat split. destruct (futures s) as [|a [|b rest]]; simpl; [lia|lia|done].
Qed.

(** A turn of the [while] on a list whose first future is ready makes
    the list shorter. *)
Lemma sweep_shrinks (s : Progress) (f : Future) (fs : list Future) :
  futures s = f :: fs → ready (clock s) f = true →
  length (futures (sweep ready s)) ≤ length fs.
Proof.
  intros Hfs Hr. unfold sweep. rewrite Hfs. simpl. rewrite Hfs. simpl. rewrite Hr.
  match goal with |- context [for_enumerate _ _ _ ?s1] =>
    destruct (for_enumerate_invariant (length fs) 1 s1) as (_ & _ & Hl & _) end.
  exact Hl.
Qed.

(** A turn of the [while] on a list that is not empty takes a look. *)
Lemma sweep_clock (s : Progress) :
  futures s ≠ [] → clock s < clock (sweep ready s).
Proof.
  intros Hne. unfold sweep. destruct (futures s) as [|f fs] eqn:Hfs; [done|].
  simpl. rewrite Hfs. simpl.
  destruct (ready (clock s) f);
    match goal with |- context [for_enumerate _ _ _ ?s1] =>
      destruct (for_enumerate_invariant (length fs) 1 s1) as (_ & Hc & _) end;
    simpl in Hc; lia.
Qed.

Lemma while_nonempty_add (a b : nat) (s : Progress) :
  while_nonempty ready (a + b) s = while_nonempty ready b (while_nonempty ready a s).
Proof.
  revert s. induction a as [|a IH]; intros s; [done|]. simpl.
  destruct (futures s) eqn:Hfs; [|apply IH].
  destruct b; simpl; by rewrite ?Hfs.
Qed.

(** After [T] turns the generator has returned or has looked [T] times. *)
Lemma while_nonempty_clock (T : nat) (s : Progress) :
  futures (while_nonempty ready T s) = [] ∨ clock s + T ≤ clock (while_nonempty ready T s).
Proof.
  revert s. induction T as [|T IH]; intros s; simpl; [right; lia|].
  destruct (futures s) as [|f fs] eqn:Hfs; [by left|].
  destruct (IH (sweep ready s)) as [H|H]; [by left|right].
  assert (clock s < clock (sweep ready s)) by (apply sweep_clock; by rewrite Hfs). lia.
Qed.

(** Once every future it holds is ready for good, the generator
    returns within as many turns as it holds futures. *)
Lemma while_nonempty_drains (T n : nat) (s : Progress) :
  (∀ f c, f ∈ futures s → T ≤ c → ready c f = true) →
  T ≤ clock s → length (futures s) ≤ n →
  futures (while_nonempty ready n s) = [].
Proof.
  revert s. induction n as [|n IH]; intros s Hready Hclock Hlen; simpl.
  { destruct (futures s); [done|simpl in Hlen; lia]. }
  destruct (futures s) as [|f fs] eqn:Hfs; [done|].
  destruct (for_enumerate_invariant (length (futures s)) 0 s) as (Hp & Hc & _ & new & Hy & _).
  fold (sweep ready s) in Hp, Hc, Hy.
  apply IH.
  - intros g c Hg Hcg. apply Hready; [|done].
    rewrite Hy, <- app_assoc in Hp. apply Permutation_app_inv_l in Hp.
    rewrite Hfs in Hp. rewrite <- Hp. apply elem_of_app. by right.
  - lia.
  - pose proof (sweep_shrinks s f fs Hfs) as Hs. simpl in Hlen.
    assert (ready (clock s) f = true) as Hr.
    { apply Hready; [|done]. apply list_elem_of_here. }
    specialize (Hs Hr). lia.
Qed.

(** X22: if every future is ready from the [T]-th look on, then
    [as_completed] returns within [T + n] turns of its loop, [n] being
    the number of futures, and by then it has yielded every future it
    was given, each as often as it was given. *)
Theorem as_completed_returns (T : nat) (fs : list Future) :
  (∀ f c, f ∈ fs → T ≤ c → ready c f = true) →
  let s := as_completed ready (T + length fs) fs in
  futures s = [] ∧ yielded s ≡ₚ fs.
Proof.
  intros Hready s.
  assert (futures s = []) as Hnil.
  { unfold s, as_completed. rewrite while_nonempty_add.
    set (s0 := {| futures := fs; yielded := []; clock := 0 |}).
    destruct (while_nonempty_invariant T s0) as (Hp & _ & Hl & new & Hy & _).
    simpl in Hp, Hl, Hy.
    destruct (while_nonempty_clock T s0) as [Hdone|Hclock].
    - destruct (length fs); simpl; by rewrite ?Hdone.
    - apply (while_nonempty_drains T); [|simpl in Hclock; lia|done].
      intros f c Hf Hc. apply Hready; [|done].
      rewrite <- Hp. apply elem_of_app. by right. }
  split; [done|].
  destruct (while_nonempty_invariant (T + length fs)
              {| futures := fs; yielded := []; clock := 0 |}) as (Hp & _).
  fold (as_completed ready (T + length fs) fs) in Hp. fold s in Hp.
  by rewrite Hnil, app_nil_r in Hp.
Qed.

End RunFacts.

(** An instance: three finished threads; the second is stepped over. *)
Lemma sweep_skips_every_other_witness :
  let s := Run.sweep (λ _ _, true) {| Run.futures := [1; 2; 3]; Run.yielded := []; Run.clock := 0 |} in
  Run.futures s = [2] ∧ Run.yielded s = [1; 3].
Proof.
  destruct (sweep_skips_every_other (λ _ _, true)
              {| Run.futures := [1; 2; 3]; Run.yielded := []; Run.clock := 0 |})
    as (H1 & H2 & _); [reflexivity|].
  split; [exact H1|exact H2].
Defined.

(** An instance: thread [f] finishes just before the [f]-th look. *)
Lemma as_completed_returns_witness :
  Run.futures (Run.as_completed (λ c f, f <=? c) (3 + 3) [3; 1; 2]) = [].
Proof.
  apply (as_completed_returns (λ c f, f <=? c) 3 [3; 1; 2]).
  intros f c Hf Hc. apply Nat.leb_le.
  repeat (apply elem_of_cons in Hf as [->|Hf]; [lia|]). by apply elem_of_nil in Hf.
Defined.

(** ** What is asked of the EGP *)

Section EgpFacts.

Import Memory Netstack NetstackMore.

Variable K : Imports.

Lemma egp_puts_app (l1 l2 : list Action) : egp_puts (l1 ++ l2) = egp_puts l1 ++ egp_puts l2.
Proof. apply omap_app. Qed.

Lemma creator_pair_puts (fr : CkFrame) (i p : nat) (d : Delivery) (g : Z) (v : option Z) :
  egp_puts (creator_pair_actions K fr i p d g v) =
  [(create_remote_node_id (ck_req fr), ReqCreate (ck_request fr))].
Proof.
  unfold creator_pair_actions, egp_puts. simpl. rewrite !omap_app. simpl.
  rewrite !omap_app. simpl.
  by rewrite (omap_map_None _ ExecuteProgram), (omap_map_None _ (λ j, SetArrayValue _ _ _ _)).
Qed.

Lemma receiver_pair_puts (fr : RckFrame) (i p : nat) (d : Delivery) (g : Z) (v : option Z) :
  egp_puts (receiver_pair_actions K fr i p d g v) =
  [(recv_remote_node_id (rck_req fr), ReqReceive (recv_remote_node_id (rck_req fr)))].
Proof.
  unfold receiver_pair_actions, egp_puts. simpl. rewrite !omap_app. simpl.
  by rewrite (omap_map_None _ (λ j, SetArrayValue _ _ _ _)).
Qed.

Lemma create_ck_run_puts (fr : CkFrame) (ds : list Delivery) (i : nat) (w : World)
  (ps : list nat) (m' : PhysicalQuantumMemory) (duration : Delivery → Z) :
  i + length ds = ck_num_pairs fr →
  allocate_comm_n (length ds) (physical_memory w) = Some (ps, m') →
  durations_of (ck_start_time fr) creator_time duration ds →
  egp_puts (log (fst (run (create_ck_resume K fr) (concat (map creator_signals ds))
                        (ck_for fr i w)))) =
  egp_puts (log w) ++
  replicate (length ds) (create_remote_node_id (ck_req fr), ReqCreate (ck_request fr)).
Proof.
  revert i w ps. induction ds as [|d ds IH]; intros i w ps Hi Hn Hdur.
  - simpl in *. unfold run, ck_for. simpl.
    rewrite (proj2 (Nat.ltb_ge _ _)) by lia. simpl. by rewrite app_nil_r.
  - simpl in Hi, Hn.
    destruct (allocate_comm (physical_memory w)) as [[p m1]|e] eqn:Ha; [|discriminate].
    destruct (allocate_comm_n (length ds) m1) as [[ps' m2]|] eqn:Hn'; [|discriminate].
    injection Hn as <- <-.
    destruct (creator_pair K fr i d w p m1 (duration d)) as (w2 & v & Hrun & Hpm & Hlog);
      [lia|done|apply (durations_of_computed _ _ _ _ Hdur), list_elem_of_here|].
    cbn [map concat]. rewrite run_app, Hrun.
    rewrite (IH (S i) w2 ps')
      by (lia || (by rewrite Hpm) || (intros d' Hd'; by apply Hdur, list_elem_of_further)).
    rewrite Hlog, egp_puts_app, creator_pair_puts, <- app_assoc. done.
Qed.

Lemma receive_ck_run_puts (fr : RckFrame) (ds : list Delivery) (i : nat) (w : World)
  (ps : list nat) (m' : PhysicalQuantumMemory) (duration : Delivery → Z) :
  i + length ds = rck_num_pairs fr →
  allocate_comm_n (length ds) (physical_memory w) = Some (ps, m') →
  durations_of (rck_start_time fr) at_result duration ds →
  egp_puts (log (fst (run (receive_ck_resume K fr) (concat (map receiver_signals ds))
                        (rck_for fr i w)))) =
  egp_puts (log w) ++
  replicate (length ds)
    (recv_remote_node_id (rck_req fr), ReqReceive (recv_remote_node_id (rck_req fr))).
Proof.
  revert i w ps. induction ds as [|d ds IH]; intros i w ps Hi Hn Hdur.
  - simpl in *. unfold run, rck_for. simpl.
    rewrite (proj2 (Nat.ltb_ge _ _)) by lia. simpl. by rewrite app_nil_r.
  - simpl in Hi, Hn.
    destruct (allocate_comm (physical_memory w)) as [[p m1]|e] eqn:Ha; [|discriminate].
    destruct (allocate_comm_n (length ds) m1) as [[ps' m2]|] eqn:Hn'; [|discriminate].
    injection Hn as <- <-.
    destruct (receiver_pair K fr i d w p m1 (duration d)) as (w2 & v & Hrun & Hpm & Hlog);
      [lia|done|apply (durations_of_computed _ _ _ _ Hdur), list_elem_of_here|].
    cbn [map concat]. rewrite run_app, Hrun.
    rewrite (IH (S i) w2 ps')
      by (lia || (by rewrite Hpm) || (intros d' Hd'; by apply Hdur, list_elem_of_further)).
    rewrite Hlog, egp_puts_app, receiver_pair_puts, <- app_assoc. done.
Qed.

Lemma egp_puts_write_indexed (pid addr : nat) (pos : nat → nat) (val : nat → Z)
  (indices : list nat) (w : World) :
  egp_puts (log (foldl (λ w i, set_array_value pid addr (pos i) (val i) w) w indices)) =
  egp_puts (log w).
Proof.
  destruct (write_indexed_log pid addr pos val indices w) as (-> & _).
  rewrite egp_puts_app. unfold egp_puts at 2. rewrite omap_map_None by done.
  by rewrite app_nil_r.
Qed.

Lemma egp_puts_create_md_for (req : NetstackCreateRequest) (request : ReqCreateBase)
  (iter : nat) (results : list ResMeasureDirectly) (w : World) :
  egp_puts (log (fst (create_md_for K req request iter results w))) = egp_puts (log w).
Proof.
  unfold create_md_for. destruct (iter <? number request).
  - by destruct (allocate_comm (physical_memory w)) as [[p pm]|e].
  - assert (∀ indices w, egp_puts (log (fst (create_md_write K (pid req) (result_array_addr req)
                                              indices results w))) = egp_puts (log w)) as Hw.
    { clear. intros indices. induction indices as [|i indices IH]; intros w; simpl; [done|].
      destruct (results !! i) as [result|]; [|done].
      rewrite IH. apply egp_puts_write_indexed. }
    specialize (Hw (seq 0 (number request)) w).
    destruct (create_md_write _ _ _ _ _ _) as [w' [e|]]; simpl in *; [done|].
    rewrite egp_puts_app, Hw. simpl. by rewrite app_nil_r.
Qed.

Lemma egp_puts_receive_md_for (req : NetstackReceiveRequest) (request : ReqCreateBase)
  (iter : nat) (results : list ResMeasureDirectly) (w : World) :
  egp_puts (log (fst (receive_md_for K req request iter results w))) = egp_puts (log w).
Proof.
  unfold receive_md_for, qdevice_allocate_comm. destruct (iter <? number request).
  - by destruct (allocate_comm (physical_memory w)) as [[p pm]|e].
  - assert (∀ indices w, egp_puts (log (fst (receive_md_write K (recv_pid req)
                                              (recv_result_array_addr req)
                                              indices results w))) = egp_puts (log w)) as Hw.
    { clear. intros indices. induction indices as [|i indices IH]; intros w; simpl; [done|].
      destruct (results !! i) as [result|]; [|done].
      rewrite IH. unfold send_processor_msg. simpl. rewrite egp_puts_app. simpl.
      rewrite app_nil_r. apply egp_puts_write_indexed. }
    specialize (Hw (seq 0 (number request)) w).
    by destruct (receive_md_write _ _ _ _ _ _) as [w' [e|]].
Qed.

(** A measure-directly handler puts nothing to the EGP once it is
    under way. *)
Lemma egp_puts_md_run (req : NetstackCreateRequest) (rreq : NetstackReceiveRequest)
  (request : ReqCreateBase) (stimuli : list Stimulus) (st : World * MdPc) :
  egp_puts (log (fst (run (λ _, create_md_resume K req request) stimuli st))) =
    egp_puts (log (fst st)) ∧
  egp_puts (log (fst (run (λ _, receive_md_resume K rreq request) stimuli st))) =
    egp_puts (log (fst st)).
Proof.
  revert st. induction stimuli as [|s stimuli IH]; intros st; [done|].
  rewrite !run_cons. destruct (IH (step (λ _, create_md_resume K req request) st s)) as [-> _].
  destruct (IH (step (λ _, receive_md_resume K rreq request) st s)) as [_ ->].
  destruct st as [w pc], s as [id|msgs|msgs|t sig]; cbn [step fst snd];
    rewrite ?env_step_log; try done.
  destruct pc as [iter p results| |e], sig as [| | |r|r|]; simpl; try done.
  destruct (free p (physical_memory w)) as [pm|e]; [|done].
  by rewrite egp_puts_create_md_for, egp_puts_receive_md_for.
Qed.

(** X23: how the requests reach the EGP.  A create-and-keep request
    for [n] pairs is split: the creator puts [n] requests of one pair
    each, one for every communication qubit it obtains, and the receiver
    as many receive requests; this is for a pool that serves [n]
    allocations in a row and for pairs delivered at clocks whose
    duration is finite.  A measure-directly request is put once, for
    all its pairs, before the first qubit is allocated, and nothing
    more is put whatever happens then.  Each request is of the class
    that its handler expects. *)
Theorem egp_requests_split_or_whole (now : float) (req : NetstackCreateRequest)
  (rreq : NetstackReceiveRequest) (keep measure : ReqCreateBase) (w : World)
  (ds : list Delivery) (ps : list nat) (m' : PhysicalQuantumMemory)
  (creator_duration receiver_duration : Delivery → Z) (stimuli : list Stimulus) :
  req_type keep = CreateAndKeep →
  req_type measure = MeasureDirectly →
  length ds = number keep →
  allocate_comm_n (number keep) (physical_memory w) = Some (ps, m') →
  durations_of now creator_time creator_duration ds →
  durations_of now at_result receiver_duration ds →
  egp_puts (log (fst (run (create_ck_resume K (ck_frame now req keep))
                        (concat (map creator_signals ds))
                        (handle_create_ck_request now req keep w)))) =
    egp_puts (log w) ++
    replicate (number keep)
      (create_remote_node_id req,
       ReqCreate {| req_type := CreateAndKeep;
                    remote_node_id := remote_node_id keep; number := 1 |}) ∧
  egp_puts (log (fst (run (receive_ck_resume K (rck_frame now rreq keep))
                        (concat (map receiver_signals ds))
                        (handle_receive_ck_request now rreq keep w)))) =
    egp_puts (log w) ++
    replicate (number keep)
      (recv_remote_node_id rreq, ReqReceive (recv_remote_node_id rreq)) ∧
  egp_puts (log (fst (run (λ _, create_md_resume K req measure) stimuli
                        (handle_create_md_request K req measure w)))) =
    egp_puts (log w) ++ [(create_remote_node_id req, ReqCreate measure)] ∧
  egp_puts (log (fst (run (λ _, receive_md_resume K rreq measure) stimuli
                        (handle_receive_md_request K rreq measure w)))) =
    egp_puts (log w) ++ [(recv_remote_node_id rreq, ReqReceive (recv_remote_node_id rreq))].
Proof.
  intros Hkeep Hmeasure Hlen Hn Hdc Hdr. rewrite <- Hlen in Hn |- *. repeat split.
  - rewrite <- Hkeep.
    apply (create_ck_run_puts (ck_frame now req keep) ds 0 w ps m' creator_duration);
      [simpl; lia|done|done].
  - unfold handle_receive_ck_request. rewrite Hkeep.
    apply (receive_ck_run_puts (rck_frame now rreq keep) ds 0 w ps m' receiver_duration);
      [simpl; lia|done|done].
  - rewrite (proj1 (egp_puts_md_run req rreq measure stimuli _)).
    unfold handle_create_md_request. rewrite egp_puts_create_md_for. simpl.
    by rewrite egp_puts_app.
  - rewrite (proj2 (egp_puts_md_run req rreq measure stimuli _)).
    unfold handle_receive_md_request. rewrite Hmeasure, egp_puts_receive_md_for. simpl.
    by rewrite egp_puts_app.
Qed.

End EgpFacts.

(** An instance: two pairs on a node of two qubits. *)
Lemma egp_requests_split_or_whole_witness :
  let ds := [ {| NetstackMore.at_result := 1000%float;
                 NetstackMore.reported := {| Netstack.bell_state := Netstack.B00 |};
                 NetstackMore.at_program_done := 1000%float |};
              {| NetstackMore.at_result := 2000%float;
                 NetstackMore.reported := {| Netstack.bell_state := Netstack.B10 |};
                 NetstackMore.at_program_done := 2500%float |} ] in
  let request := Netstack.example_request Netstack.CreateAndKeep 2 in
  NetstackMore.egp_puts
    (Netstack.log
       (fst (Netstack.run
               (Netstack.create_ck_resume Netstack.example_imports
                  (Netstack.ck_frame 0%float Netstack.example_create request))
               (concat (map NetstackMore.creator_signals ds))
               (Netstack.handle_create_ck_request 0%float Netstack.example_create request
                  (Netstack.example_world (Memory.PhysicalQuantumMemory_init 2)))))) =
  replicate 2 (1, Netstack.ReqCreate (Netstack.example_request Netstack.CreateAndKeep 1)).
Proof.
  intros ds request.
  apply (egp_requests_split_or_whole Netstack.example_imports 0%float Netstack.example_create
           Netstack.example_receive request
           (Netstack.example_request Netstack.MeasureDirectly 2)
           (Netstack.example_world (Memory.PhysicalQuantumMemory_init 2)) ds [0; 1]
           (Memory.run_calls (Memory.PhysicalQuantumMemory_init 2)
              [Memory.CallAllocateComm; Memory.CallAllocateComm])
           (λ d, match Netstack.gen_duration_us_int (NetstackMore.creator_time d) 0 with
                 | Ok g => g
                 | Raise _ => 0%Z
                 end)
           (λ d, match Netstack.gen_duration_us_int (NetstackMore.at_result d) 0 with
                 | Ok g => g
                 | Raise _ => 0%Z
                 end) []).
  - reflexivity.
  - reflexivity.
  - reflexivity.
  - vm_compute. reflexivity.
  - intros d Hd.
    repeat (apply elem_of_cons in Hd as [->|Hd]; [vm_compute; repeat split; discriminate|]).
    by apply elem_of_nil in Hd.
  - intros d Hd.
    repeat (apply elem_of_cons in Hd as [->|Hd]; [vm_compute; repeat split; discriminate|]).
    by apply elem_of_nil in Hd.
Defined.

(** ** Rounds of a simulated application *)

Section SimulateFacts.

Import Simulate.

Context {Results : Type}.

Variable run_app : nat → Results.
Variable default_log_cfg : LogConfig.
Variable abspath_log : string.

Lemma backend_calls_app (l1 l2 : list Effect) :
  backend_calls (l1 ++ l2) = backend_calls l1 ++ backend_calls l2.
Proof. apply omap_app. Qed.

Lemma dumps_app (l1 l2 : list Effect) : dumps (l1 ++ l2) = dumps l1 ++ dumps l2.
Proof. apply omap_app. Qed.

Lemma logging_calls_app (l1 l2 : list Effect) :
  logging_calls (l1 ++ l2) = logging_calls l1 ++ logging_calls l2.
Proof. apply omap_app. Qed.

(** The rounds [k, k+1, ...]: the backend runs each once, in order,
    and [results] is bound to what the last one returned. *)
Lemma rounds_backend (logging : option (LogConfig * string)) (n k : nat) (l : Locals) :
  let l' := foldl (one_round run_app logging) l (seq k n) in
  backend_calls (effects l') = backend_calls (effects l) ++ map RunApp (seq k n) ∧
  results l' = match n with 0 => results l | S m => Some (run_app (k + m)) end.
Proof.
  cbv zeta. revert k l. induction n as [|n IH]; intros k l.
  { simpl. by rewrite app_nil_r. }
  simpl. destruct (IH (S k) (one_round run_app logging l k)) as [-> ->].
  split.
  - unfold one_round. destruct logging as [[cfg dir]|]; simpl.
    + unfold choose_timed_log_dir.
      destruct (split_runs cfg), (timed_log_dir l); simpl;
        rewrite !backend_calls_app; simpl; rewrite ?app_nil_r, <- ?app_assoc; done.
    + rewrite !backend_calls_app. simpl. by rewrite <- app_assoc.
  - destruct n as [|m].
    + unfold one_round. rewrite Nat.add_0_r. destruct logging as [[cfg dir]|]; simpl; [|done].
      unfold choose_timed_log_dir. by destruct (split_runs cfg), (timed_log_dir l).
    + f_equal. f_equal. lia.
Qed.

(** The rounds [k, k+1, ...] with logging enabled: where each round's
    results are dumped, and the directory left in [timed_log_dir]. *)
Lemma rounds_dumps (cfg : LogConfig) (dir : string) (n k : nat) (l : Locals) :
  let l' := foldl (one_round run_app (Some (cfg, dir))) l (seq k n) in
  let dir_of j := if split_runs cfg then timed_dirs l + j
                  else match timed_log_dir l with Some t => t | None => timed_dirs l end in
  dumps (effects l') = dumps (effects l) ++ map (λ j, (k + j, dir_of j)) (seq 0 n) ∧
  timed_log_dir l' = match n with 0 => timed_log_dir l | S m => Some (dir_of m) end.
Proof.
  cbv zeta. revert k l. induction n as [|n IH]; intros k l.
  { simpl. by rewrite app_nil_r. }
  cbn [seq foldl]. destruct (IH (S k) (one_round run_app (Some (cfg, dir)) l k)) as [-> ->].
  assert (dumps (effects (one_round run_app (Some (cfg, dir)) l k)) =
          dumps (effects l) ++
          [(k, if split_runs cfg then timed_dirs l
               else match timed_log_dir l with Some t => t | None => timed_dirs l end)]) as ->.
  { unfold one_round, choose_timed_log_dir.
    destruct (split_runs cfg), (timed_log_dir l); simpl;
      rewrite !dumps_app; simpl; by rewrite ?app_nil_r. }
  assert (timed_log_dir (one_round run_app (Some (cfg, dir)) l k) =
          Some (if split_runs cfg then timed_dirs l
                else match timed_log_dir l with Some t => t | None => timed_dirs l end)) as Ht.
  { unfold one_round, choose_timed_log_dir.
    destruct (split_runs cfg), (timed_log_dir l) eqn:Hl; simpl; by rewrite ?Hl. }
  assert (split_runs cfg = true →
          timed_dirs (one_round run_app (Some (cfg, dir)) l k) = S (timed_dirs l)) as Hd.
  { intros Hs. unfold one_round, choose_timed_log_dir. rewrite Hs.
    by destruct (timed_log_dir l). }
  rewrite Ht. destruct (split_runs cfg) eqn:Hs.
  - rewrite (Hd eq_refl). split.
    + rewrite <- app_assoc. f_equal. cbn [seq map]. rewrite <- seq_shift, map_map.
      cbn [app]. rewrite !Nat.add_0_r. f_equal. apply map_ext. intros j. f_equal; lia.
    + destruct n as [|m]; [by rewrite Nat.add_0_r|]. f_equal. lia.
  - cbn beta iota. split.
    + rewrite <- app_assoc. f_equal. cbn [seq map]. rewrite <- seq_shift, map_map.
      cbn [app]. rewrite Nat.add_0_r. f_equal. apply map_ext. intros j. f_equal. lia.
    + by destruct n.
Qed.


Lemma rounds_without_logging (n k : nat) (l : Locals) :
  logging_calls (effects (foldl (one_round run_app None) l (seq k n))) =
  logging_calls (effects l).
Proof.
  revert k l. induction n as [|n IH]; intros k l; [done|].
  simpl. rewrite IH. simpl. rewrite logging_calls_app. simpl. by rewrite app_nil_r.
Qed.


End SimulateFacts.

(** ** The socket of a breakpoint *)

Section BreakpointSocketFacts.

Import Netstack NetstackMore.

Lemma opened_by_snoc (pid : nat) (opens : list (nat * nat * nat)) (p s r : nat) :
  opened_by pid (opens ++ [(p, s, r)]) =
  opened_by pid opens ++
  (if p =? pid then [ {| socket_id := s; remote_id := r |} ] else []).
Proof. unfold opened_by. rewrite omap_app. simpl. by destruct (p =? pid). Qed.

(** The registry holds, for each process that opened a socket, its
    sockets in the order they were opened; it never holds an empty
    list. *)
Lemma open_all_lookup (opens : list (nat * nat * nat)) (pid : nat) :
  open_all opens !! pid =
  match opened_by pid opens with
  | [] => None
  | l => Some l
  end.
Proof.
  induction opens as [|[[p s] r] opens IH] using rev_ind; [done|].
  unfold open_all in *. rewrite foldl_app, opened_by_snoc. simpl.
  set (sockets := foldl _ ∅ opens) in *.
  unfold open_epr_socket. destruct (Nat.eqb_spec p pid) as [->|Hne].
  - rewrite lookup_alter_eq. case_bool_decide as Hdom.
    + apply elem_of_dom in Hdom as [l Hl]. rewrite Hl in IH |- *.
      destruct (opened_by pid opens) as [|x l']; [done|]. injection IH as ->. done.
    + apply not_elem_of_dom in Hdom. rewrite lookup_insert_eq. rewrite Hdom in IH.
      destruct (opened_by pid opens) as [|x l']; [done|discriminate].
  - rewrite lookup_alter_ne by done. rewrite app_nil_r.
    case_bool_decide; [done|]. by rewrite lookup_insert_ne.
Qed.

(** X26: the peer of a breakpoint is the remote node of the first
    socket that process 0 opened, whatever the id of that socket (not
    socket 0 of process 0) and whichever process hit the breakpoint.
    If process 0 has opened no socket, both breakpoint handlers raise
    [KeyError] before anything is sent; the lookup never raises
    [IndexError], since a process is entered in the registry together
    with its first socket. *)
Theorem breakpoint_uses_first_socket_of_process_0 (opens : list (nat * nat * nat))
  (w : World) :
  match opened_by 0 opens with
  | [] =>
      breakpoint_remote_id (open_all opens) = Raise KeyError ∧
      breakpoint_create_call (open_all opens) w = (w, BpRaised KeyError) ∧
      breakpoint_receive_call (open_all opens) w = (w, BpRaised KeyError)
  | sck :: _ =>
      breakpoint_remote_id (open_all opens) = Ok (remote_id sck) ∧
      breakpoint_create_call (open_all opens) w = handle_breakpoint_create_request w ∧
      breakpoint_receive_call (open_all opens) w = handle_breakpoint_receive_request w
  end.
Proof.
  unfold breakpoint_create_call, breakpoint_receive_call, breakpoint_remote_id.
  rewrite open_all_lookup. by destruct (opened_by 0 opens).
Qed.

End BreakpointSocketFacts.
